(** * A verification model of the site-to-markdown crawler (web-crawling.py)

    The development follows the layout of the program:

    - [PyStr]    : the Python [str] operations the program relies on;
    - [Re]       : the three regular expressions of the program;
    - [OsPath]   : [os.path.split], [splitext], [join], [dirname];
    - [Sha1]     : [hashlib.sha1(..).hexdigest()];
    - [Json]     : [json.dumps] of a string;
    - [UrlParse] : [urllib.parse.urlparse], [urlunparse], [urljoin];
    - [Crawler]  : the functions of web-crawling.py themselves
                   ([_is_valid_href], [_safe_filename_from_url], the nested
                   helpers of [crawl_site_to_markdown], its main loop as a
                   step function on an explicit crawl state, start-up and
                   shut-down);
    - [Scenario] : concrete sites and environments;
    - the properties: facts about the library models and about the
      iterations of the loop, the claims of the specification (one section
      per claim), and further properties of the code.

    Python strings are modelled by [string]: a character is a code point
    below 256, and [len] is [String.length].  The library functions were
    compared with CPython 3.11 on test vectors. *)

From Stdlib Require Import ZArith NArith Ascii String List Bool Lia.
From stdpp Require Import gmap strings list sorting.

#[local] Arguments String.append !_ _ / : simpl nomatch.

(* ===================================================================== *)
(** * Python string primitives *)
(* ===================================================================== *)

Module PyStr.

(** [all(P(c) for c in s)] *)
Fixpoint str_all (P : ascii → bool) (s : string) : bool :=
  match s with
  | EmptyString => true
  | String a s' => P a && str_all P s'
  end.

(** [c in s] for a single character [c] *)
Definition has_char (c : ascii) (s : string) : bool :=
  negb (str_all (λ a, negb (Ascii.eqb a c)) s).

(** The part of [s] before the first character satisfying [P], and the
    rest (which starts with that character, or is empty): the common core
    of [s.find(c)], [s.split(c, 1)] and [s.partition(c)]. *)
Fixpoint span (P : ascii → bool) (s : string) : string * string :=
  match s with
  | EmptyString => (EmptyString, EmptyString)
  | String a s' =>
      if P a then (EmptyString, s)
      else let '(h, t) := span P s' in (String a h, t)
  end.

(** [s.lstrip(chars)] and [s.rstrip(chars)], the character set given as a
    predicate *)
Fixpoint lstrip (P : ascii → bool) (s : string) : string :=
  match s with
  | EmptyString => EmptyString
  | String a s' => if P a then lstrip P s' else s
  end.

Fixpoint rstrip (P : ascii → bool) (s : string) : string :=
  match s with
  | EmptyString => EmptyString
  | String a s' =>
      match rstrip P s' with
      | EmptyString => if P a then EmptyString else String a EmptyString
      | r => String a r
      end
  end.

(** [s.replace(c, "")] for every [c] in a character set *)
Fixpoint remove_chars (P : ascii → bool) (s : string) : string :=
  match s with
  | EmptyString => EmptyString
  | String a s' => if P a then remove_chars P s' else String a (remove_chars P s')
  end.

Fixpoint map_chars (f : ascii → ascii) (s : string) : string :=
  match s with
  | EmptyString => EmptyString
  | String a s' => String (f a) (map_chars f s')
  end.

Definition ord (a : ascii) : N := N_of_ascii a.

Definition in_range (lo hi : N) (a : ascii) : bool :=
  ((lo <=? ord a) && (ord a <=? hi))%N.

Definition is_upper (a : ascii) : bool := in_range 65 90 a.
Definition is_lower (a : ascii) : bool := in_range 97 122 a.
Definition is_digit (a : ascii) : bool := in_range 48 57 a.
Definition is_ascii_alpha (a : ascii) : bool := is_upper a || is_lower a.

(** [str.isspace] on code points below 256 *)
Definition is_space (a : ascii) : bool :=
  in_range 9 13 a || in_range 28 32 a || (ord a =? 133)%N || (ord a =? 160)%N.

(** [s.strip()] *)
Definition strip (s : string) : string := rstrip is_space (lstrip is_space s).

(** [c.lower()] on ASCII letters; it is only ever applied to scheme names
    and to the text compared with the ASCII extension lists. *)
Definition lower_char (a : ascii) : ascii :=
  if is_upper a then ascii_of_N (ord a + 32) else a.
Definition lower (s : string) : string := map_chars lower_char s.

(** [s.startswith(p)] and [s.endswith(p)] *)
Fixpoint startswith (p s : string) : bool :=
  match p, s with
  | EmptyString, _ => true
  | String a p', String b s' => Ascii.eqb a b && startswith p' s'
  | String _ _, EmptyString => false
  end.

Fixpoint endswith (suf s : string) : bool :=
  if String.eqb s suf then true
  else match s with
       | EmptyString => false
       | String _ s' => endswith suf s'
       end.

(** [s[:n]] and [s[n:]] for [n >= 0] *)
Fixpoint str_take (n : nat) (s : string) : string :=
  match n, s with
  | S n', String a s' => String a (str_take n' s')
  | _, _ => EmptyString
  end.

Fixpoint str_drop (n : nat) (s : string) : string :=
  match n, s with
  | S n', String _ s' => str_drop n' s'
  | _, _ => s
  end.

(** [s.split(c)] *)
Fixpoint split_on (c : ascii) (s : string) : list string :=
  match s with
  | EmptyString => [EmptyString]
  | String a s' =>
      if Ascii.eqb a c then EmptyString :: split_on c s'
      else match split_on c s' with
           | x :: r => String a x :: r
           | [] => [String a EmptyString]
           end
  end.

(** [c.join(l)] *)
Fixpoint join_with (c : string) (l : list string) : string :=
  match l with
  | [] => EmptyString
  | [x] => x
  | x :: r => x +:+ c +:+ join_with c r
  end.

(** The position of the last [c] in [s] ([s.rfind(c)]), as the pair
    [(s[:i+1], s[i+1:])]; [None] when [c] does not occur. *)
Fixpoint rsplit_at (c : ascii) (s : string) : option (string * string) :=
  match s with
  | EmptyString => None
  | String a s' =>
      match rsplit_at c s' with
      | Some (h, t) => Some (String a h, t)
      | None => if Ascii.eqb a c then Some (String a EmptyString, s') else None
      end
  end.

(** [c * n] *)
Fixpoint repeat_char (c : ascii) (n : nat) : string :=
  match n with
  | O => EmptyString
  | S n' => String c (repeat_char c n')
  end.

Definition is_empty (s : string) : bool :=
  match s with EmptyString => true | _ => false end.

(** [a or b] on strings *)
Definition or_else (a b : string) : string := if is_empty a then b else a.

End PyStr.

(* ===================================================================== *)
(** * The regular expressions of the program *)
(* ===================================================================== *)

Module Re.
Import PyStr.

Definition newline : ascii := ascii_of_N 10.

(** [re.compile(r".*\.(e1|...|en)$", re.I).match(s)] as a boolean.  [.]
    does not match a newline, [$] matches at the end of the string and
    just before a newline that ends the string, and [re.I] folds the case
    of ASCII letters. *)
Definition ext_match (exts : list string) (s : string) : bool :=
  let t := if endswith (String newline EmptyString) s
           then str_take (String.length s - 1) s else s in
  str_all (λ a, negb (Ascii.eqb a newline)) t
  && existsb (λ e, endswith ("." +:+ e) (lower t)) exts.

(** [re.sub(r"[^0-9A-Za-z\-_]", "_", q)] *)
Definition is_word_char (a : ascii) : bool :=
  is_digit a || is_upper a || is_lower a || Ascii.eqb a "-" || Ascii.eqb a "_".

Definition sub_non_word (q : string) : string :=
  map_chars (λ a, if is_word_char a then a else "_"%char) q.

End Re.

(* ===================================================================== *)
(** * os.path (POSIX flavour) *)
(* ===================================================================== *)

Module OsPath.
Import PyStr.

Definition is_sep (a : ascii) : bool := Ascii.eqb a "/".
Definition is_dot (a : ascii) : bool := Ascii.eqb a ".".

(** [os.path.split(p)]: [i = p.rfind('/') + 1], head [p[:i]] with its
    trailing slashes removed unless it consists of slashes only. *)
Definition split (p : string) : string * string :=
  match rsplit_at "/" p with
  | None => (EmptyString, p)
  | Some (head, tail) =>
      (if str_all is_sep head then head else rstrip is_sep head, tail)
  end.

Definition dirname (p : string) : string := fst (split p).

(** [os.path.splitext(p)]: the extension starts at the last dot of the
    last component, unless only dots precede it there. *)
Definition splitext (p : string) : string * string :=
  let '(dir, base) := match rsplit_at "/" p with
                      | None => (EmptyString, p)
                      | Some (h, t) => (h, t)
                      end in
  match rsplit_at "." base with
  | None => (p, EmptyString)
  | Some (name_dot, after) =>
      let name := str_take (String.length name_dot - 1) name_dot in
      if str_all is_dot name then (p, EmptyString)
      else (dir +:+ name, "." +:+ after)
  end.

(** [os.path.join(a, b)] *)
Definition join (a b : string) : string :=
  if startswith "/" b then b
  else if is_empty a || endswith "/" a then a +:+ b
  else a +:+ "/" +:+ b.

(** [os.path.join(a, b, c)] *)
Definition join3 (a b c : string) : string := join (join a b) c.

End OsPath.

(* ===================================================================== *)
(** * urllib.parse *)
(* ===================================================================== *)

(** The model follows CPython 3.11's [urllib/parse.py] line by line.  A
    [ValueError] ("Invalid IPv6 URL") is the result [None]; it arises when
    the network location has one of the two brackets without the other.
    The further validation of a host written between brackets, which later
    releases of 3.11 add, is not modelled: such a network location is
    accepted.  [_checknetloc] never raises on code points below 256. *)

Module UrlParse.
Import PyStr.

Definition uses_relative : list string :=
  [""; "ftp"; "http"; "gopher"; "nntp"; "imap"; "wais"; "file"; "https";
   "shttp"; "mms"; "prospero"; "rtsp"; "rtspu"; "sftp"; "svn"; "svn+ssh";
   "ws"; "wss"].

Definition uses_netloc : list string :=
  [""; "ftp"; "http"; "gopher"; "nntp"; "telnet"; "imap"; "wais"; "file";
   "mms"; "https"; "shttp"; "snews"; "prospero"; "rtsp"; "rtspu"; "rsync";
   "svn"; "svn+ssh"; "sftp"; "nfs"; "git"; "git+ssh"; "ws"; "wss"].

Definition uses_params : list string :=
  [""; "ftp"; "hdl"; "prospero"; "http"; "imap"; "https"; "shttp"; "rtsp";
   "rtspu"; "sip"; "sips"; "mms"; "sftp"; "tel"].

(** [s in l] *)
Definition in_list (s : string) (l : list string) : bool :=
  existsb (String.eqb s) l.

(** [scheme_chars] *)
Definition is_scheme_char (a : ascii) : bool :=
  is_lower a || is_upper a || is_digit a
  || Ascii.eqb a "+" || Ascii.eqb a "-" || Ascii.eqb a ".".

(** [_WHATWG_C0_CONTROL_OR_SPACE] and [_UNSAFE_URL_BYTES_TO_REMOVE] *)
Definition is_c0_or_space (a : ascii) : bool := (ord a <=? 32)%N.
Definition is_unsafe (a : ascii) : bool :=
  (ord a =? 9)%N || (ord a =? 13)%N || (ord a =? 10)%N.

Definition is_colon (a : ascii) : bool := Ascii.eqb a ":".
Definition is_hash (a : ascii) : bool := Ascii.eqb a "#".
Definition is_qmark (a : ascii) : bool := Ascii.eqb a "?".
Definition is_semi (a : ascii) : bool := Ascii.eqb a ";".
Definition is_netloc_delim (a : ascii) : bool :=
  Ascii.eqb a "/" || Ascii.eqb a "?" || Ascii.eqb a "#".

(** [url.split(c, 1)] when [c] occurs in [url], and [(url, '')] otherwise *)
Definition split_first (P : ascii → bool) (url : string) : string * string :=
  match span P url with
  | (h, String _ t) => (h, t)
  | (h, EmptyString) => (h, EmptyString)
  end.

(** [_splitnetloc(url, 2)] *)
Definition _splitnetloc (url : string) : string * string :=
  span is_netloc_delim (str_drop 2 url).

(** The scheme of [url], when the text before its first colon is one. *)
Definition split_scheme (default url : string) : string * string :=
  match span is_colon url with
  | (String a0 pre, String _ rest) =>
      if is_ascii_alpha a0 && str_all is_scheme_char (String a0 pre)
      then (lower (String a0 pre), rest)
      else (default, url)
  | _ => (default, url)
  end.

(** [urlsplit(url, scheme)] as the tuple
    [(scheme, netloc, url, query, fragment)] *)
Definition urlsplit (url scheme : string)
  : option (string * string * string * string * string) :=
  let url := lstrip is_c0_or_space url in
  let scheme := rstrip is_c0_or_space (lstrip is_c0_or_space scheme) in
  let url := remove_chars is_unsafe url in
  let scheme := remove_chars is_unsafe scheme in
  let '(scheme, url) := split_scheme scheme url in
  let '(netloc, url) :=
    if startswith "//" url then _splitnetloc url else (EmptyString, url) in
  if xorb (has_char "[" netloc) (has_char "]" netloc) then None
  else
    let '(url, fragment) := split_first is_hash url in
    let '(url, query) := split_first is_qmark url in
    Some (scheme, netloc, url, query, fragment).

Record ParseResult := mkParseResult {
  scheme : string;
  netloc : string;
  path : string;
  params : string;
  query : string;
  fragment : string
}.

(** [_splitparams(url)] *)
Definition _splitparams (url : string) : string * string :=
  match rsplit_at "/" url with
  | Some (head, tail) =>
      match span is_semi tail with
      | (h, String _ t) => (head +:+ h, t)
      | (_, EmptyString) => (url, EmptyString)
      end
  | None =>
      match span is_semi url with
      | (h, String _ t) => (h, t)
      | (_, EmptyString) => (str_take (String.length url - 1) url, url)
      end
  end.

(** [urlparse(url, scheme)] *)
Definition urlparse_with (url scheme : string) : option ParseResult :=
  match urlsplit url scheme with
  | None => None
  | Some (scheme, netloc, url, query, fragment) =>
      let '(url, params) :=
        if in_list scheme uses_params && has_char ";" url
        then _splitparams url else (url, EmptyString) in
      Some (mkParseResult scheme netloc url params query fragment)
  end.

(** [urlparse(url)] *)
Definition urlparse (url : string) : option ParseResult :=
  urlparse_with url EmptyString.

(** [urlunsplit((scheme, netloc, url, query, fragment))] *)
Definition urlunsplit (scheme netloc url query fragment : string) : string :=
  let url :=
    if negb (is_empty netloc)
       || (negb (is_empty scheme) && in_list scheme uses_netloc
           && negb (startswith "//" url))
    then "//" +:+ netloc
         +:+ (if negb (is_empty url) && negb (startswith "/" url)
              then "/" +:+ url else url)
    else url in
  let url := if is_empty scheme then url else scheme +:+ ":" +:+ url in
  let url := if is_empty query then url else url +:+ "?" +:+ query in
  if is_empty fragment then url else url +:+ "#" +:+ fragment.

(** [urlunparse((scheme, netloc, url, params, query, fragment))] *)
Definition urlunparse (scheme netloc url params query fragment : string)
  : string :=
  let url := if is_empty params then url else url +:+ ";" +:+ params in
  urlunsplit scheme netloc url query fragment.

(** The loop of [urljoin] over the path segments; [resolved] is
    [resolved_path] with its last element first. *)
Fixpoint resolve_segments (segments resolved : list string) : list string :=
  match segments with
  | [] => resolved
  | seg :: rest =>
      if String.eqb seg ".." then resolve_segments rest (tail resolved)
      else if String.eqb seg "." then resolve_segments rest resolved
      else resolve_segments rest (seg :: resolved)
  end.

(** [segments[1:-1] = filter(None, segments[1:-1])] *)
Definition filter_middle (segments : list string) : list string :=
  match segments with
  | [] => []
  | first :: rest =>
      match rev rest with
      | [] => [first]
      | lst :: mid_rev =>
          first :: List.filter (λ x, negb (is_empty x)) (rev mid_rev) ++ [lst]
      end
  end.

(** [urljoin(base, url)] *)
Definition urljoin (base url : string) : option string :=
  if is_empty base then Some url
  else if is_empty url then Some base
  else
    match urlparse_with base EmptyString with
    | None => None
    | Some b =>
        match urlparse_with url (scheme b) with
        | None => None
        | Some u =>
            if negb (String.eqb (scheme u) (scheme b))
               || negb (in_list (scheme u) uses_relative)
            then Some url
            else if in_list (scheme u) uses_netloc
                    && negb (is_empty (netloc u))
            then Some (urlunparse (scheme u) (netloc u) (path u) (params u)
                                  (query u) (fragment u))
            else
              let netloc' :=
                if in_list (scheme u) uses_netloc then netloc b
                else netloc u in
              if is_empty (path u) && is_empty (params u)
              then Some (urlunparse (scheme u) netloc' (path b) (params b)
                           (if is_empty (query u) then query b else query u)
                           (fragment u))
              else
                let base_parts :=
                  let bp := split_on "/" (path b) in
                  if negb (is_empty (List.last bp EmptyString))
                  then removelast bp else bp in
                let segments :=
                  if startswith "/" (path u) then split_on "/" (path u)
                  else filter_middle (base_parts ++ split_on "/" (path u)) in
                let resolved_path := rev (resolve_segments segments []) in
                let resolved_path :=
                  let l := List.last segments EmptyString in
                  if String.eqb l "." || String.eqb l ".."
                  then resolved_path ++ [EmptyString] else resolved_path in
                Some (urlunparse (scheme u) netloc'
                        (or_else (join_with "/" resolved_path) "/")
                        (params u) (query u) (fragment u))
        end
    end.

End UrlParse.

(* ===================================================================== *)
(** * hashlib.sha1 *)
(* ===================================================================== *)

(** SHA-1 (FIPS 180-4) on 32-bit words held in [Z], the wrap-around
    written out with [mask32]. *)

Module Sha1.
#[local] Open Scope Z_scope.

Definition mask32 (x : Z) : Z := Z.land x 0xFFFFFFFF.

Definition rotl (n x : Z) : Z :=
  mask32 (Z.lor (Z.shiftl x n) (Z.shiftr x (32 - n))).

(** [s.encode("utf-8")] for code points below 256 *)
Fixpoint utf8 (s : string) : list Z :=
  match s with
  | EmptyString => []
  | String a s' =>
      let c := Z.of_N (N_of_ascii a) in
      if c <? 128 then c :: utf8 s'
      else Z.lor 0xC0 (Z.shiftr c 6) :: Z.lor 0x80 (Z.land c 0x3F) :: utf8 s'
  end.

(** big-endian bytes of a 64-bit length *)
Definition be64 (n : Z) : list Z :=
  List.map (λ k, Z.land (Z.shiftr n (8 * k)) 0xFF) [7; 6; 5; 4; 3; 2; 1; 0].

Definition pad (msg : list Z) : list Z :=
  let l := length msg in
  msg ++ [0x80] ++ List.repeat 0 ((119 - l mod 64) mod 64)%nat
      ++ be64 (8 * Z.of_nat l).

(** big-endian 32-bit words of a block of bytes *)
Fixpoint words (fuel : nat) (bytes : list Z) : list Z :=
  match fuel, bytes with
  | S f, b0 :: b1 :: b2 :: b3 :: rest =>
      Z.lor (Z.shiftl b0 24) (Z.lor (Z.shiftl b1 16) (Z.lor (Z.shiftl b2 8) b3))
      :: words f rest
  | _, _ => []
  end.

(** the message schedule, newest word first *)
Fixpoint extend (n : nat) (w_rev : list Z) : list Z :=
  match n with
  | O => w_rev
  | S n' =>
      let x := Z.lxor (Z.lxor (nth 2 w_rev 0) (nth 7 w_rev 0))
                      (Z.lxor (nth 13 w_rev 0) (nth 15 w_rev 0)) in
      extend n' (rotl 1 x :: w_rev)
  end.

Definition state : Type := Z * Z * Z * Z * Z.

Definition round (i : nat) (st : state) (w : Z) : state :=
  let '(a, b, c, d, e) := st in
  let '(f, k) :=
    if (i <? 20)%nat
    then (Z.lor (Z.land b c) (Z.land (Z.lxor b 0xFFFFFFFF) d), 0x5A827999)
    else if (i <? 40)%nat then (Z.lxor b (Z.lxor c d), 0x6ED9EBA1)
    else if (i <? 60)%nat
    then (Z.lor (Z.land b c) (Z.lor (Z.land b d) (Z.land c d)), 0x8F1BBCDC)
    else (Z.lxor b (Z.lxor c d), 0xCA62C1D6) in
  (mask32 (rotl 5 a + f + e + k + w), a, rotl 30 b, c, d).

Fixpoint rounds (i : nat) (ws : list Z) (st : state) : state :=
  match ws with
  | [] => st
  | w :: ws' => rounds (S i) ws' (round i st w)
  end.

Definition compress (st : state) (block : list Z) : state :=
  let ws := rev (extend 64 (rev (words 16 block))) in
  let '(a, b, c, d, e) := rounds 0 ws st in
  let '(h0, h1, h2, h3, h4) := st in
  (mask32 (h0 + a), mask32 (h1 + b), mask32 (h2 + c), mask32 (h3 + d),
   mask32 (h4 + e)).

Fixpoint blocks (fuel : nat) (bytes : list Z) (st : state) : state :=
  match fuel, bytes with
  | S f, _ :: _ => blocks f (List.skipn 64 bytes) (compress st (List.firstn 64 bytes))
  | _, _ => st
  end.

Definition digest (s : string) : state :=
  let m := pad (utf8 s) in
  blocks (length m)
    m (0x67452301, 0xEFCDAB89, 0x98BADCFE, 0x10325476, 0xC3D2E1F0).

Definition hex_digit (x : Z) : ascii :=
  let n := Z.to_N (Z.land x 0xF) in
  if (n <? 10)%N then ascii_of_N (48 + n) else ascii_of_N (87 + n).

Definition hex8 (w : Z) (k : string) : string :=
  String (hex_digit (Z.shiftr w 28)) (String (hex_digit (Z.shiftr w 24))
  (String (hex_digit (Z.shiftr w 20)) (String (hex_digit (Z.shiftr w 16))
  (String (hex_digit (Z.shiftr w 12)) (String (hex_digit (Z.shiftr w 8))
  (String (hex_digit (Z.shiftr w 4)) (String (hex_digit w) k))))))).

(** [hashlib.sha1(s.encode("utf-8")).hexdigest()] *)
Definition hexdigest (s : string) : string :=
  let '(h0, h1, h2, h3, h4) := digest s in
  hex8 h0 (hex8 h1 (hex8 h2 (hex8 h3 (hex8 h4 EmptyString)))).

End Sha1.

(* ===================================================================== *)
(** * json.dumps on strings *)
(* ===================================================================== *)

(** [json.dumps(s)] of a [str] with the default [ensure_ascii=True], as
    [json.encoder.py_encode_basestring_ascii] computes it. *)

Module Json.
Import PyStr.

Definition quote : ascii := ascii_of_N 34.
Definition backslash : ascii := ascii_of_N 92.

(** The replacement of one character: [ESCAPE_DCT[c]] where it is defined,
    the character itself between [' '] and ['~'], and
    ['\\u{0:04x}'.format(ord(c))] otherwise. *)
Definition escape (a : ascii) : string :=
  if Ascii.eqb a quote then String backslash (String quote EmptyString)
  else if Ascii.eqb a backslash then String backslash (String backslash EmptyString)
  else if (ord a =? 8)%N then String backslash "b"
  else if (ord a =? 12)%N then String backslash "f"
  else if (ord a =? 10)%N then String backslash "n"
  else if (ord a =? 13)%N then String backslash "r"
  else if (ord a =? 9)%N then String backslash "t"
  else if in_range 32 126 a then String a EmptyString
  else String backslash
         ("u00" +:+ String (Sha1.hex_digit (Z.shiftr (Z.of_N (ord a)) 4))
                      (String (Sha1.hex_digit (Z.of_N (ord a))) EmptyString)).

(** [ESCAPE_ASCII.sub(replace, s)] *)
Fixpoint escape_all (s : string) : string :=
  match s with
  | EmptyString => EmptyString
  | String a s' => escape a +:+ escape_all s'
  end.

Definition dumps (s : string) : string :=
  String quote (escape_all s +:+ String quote EmptyString).

End Json.

(* ===================================================================== *)
(** * web-crawling.py *)
(* ===================================================================== *)

Module Crawler.
Import PyStr UrlParse.

(** ** Module-level constants and helpers *)

Definition IGNORED_EXTENSIONS : string → bool :=
  Re.ext_match ["css"; "js"; "json"; "zip"; "rar"; "exe"; "tar"; "gz"; "mp3";
                "mp4"; "avi"; "mov"].

Definition ASSET_EXTENSIONS : string → bool :=
  Re.ext_match ["jpg"; "jpeg"; "png"; "gif"; "svg"; "webp"; "bmp"; "pdf";
                "doc"; "docx"; "xls"; "xlsx"; "ppt"; "pptx"].

(** [_is_valid_href(href)]; [None] is Python's [None]. *)
Definition _is_valid_href (href : option string) : bool :=
  match href with
  | None => false
  | Some href =>
      if is_empty href then false
      else
        let href := strip href in
        if startswith "#" href then false
        else if startswith "javascript:" href then false
        else if startswith "mailto:" href || startswith "tel:" href then false
        else if IGNORED_EXTENSIONS href then false
        else true
  end.

(** The cap on the final path component.  Both [_safe_filename_from_url]
    and [_safe_asset_path] end with the same lines: [os.path.split], and
    when the last component is longer than [max_component_len], its name is
    cut and the first ten hexadecimal digits of the SHA-1 of the source URL
    are put between name and extension.  [floor] is the least number of
    characters kept of the name (16 for pages, 8 for assets), [source_url]
    the URL that is hashed. *)
Definition max_component_len : nat := 200.

Definition truncate_component (floor : Z) (source_url last : string) : string :=
  let '(name, ext) := OsPath.splitext last in
  let h := str_take 10 (Sha1.hexdigest source_url) in
  let allowed := (Z.of_nat max_component_len - Z.of_nat (String.length ext) - 3
                  - Z.of_nat (String.length h))%Z in
  let allowed := if (allowed <? floor)%Z then floor else allowed in
  str_take (Z.to_nat allowed) name +:+ "__" +:+ h +:+ ext.

Definition cap_last_component (floor : Z) (source_url p : string) : string :=
  let '(dirpart, last) := OsPath.split p in
  if (max_component_len <? String.length last)%nat
  then OsPath.join dirpart (truncate_component floor source_url last)
  else p.

(** [safe_path] of [_safe_filename_from_url] as it is before the cap *)
Definition page_path_uncapped (u_target : ParseResult) : string :=
  let path := or_else (path u_target) "/" in
  let path := if endswith "/" path then path +:+ "index" else path in
  let safe_path := lstrip OsPath.is_sep path in
  let safe_path := if is_empty safe_path then "index" else safe_path in
  let safe_path :=
    if is_empty (query u_target) then safe_path
    else safe_path +:+ "__" +:+ Re.sub_non_word (query u_target) in
  if endswith ".md" safe_path then safe_path else safe_path +:+ ".md".

(** [_safe_filename_from_url(base_url, target_url)]; [None] when
    [urlparse] raises. *)
Definition _safe_filename_from_url (base_url target_url : string)
  : option string :=
  match urlparse base_url, urlparse target_url with
  | Some u_base, Some u_target =>
      Some (cap_last_component 16 target_url (page_path_uncapped u_target))
  | _, _ => None
  end.

(** [_is_asset_link(link)] *)
Definition _is_asset_link (link : string) : bool :=
  if is_empty link then false else ASSET_EXTENSIONS link.

(** [asset_path] of [_safe_asset_path] as it is before the cap *)
Definition asset_path_uncapped (u : ParseResult) : string :=
  let asset_path := or_else (lstrip OsPath.is_sep (path u)) "root" in
  let asset_path :=
    if is_empty (query u) then asset_path
    else asset_path +:+ "__" +:+ Re.sub_non_word (query u) in
  if is_empty (snd (OsPath.splitext asset_path))
  then asset_path +:+ ".bin" else asset_path.

(** [_safe_asset_path(base, resource_url)], with the [assets_dir] of the
    enclosing function as a parameter *)
Definition _safe_asset_path (assets_dir base resource_url : string)
  : option string :=
  match urlparse resource_url with
  | None => None
  | Some u =>
      Some (OsPath.join3 assets_dir (netloc u)
              (cap_last_component 8 resource_url (asset_path_uncapped u)))
  end.

(** The canonical form computed at link discovery:
    [urlunparse((p.scheme or base_scheme, p.netloc, p.path or "/", '',
    p.query, ''))] *)
Definition normalized_of (base_scheme : string) (p : ParseResult) : string :=
  urlunparse (or_else (scheme p) base_scheme) (netloc p)
             (or_else (path p) "/") "" (query p) "".

(** [parsed.geturl()] *)
Definition geturl (p : ParseResult) : string :=
  urlunparse (scheme p) (netloc p) (path p) (params p) (query p) (fragment p).

(** The text of a page document: what the [f.write] calls at the end of
    the page's iteration put into the file, in order.  [title_text] is the
    title found in the page (or the URL), [crawled_at] the time stamp and
    [markdown_text] the result of [md(str(body))]. *)
Definition line_end : string := String Re.newline EmptyString.

Definition page_document (include_frontmatter : bool)
  (title_text url crawled_at markdown_text : string) : string :=
  (if include_frontmatter
   then "---" +:+ line_end
        +:+ "title: " +:+ Json.dumps title_text +:+ line_end
        +:+ "url: " +:+ Json.dumps url +:+ line_end
        +:+ "crawled_at: " +:+ Json.dumps crawled_at +:+ line_end
        +:+ "---" +:+ line_end +:+ line_end
   else "<!-- Source: " +:+ url +:+ " -->" +:+ line_end +:+ line_end
        +:+ "# " +:+ title_text +:+ line_end +:+ line_end)
  +:+ markdown_text.

(** ** The crawl: configuration, environment and state *)

(** The parameters of [crawl_site_to_markdown].  [delay], [jitter] and
    [include_frontmatter] only influence [time.sleep] and the text written
    to a page document, neither of which is part of the crawl state (the
    text is [page_document]); the file named by [checkpoint_file] is the
    component [checkpoint] of the state, whatever its path. *)
Record Config := mkConfig {
  start_url : string;
  output_dir : string;
  max_pages : Z;
  respect_robots : bool;
  user_agent : string;
  resume : bool;
  save_every : Z
}.

(** What the program reads of a parsed response ([BeautifulSoup(resp.text)]):
    the text of the first [<title>], the [src] of every [<img src=..>] and
    the [href] of every [<a href=..>], in document order. *)
Record Page := mkPage {
  title : option string;
  imgs : list string;
  anchors : list string
}.

(** The checkpoint document ([json.load] of the checkpoint file): a JSON
    object whose keys may be absent.  Sets and dictionaries are stored as
    JSON does, as lists.  Documents whose values have other JSON types are
    not modelled. *)
Record Checkpoint := mkCheckpoint {
  ck_to_visit : option (list string);
  ck_visited : option (list string);
  ck_discovered_titles : option (list (string * string));
  ck_last_saved : option string
}.

(** The checkpoint file: missing, present but rejected by [json.load], or
    holding a document. *)
Inductive CheckpointFile :=
| Absent
| Unreadable
| Stored (doc : Checkpoint).

(** The environment of a run.  Every answer may depend on the time, counted
    in loop iterations (0 is the start-up).
    - [robots_read]: [RobotFileParser.read()]; [None] when it raises,
      otherwise the resulting [can_fetch(user_agent, url)];
    - [http_get]: [session.get(url)] followed by [raise_for_status()];
      [None] when either raises;
    - [makedirs_ok], [open_ok]: whether [os.makedirs(path, exist_ok=True)]
      and [open(path, "w")] (with the writes that follow) succeed;
    - [relpath]: [os.path.relpath(path, start=output_dir)];
    - [checkpoint_write_ok]: whether [_save_state] writes the whole
      checkpoint document;
    - [checkpoint_open_ok]: when it does not, whether
      [open(checkpoint_file, 'w')] had succeeded, which creates the file or
      empties it, before the failure;
    - [sigint]: whether SIGINT is delivered during that iteration;
    - [utcnow]: [datetime.utcnow().isoformat() + 'Z']. *)
Record World := mkWorld {
  robots_read : option (string → string → bool);
  http_get : nat → string → option Page;
  makedirs_ok : nat → string → bool;
  open_ok : nat → string → bool;
  relpath : string → string;
  checkpoint_write_ok : nat → bool;
  checkpoint_open_ok : nat → bool;
  sigint : nat → bool;
  utcnow : nat → string
}.

(** What a run does to the outside, in order. *)
Inductive Event :=
| EvRobotsSkip (url : string)
| EvGetPage (url : string) (ok : bool)
| EvGetAsset (url : string) (ok : bool)
| EvWriteAsset (local_path : string)
| EvWritePage (full_path : string)
| EvWriteIndex (rows : list (string * string * string))
| EvSaveState (doc : Checkpoint)
| EvSaveFailed.

(** The local variables of [crawl_site_to_markdown] that live across loop
    iterations, the checkpoint file, the clock and the events so far. *)
Record State := mkState {
  to_visit : list string;
  visited : gset string;
  discovered_titles : gmap string string;
  shutdown_flag : bool;
  pages_done : Z;
  checkpoint : CheckpointFile;
  tick : nat;
  trace : list Event
}.

Definition log (evs : list Event) (s : State) : State :=
  mkState (to_visit s) (visited s) (discovered_titles s) (shutdown_flag s)
          (pages_done s) (checkpoint s) (tick s) (trace s ++ evs).

(** ** Effects inside one iteration

    A computation that emits events and either returns a value or lets an
    exception escape ([None]). *)
Definition IO (A : Type) : Type := list Event * option A.

#[export] Instance IO_ret : MRet IO := λ A a, ([], Some a).
#[export] Instance IO_bind : MBind IO := λ A B k c,
  match c with
  | (evs, None) => (evs, None)
  | (evs, Some a) => let '(evs', r) := k a in (evs ++ evs', r)
  end.

Definition ret {A} (a : A) : IO A := mret a.
Definition raise {A} : IO A := ([], None).
Definition emit (e : Event) : IO unit := ([e], Some tt).

(** [for x in l: acc = f(acc, x)] *)
Fixpoint for_each {A B} (f : A → B → IO A) (acc : A) (l : list B) : IO A :=
  match l with
  | [] => ret acc
  | x :: l' => acc' ← f acc x; for_each f acc' l'
  end.

(** [os.makedirs(path, exist_ok=True)] outside any [try] *)
Definition makedirs (w : World) (t : nat) (p : string) : IO unit :=
  if makedirs_ok w t p then ret tt else raise.

Section Iteration.
Context (cfg : Config) (w : World).

(** [assets_dir = os.path.join(output_dir, "assets")] *)
Definition assets_dir : string := OsPath.join (output_dir cfg) "assets".

(** [robots_parser]: [None] when robots are not respected or the policy
    could not be read. *)
Definition robots_parser : option (string → string → bool) :=
  if respect_robots cfg then robots_read w else None.

(** [robots_parser and not robots_parser.can_fetch(user_agent, url)] *)
Definition robots_denies (url : string) : bool :=
  match robots_parser with
  | Some can_fetch => negb (can_fetch (user_agent cfg) url)
  | None => false
  end.

(** [_download_asset(session, asset_url)] in the iteration of page [url]
    at time [t]: the relative path to put in the document, or [None]. *)
Definition _download_asset (t : nat) (url asset_url : string)
  : IO (option string) :=
  match urljoin url asset_url with
  | None => ret None
  | Some abs_url =>
      if startswith "data:" abs_url then ret None
      else
        match http_get w t abs_url with
        | None => emit (EvGetAsset abs_url false) ;; ret None
        | Some _ =>
            emit (EvGetAsset abs_url true) ;;
            match _safe_asset_path assets_dir url abs_url with
            | None => raise
            | Some local_path =>
                makedirs w t (OsPath.dirname local_path) ;;
                if open_ok w t local_path
                then emit (EvWriteAsset local_path) ;;
                     ret (Some (relpath w local_path))
                else ret None
            end
        end
  end.

(** The body of the two asset loops for one tag: the attribute value after
    the iteration.  [is_img] tells the [<img src>] loop, which also lets
    [data:] references through to [_download_asset], from the [<a href>]
    loop. *)
Definition download_ref (is_img : bool) (t : nat) (url ref : string)
  : IO string :=
  if is_empty ref then ret ref
  else if _is_asset_link ref || (is_img && startswith "data:" ref)
  then rel ← _download_asset t url ref;
       match rel with
       | Some r => if is_empty r then ret ref else ret r
       | None => ret ref
       end
  else ret ref.

Definition download_refs (is_img : bool) (t : nat) (url : string)
  (refs : list string) : IO (list string) :=
  for_each (λ done ref, r ← download_ref is_img t url ref; ret (done ++ [r]))
           [] refs.

(** Writing the page document. *)
Definition write_page (t : nat) (url : string) : IO unit :=
  match _safe_filename_from_url (start_url cfg) url with
  | None => raise
  | Some target_path =>
      let full_path := OsPath.join (output_dir cfg) target_path in
      makedirs w t (OsPath.dirname full_path) ;;
      if open_ok w t full_path then emit (EvWritePage full_path) else raise
  end.

(** The body of the link loop for one [<a href>]: the frontier after it;
    [None] when [urljoin] or [urlparse] raises. *)
Definition consider_link (base_netloc base_scheme url : string)
  (seen : gset string) (frontier : list string) (href : string)
  : option (list string) :=
  if negb (_is_valid_href (Some href)) then Some frontier
  else
    match urljoin url href with
    | None => None
    | Some new_url =>
        match urlparse new_url with
        | None => None
        | Some parsed_new =>
            if negb (String.eqb (netloc parsed_new) base_netloc)
            then Some frontier
            else
              let normalized_for_check := normalized_of base_scheme parsed_new in
              if robots_denies normalized_for_check then Some frontier
              else if ASSET_EXTENSIONS
                        (or_else (path parsed_new) (geturl parsed_new))
              then Some frontier
              else
                let normalized := normalized_of base_scheme parsed_new in
                if bool_decide (normalized ∈ seen)
                   || bool_decide (normalized ∈ frontier)
                then Some frontier
                else Some (frontier ++ [normalized])
        end
    end.

Fixpoint discover_links (base_netloc base_scheme url : string)
  (seen : gset string) (frontier : list string) (hrefs : list string)
  : option (list string) :=
  match hrefs with
  | [] => Some frontier
  | href :: rest =>
      match consider_link base_netloc base_scheme url seen frontier href with
      | None => None
      | Some frontier' =>
          discover_links base_netloc base_scheme url seen frontier' rest
      end
  end.

End Iteration.

(** ** The main loop and the run *)

Section Run.
Context (cfg : Config) (w : World).

(** The document [_save_state] builds. *)
Definition checkpoint_of (s : State) (now : string) : Checkpoint :=
  mkCheckpoint (Some (to_visit s)) (Some (elements (visited s)))
               (Some (map_to_list (discovered_titles s))) (Some now).

(** [_save_state()]: a failure is caught.  When [open] itself fails the
    file is left as it was; when the failure comes after [open], the file
    exists and holds no document. *)
Definition _save_state (s : State) : State :=
  if checkpoint_write_ok w (tick s)
  then
    let doc := checkpoint_of s (utcnow w (tick s)) in
    mkState (to_visit s) (visited s) (discovered_titles s) (shutdown_flag s)
            (pages_done s) (Stored doc) (tick s) (trace s ++ [EvSaveState doc])
  else if checkpoint_open_ok w (tick s)
  then mkState (to_visit s) (visited s) (discovered_titles s) (shutdown_flag s)
               (pages_done s) Unreadable (tick s) (trace s ++ [EvSaveFailed])
  else log [EvSaveFailed] s.

(** [to_visit and len(visited) < max_pages and not shutdown['flag']] *)
Definition loop_cond (s : State) : bool :=
  negb (bool_decide (to_visit s = []))
  && (Z.of_nat (size (visited s)) <? max_pages cfg)%Z
  && negb (shutdown_flag s).

(** The state after an iteration that ends at [continue] or at the bottom
    of the loop body: the clock has advanced to [t], and a SIGINT delivered
    during the iteration has set the flag. *)
Definition end_iteration (t : nat) (frontier : list string)
  (seen : gset string) (titles : gmap string string) (done : Z)
  (evs : list Event) (s : State) : State :=
  mkState frontier seen titles (shutdown_flag s || sigint w t) done
          (checkpoint s) t (trace s ++ evs).

(** The part of the loop body between the fetch and the link loop: the
    two asset loops, then the page document.  It returns the [href]s of the
    page as the asset loop left them. *)
Definition page_body (t : nat) (url : string) (page : Page)
  : IO (list string) :=
  _ ← download_refs cfg w true t url (imgs page);
  hrefs ← download_refs cfg w false t url (anchors page);
  write_page cfg w t url;;
  mret hrefs.

Inductive StepResult :=
| Next (s : State)       (* the loop condition is evaluated again *)
| Raised (s : State).    (* an exception leaves the loop *)

(** One iteration of the [while] loop, entered with the loop condition
    true.  [parsed] is [urlparse(start_url)]. *)
Definition step (parsed : ParseResult) (s : State) : StepResult :=
  let t := S (tick s) in
  match to_visit s with
  | [] => Raised s
  | url :: rest =>
      if bool_decide (url ∈ visited s)
      then Next (end_iteration t rest (visited s) (discovered_titles s)
                               (pages_done s) [] s)
      else if robots_denies cfg w url
      then Next (end_iteration t rest ({[url]} ∪ visited s)
                               (discovered_titles s) (pages_done s)
                               [EvRobotsSkip url] s)
      else
        match http_get w t url with
        | None =>
            Next (end_iteration t rest ({[url]} ∪ visited s)
                                (discovered_titles s) (pages_done s)
                                [EvGetPage url false] s)
        | Some page =>
            let seen := {[url]} ∪ visited s in
            let title_text := default url (title page) in
            let titles := <[url := title_text]> (discovered_titles s) in
            match page_body t url page with
            | (evs, None) =>
                Raised (end_iteration t rest seen titles (pages_done s)
                                      (EvGetPage url true :: evs) s)
            | (evs, Some hrefs) =>
                match discover_links cfg w (netloc parsed) (scheme parsed)
                                     url seen rest hrefs with
                | None =>
                    Raised (end_iteration t rest seen titles (pages_done s)
                                          (EvGetPage url true :: evs) s)
                | Some frontier =>
                    let done := (pages_done s + 1)%Z in
                    let s' := end_iteration t frontier seen titles done
                                            (EvGetPage url true :: evs) s in
                    if (save_every cfg =? 0)%Z then Raised s'
                    else if (done mod save_every cfg =? 0)%Z
                    then Next (_save_state s')
                    else Next s'
                end
            end
        end
  end.

(** How [crawl_site_to_markdown] ends: it returns, or an exception
    escapes. *)
Inductive Exit :=
| Returned (s : State)
| Failed (s : State).

(** The [while] loop.  [None] means that [fuel] iterations did not
    suffice. *)
Fixpoint crawl_loop (fuel : nat) (parsed : ParseResult) (s : State)
  : option Exit :=
  if loop_cond s then
    match fuel with
    | O => None
    | S fuel' =>
        match step parsed s with
        | Next s' => crawl_loop fuel' parsed s'
        | Raised s' => Some (Failed s')
        end
    end
  else Some (Returned s).

(** [discovered_titles.update(d)] for the pairs of a JSON object, in
    order. *)
Definition dict_update (m : gmap string string) (d : list (string * string))
  : gmap string string :=
  foldl (λ acc kv, <[kv.1 := kv.2]> acc) m d.

(** The state in which the loop is entered: the fresh structures, replaced
    by those of the checkpoint when [resume] is set and the file can be
    read. *)
Definition init_state (ck : CheckpointFile) : State :=
  let fresh := mkState [start_url cfg] ∅ ∅ (sigint w 0) 0 ck 0 [] in
  if resume cfg then
    match ck with
    | Stored doc =>
        mkState (default [start_url cfg] (ck_to_visit doc))
                (list_to_set (default [] (ck_visited doc)))
                (dict_update ∅ (default [] (ck_discovered_titles doc)))
                (sigint w 0) 0 ck 0 []
    | _ => fresh
    end
  else fresh.

(** Writing [index.md]: one row per URL of the title index, sorted. *)
Definition index_rows (s : State) : option (list (string * string * string)) :=
  mapM (λ url,
          file_path ← _safe_filename_from_url (start_url cfg) url;
          Some (default EmptyString (discovered_titles s !! url), url, file_path))
       (merge_sort String.le (elements (dom (discovered_titles s)))).

Definition write_index (s : State) : StepResult :=
  if open_ok w (tick s) (OsPath.join (output_dir cfg) "index.md")
  then match index_rows s with
       | Some rows => Next (log [EvWriteIndex rows] s)
       | None => Raised s
       end
  else Raised s.

(** [if os.path.exists(checkpoint_file): _save_state()] *)
Definition final_save (s : State) : State :=
  match checkpoint s with
  | Absent => s
  | _ => _save_state s
  end.

(** Everything after the loop. *)
Definition finish (s : State) : Exit :=
  match write_index s with
  | Next s' => Returned (final_save s')
  | Raised s' => Failed s'
  end.

(** [crawl_site_to_markdown(start_url, ...)] run against a checkpoint file
    [ck]. *)
Definition crawl_site_to_markdown (fuel : nat) (ck : CheckpointFile)
  : option Exit :=
  let blank := mkState [start_url cfg] ∅ ∅ false 0 ck 0 [] in
  match urlparse (start_url cfg) with
  | None => Some (Failed blank)
  | Some parsed =>
      if makedirs_ok w 0 (output_dir cfg) && makedirs_ok w 0 (assets_dir cfg)
      then
        match crawl_loop fuel parsed (init_state ck) with
        | None => None
        | Some (Returned s) => Some (finish s)
        | Some (Failed s) => Some (Failed s)
        end
      else Some (Failed blank)
  end.

End Run.

(** ** Observations on a run *)

Definition state_of (r : StepResult) : State :=
  match r with Next s | Raised s => s end.

Definition exit_state (e : Exit) : State :=
  match e with Returned s | Failed s => s end.

(** The URLs for which the main loop issued [session.get], in order. *)
Definition page_gets (tr : list Event) : list string :=
  omap (λ e, match e with EvGetPage u _ => Some u | _ => None end) tr.

Definition is_save_event (e : Event) : bool :=
  match e with EvSaveState _ | EvSaveFailed => true | _ => false end.

(** The canonical form of a URL as link discovery computes it in a crawl
    started at [seed]; [None] when [urlparse] raises on either. *)
Definition canonical (seed url : string) : option string :=
  base ← urlparse seed;
  p ← urlparse url;
  Some (normalized_of (scheme base) p).

(** The components of a relative path. *)
Definition components (p : string) : list string := split_on "/" p.

End Crawler.

(* ===================================================================== *)
(** * Concrete sites, environments and checkpoints *)
(* ===================================================================== *)

Module Scenario.
Import PyStr Crawler.

Definition home : string := "https://example.com/".

(** [urlparse(home)] *)
Definition home_parsed : UrlParse.ParseResult :=
  UrlParse.mkParseResult "https" "example.com" "/" "" "" "".

Definition allow_all : option (string → string → bool) := Some (λ _ _, true).

(** An environment in which every file operation succeeds and no signal
    arrives. *)
Definition calm (robots : option (string → string → bool))
  (site : string → option Page) : World :=
  mkWorld robots (λ _, site) (λ _ _, true) (λ _ _, true) (λ p, p)
          (λ _, true) (λ _, true) (λ _, false) (λ _, "2025-01-01T00:00:00Z").

(** The environment [w] with SIGINT delivered during iteration [n]. *)
Definition interrupted_at (n : nat) (w : World) : World :=
  mkWorld (robots_read w) (http_get w) (makedirs_ok w) (open_ok w) (relpath w)
          (checkpoint_write_ok w) (checkpoint_open_ok w) (λ t, Nat.eqb t n)
          (utcnow w).

(** The defaults of the command line, but for the seed, the page budget and
    [--resume]. *)
Definition plain (seed : string) (budget : Z) (resume : bool) : Config :=
  mkConfig seed "site_markdown" budget true "web-crawling-bot/1.0" resume 10.

Definition no_site : string → option Page := λ _, None.

(** A checkpoint left by a run with a larger page budget. *)
Definition three_visited : CheckpointFile :=
  Stored (mkCheckpoint (Some ["https://example.com/d"])
            (Some ["https://example.com/a"; "https://example.com/b";
                   "https://example.com/c"])
            (Some []) (Some "2025-01-01T00:00:00Z")).

(** A checkpoint with [/a.md] visited and the home page queued. *)
Definition a_visited : CheckpointFile :=
  Stored (mkCheckpoint (Some ["https://example.com/"])
            (Some ["https://example.com/a.md"])
            (Some [("https://example.com/a.md", "A")])
            (Some "2025-01-01T00:00:00Z")).

(** A small site: the home page links to [/about], to another host, to a
    stylesheet with a version query and to a PDF, and shows a logo; the
    about page links back home and to a private page. *)
Definition small_site (u : string) : option Page :=
  if String.eqb u "https://example.com/"
  then Some (mkPage (Some "Home") ["/logo.png"]
               ["/about"; "https://other.com/x"; "/style.css?v=2"; "/doc.pdf";
                "#top"])
  else if String.eqb u "https://example.com/about"
  then Some (mkPage None [] ["/"; "/private/x"])
  else if String.eqb u "https://example.com/logo.png" then Some (mkPage None [] [])
  else if String.eqb u "https://example.com/doc.pdf" then Some (mkPage None [] [])
  else None.

(** [Disallow: /private] *)
Definition no_private : option (string → string → bool) :=
  Some (λ _ u, negb (startswith "https://example.com/private" u)).

(** The home page links to [/a.md], [/a.md/b] and [/c]; each of them is an
    empty page. *)
Definition nested_site (u : string) : option Page :=
  if String.eqb u "https://example.com/"
  then Some (mkPage (Some "Home") [] ["/a.md"; "/a.md/b"; "/c"])
  else if String.eqb u "https://example.com/a.md" then Some (mkPage None [] [])
  else if String.eqb u "https://example.com/a.md/b" then Some (mkPage None [] [])
  else if String.eqb u "https://example.com/c" then Some (mkPage None [] [])
  else None.

(** The page of [/a.md] is written to the regular file
    [site_markdown/a.md]; creating a directory of that name for the page
    of [/a.md/b] then fails with [FileExistsError]. *)
Definition file_in_the_way : World :=
  mkWorld allow_all (λ _, nested_site)
          (λ _ p, negb (String.eqb p "site_markdown/a.md")) (λ _ _, true)
          (λ p, p) (λ _, true) (λ _, true) (λ _, false)
          (λ _, "2025-01-01T00:00:00Z").

(** A seed without its trailing slash, whose page links to ["/"]. *)
Definition bare_seed_site (u : string) : option Page :=
  if String.eqb u "https://example.com" then Some (mkPage None [] ["/"])
  else if String.eqb u "https://example.com/" then Some (mkPage None [] [])
  else None.

(** The home page shows an image kept on another host, under a path that
    the robots policy of this environment denies: only the home page itself
    may be fetched. *)
Definition logo_url : string := "https://cdn.other.com/secret/logo.png".

Definition cdn_site (u : string) : option Page :=
  if String.eqb u home then Some (mkPage (Some "Home") [logo_url] [])
  else if String.eqb u logo_url then Some (mkPage None [] [])
  else None.

Definition home_only : option (string → string → bool) :=
  Some (λ _ u, String.eqb u home).

(** A crawl state in the middle of a run. *)
Definition midway : State :=
  mkState ["https://example.com/about"; "https://example.com/contact"]
          {["https://example.com/"]}
          {["https://example.com/" := "Home"]}
          false 1 Absent 1
          [EvGetPage "https://example.com/" true;
           EvWritePage "site_markdown/index.md"].

(** The state in which only a private page is queued. *)
Definition private_queued : State :=
  mkState ["https://example.com/private/x"] ∅ ∅ false 0 Absent 0 [].

(** A page URL with a directory of 201 characters, and two page URLs
    whose SHA-1 digests start with the same ten hexadecimal digits. *)
Definition long_dir_url : string :=
  "https://example.com/" +:+ repeat_char "a" 201 +:+ "/x".
Definition twin_url_1 : string :=
  "https://example.com/" +:+ repeat_char "a" 200 +:+ "d9e76".
Definition twin_url_2 : string :=
  "https://example.com/" +:+ repeat_char "a" 200 +:+ "1e57eb".

(** The URL whose path is the page path derived from [twin_url_1], less
    its extension. *)
Definition spelled_out_url : string :=
  "https://example.com/" +:+ repeat_char "a" 184 +:+ "__937d96be4a".

End Scenario.

(* ===================================================================== *)
(** * Vocabulary of the proofs *)
(* ===================================================================== *)

Import PyStr UrlParse Crawler.

(** A computation that issues no page fetch of the main loop. *)
Definition quiet {A} (c : IO A) : Prop := page_gets c.1 = [].

(** [s] has no character of the class [P]. *)
Definition free_of (P : ascii → bool) (s : string) : Prop :=
  str_all (λ a, negb (P a)) s = true.

(** What [urlsplit] returns as a scheme: nothing, or a lower-case scheme
    name that starts with a letter. *)
Definition scheme_ok (x : string) : Prop :=
  match x with
  | EmptyString => True
  | String a0 _ =>
      is_ascii_alpha a0 = true ∧ str_all is_scheme_char x = true ∧ lower x = x
  end.

(** The shape of the components [urlsplit] returns. *)
Record split_ok (n p q : string) : Prop := mkSplitOk {
  netloc_free : free_of is_netloc_delim n;
  netloc_safe : free_of is_unsafe n;
  netloc_brackets : xorb (has_char "[" n) (has_char "]" n) = false;
  path_no_hash : free_of is_hash p;
  path_no_qmark : free_of is_qmark p;
  path_safe : free_of is_unsafe p;
  path_rooted : n ≠ EmptyString → p = EmptyString ∨ startswith "/" p = true;
  query_no_hash : free_of is_hash q;
  query_safe : free_of is_unsafe q
}.


(** The text [urlunparse] produces for a URL with a network location and a
    rooted path, without parameters and fragment. *)
Definition canonical_text (sch nl pth qry : string) : string :=
  (if is_empty sch then EmptyString else sch +:+ ":")
  +:+ "//" +:+ nl +:+ pth +:+ (if is_empty qry then EmptyString else String "?" qry).

(** The events of the two asset loops. *)
Definition is_asset_event (e : Event) : bool :=
  match e with EvGetAsset _ _ | EvWriteAsset _ => true | _ => false end.

Definition is_page_write (e : Event) : bool :=
  match e with EvWritePage _ => true | _ => false end.

(** A computation all of whose events satisfy [P]. *)
Definition only {A} (P : Event → bool) (c : IO A) : Prop := forallb P c.1 = true.

(** [u] is what the link loop of the page [url] makes of one of [hrefs]:
    the canonical form of a valid link to the crawled host that the robots
    policy allows. *)
Definition link_target (cfg : Config) (w : World)
  (base_netloc base_scheme url : string) (hrefs : list string) (u : string)
  : Prop :=
  ∃ href new_url p,
    href ∈ hrefs ∧ _is_valid_href (Some href) = true
    ∧ urljoin url href = Some new_url ∧ urlparse new_url = Some p
    ∧ netloc p = base_netloc ∧ u = normalized_of base_scheme p
    ∧ robots_denies cfg w u = false.

(** The state at the end of an iteration that fetched the page [page] of
    [url]. *)
Definition after_fetch (w : World) (s : State) (url : string) (page : Page)
  (evs : list Event) (frontier : list string) (done : Z) : State :=
  end_iteration w (S (tick s)) frontier ({[url]} ∪ visited s)
    (<[url := default url (title page)]> (discovered_titles s)) done
    (EvGetPage url true :: evs) s.

(** The ways through one iteration of the loop that dequeues [url] and
    leaves [rest], with their results. *)
Inductive Iteration (cfg : Config) (w : World) (parsed : ParseResult)
  (s : State) (url : string) (rest : list string) : StepResult → Prop :=
| It_seen :
    url ∈ visited s →
    Iteration cfg w parsed s url rest
      (Next (end_iteration w (S (tick s)) rest (visited s) (discovered_titles s)
               (pages_done s) [] s))
| It_denied :
    url ∉ visited s → robots_denies cfg w url = true →
    Iteration cfg w parsed s url rest
      (Next (end_iteration w (S (tick s)) rest ({[url]} ∪ visited s)
               (discovered_titles s) (pages_done s) [EvRobotsSkip url] s))
| It_unreachable :
    url ∉ visited s → robots_denies cfg w url = false →
    http_get w (S (tick s)) url = None →
    Iteration cfg w parsed s url rest
      (Next (end_iteration w (S (tick s)) rest ({[url]} ∪ visited s)
               (discovered_titles s) (pages_done s) [EvGetPage url false] s))
| It_body_raised page evs :
    url ∉ visited s → robots_denies cfg w url = false →
    http_get w (S (tick s)) url = Some page →
    page_body cfg w (S (tick s)) url page = (evs, None) →
    Iteration cfg w parsed s url rest
      (Raised (after_fetch w s url page evs rest (pages_done s)))
| It_links_raised page evs hrefs :
    url ∉ visited s → robots_denies cfg w url = false →
    http_get w (S (tick s)) url = Some page →
    page_body cfg w (S (tick s)) url page = (evs, Some hrefs) →
    discover_links cfg w (netloc parsed) (scheme parsed) url
      ({[url]} ∪ visited s) rest hrefs = None →
    Iteration cfg w parsed s url rest
      (Raised (after_fetch w s url page evs rest (pages_done s)))
| It_zero_division page evs hrefs frontier :
    url ∉ visited s → robots_denies cfg w url = false →
    http_get w (S (tick s)) url = Some page →
    page_body cfg w (S (tick s)) url page = (evs, Some hrefs) →
    discover_links cfg w (netloc parsed) (scheme parsed) url
      ({[url]} ∪ visited s) rest hrefs = Some frontier →
    save_every cfg = 0%Z →
    Iteration cfg w parsed s url rest
      (Raised (after_fetch w s url page evs frontier (pages_done s + 1)))
| It_saved page evs hrefs frontier :
    url ∉ visited s → robots_denies cfg w url = false →
    http_get w (S (tick s)) url = Some page →
    page_body cfg w (S (tick s)) url page = (evs, Some hrefs) →
    discover_links cfg w (netloc parsed) (scheme parsed) url
      ({[url]} ∪ visited s) rest hrefs = Some frontier →
    save_every cfg ≠ 0%Z →
    ((pages_done s + 1) mod save_every cfg = 0)%Z →
    Iteration cfg w parsed s url rest
      (Next (_save_state w
               (after_fetch w s url page evs frontier (pages_done s + 1))))
| It_done page evs hrefs frontier :
    url ∉ visited s → robots_denies cfg w url = false →
    http_get w (S (tick s)) url = Some page →
    page_body cfg w (S (tick s)) url page = (evs, Some hrefs) →
    discover_links cfg w (netloc parsed) (scheme parsed) url
      ({[url]} ∪ visited s) rest hrefs = Some frontier →
    save_every cfg ≠ 0%Z →
    ((pages_done s + 1) mod save_every cfg ≠ 0)%Z →
    Iteration cfg w parsed s url rest
      (Next (after_fetch w s url page evs frontier (pages_done s + 1))).

(** The environment [w] with other answers to whether the checkpoint file
    can be written and opened. *)
Definition with_checkpoint_write (f g : nat → bool) (w : World) : World :=
  mkWorld (robots_read w) (http_get w) (makedirs_ok w) (open_ok w) (relpath w)
          f g (sigint w) (utcnow w).


(** The events of a trace other than the checkpoint saves. *)
Definition crawl_events (tr : list Event) : list Event :=
  List.filter (λ e, negb (is_save_event e)) tr.

(** The number of events of a kind in a trace. *)
Definition count_events (P : Event → bool) (tr : list Event) : nat :=
  length (List.filter P tr).

(** The URLs the main loop skipped on account of the robots policy. *)
Definition robots_skips (tr : list Event) : list string :=
  omap (λ e, match e with EvRobotsSkip u => Some u | _ => None end) tr.

(** The URLs of the rows of an index. *)
Definition row_urls (rows : list (string * string * string)) : list string :=
  List.map (λ r, r.1.2) rows.

Definition is_index_or_save (e : Event) : bool :=
  match e with EvWriteIndex _ | EvSaveState _ | EvSaveFailed => true | _ => false end.

(** [u] is the seed, or a URL of the host [host] in the form the link loop
    enqueues: rooted path, no parameters, no fragment. *)
Definition on_host (seed host u : string) : Prop :=
  u = seed
  ∨ ∃ sch pth qry,
      urlparse u = Some (mkParseResult sch host pth "" qry "")
      ∧ startswith "/" pth = true.

(** The URLs whose page the main loop fetched successfully. *)
Definition fetched_pages (tr : list Event) : list string :=
  omap (λ e, match e with EvGetPage u true => Some u | _ => None end) tr.

(** Two states that differ at most in the checkpoint file and in the
    checkpoint saves recorded in the trace. *)
Definition same_crawl (s1 s2 : State) : Prop :=
  to_visit s1 = to_visit s2 ∧ visited s1 = visited s2
  ∧ discovered_titles s1 = discovered_titles s2
  ∧ shutdown_flag s1 = shutdown_flag s2 ∧ pages_done s1 = pages_done s2
  ∧ tick s1 = tick s2
  ∧ crawl_events (trace s1) = crawl_events (trace s2).

Definition same_result (r1 r2 : StepResult) : Prop :=
  match r1, r2 with
  | Next s1, Next s2 | Raised s1, Raised s2 => same_crawl s1 s2
  | _, _ => False
  end.

Definition same_exit (e1 e2 : option Exit) : Prop :=
  match e1, e2 with
  | Some (Returned s1), Some (Returned s2)
  | Some (Failed s1), Some (Failed s2) => same_crawl s1 s2
  | None, None => True
  | _, _ => False
  end.

(** A lower-case hexadecimal digit. *)
Definition is_hex (a : ascii) : bool := is_digit a || in_range 97 102 a.

(* ===================================================================== *)
(** * Properties *)
(* ===================================================================== *)

(** ** Strings *)

Section StrFacts.
Implicit Types (s t : string) (a c : ascii) (P Q : ascii → bool).

Lemma app_nil_r_str s : s +:+ "" = s.
Proof. induction s; simpl; congruence. Qed.

Lemma app_assoc_str s t u : (s +:+ t) +:+ u = s +:+ t +:+ u.
Proof. induction s; simpl; congruence. Qed.

Lemma length_app_str s t :
  String.length (s +:+ t) = (String.length s + String.length t)%nat.
Proof. induction s; simpl; congruence. Qed.

Lemma str_all_app P s t : str_all P (s +:+ t) = str_all P s && str_all P t.
Proof. induction s as [|a s IH]; simpl; [done|]. by rewrite IH, andb_assoc. Qed.

Lemma str_all_impl P Q s :
  (∀ a, P a = true → Q a = true) → str_all P s = true → str_all Q s = true.
Proof.
  intros HPQ. induction s as [|a s IH]; simpl; [done|].
  intros [Ha Hs]%andb_true_iff. rewrite (HPQ a Ha). auto.
Qed.

(** [span] *)
Lemma span_eq P s : (span P s).1 +:+ (span P s).2 = s.
Proof.
  induction s as [|a s IH]; simpl; [done|].
  destruct (P a); simpl; [done|]. destruct (span P s); simpl in *. congruence.
Qed.

Lemma span_fst_free P s : str_all (λ a, negb (P a)) (span P s).1 = true.
Proof.
  induction s as [|a s IH]; simpl; [done|].
  destruct (P a) eqn:Ha; simpl; [done|]. destruct (span P s); simpl in *.
  by rewrite Ha.
Qed.

Lemma span_snd_head P s a t : (span P s).2 = String a t → P a = true.
Proof.
  induction s as [|b s IH]; simpl; [done|].
  destruct (P b) eqn:Hb; simpl; [by intros [= <- _]|].
  destruct (span P s); simpl in *. done.
Qed.

Lemma span_hit P s c t :
  str_all (λ a, negb (P a)) s = true → P c = true →
  span P (s +:+ String c t) = (s, String c t).
Proof.
  intros Hs Hc. induction s as [|a s IH]; simpl in *; [by rewrite Hc|].
  apply andb_true_iff in Hs as [Ha Hs]. apply negb_true_iff in Ha. rewrite Ha.
  by rewrite IH.
Qed.

Lemma span_miss P s : str_all (λ a, negb (P a)) s = true → span P s = (s, "").
Proof.
  intros Hs. induction s as [|a s IH]; simpl in *; [done|].
  apply andb_true_iff in Hs as [Ha Hs]. apply negb_true_iff in Ha. rewrite Ha.
  by rewrite IH.
Qed.

Lemma span_all Q P s :
  str_all Q s = true →
  str_all Q (span P s).1 = true ∧ str_all Q (span P s).2 = true.
Proof.
  intros Hs. rewrite <- (span_eq P s), str_all_app in Hs.
  by apply andb_true_iff in Hs.
Qed.

Lemma has_char_false c s :
  has_char c s = false ↔ str_all (λ a, negb (Ascii.eqb a c)) s = true.
Proof. unfold has_char. by rewrite negb_false_iff. Qed.

Lemma has_char_app c s t : has_char c (s +:+ t) = has_char c s || has_char c t.
Proof. unfold has_char. by rewrite str_all_app, negb_andb. Qed.

(** [lstrip], [remove_chars], [str_drop], [str_take] *)
Lemma lstrip_all Q P s : str_all Q s = true → str_all Q (lstrip P s) = true.
Proof.
  induction s as [|a s IH]; simpl; [done|].
  intros [Ha Hs]%andb_true_iff. destruct (P a); [auto|]. simpl. by rewrite Ha, Hs.
Qed.

Lemma remove_chars_free P s : str_all (λ a, negb (P a)) (remove_chars P s) = true.
Proof.
  induction s as [|a s IH]; simpl; [done|].
  destruct (P a) eqn:Ha; simpl; [done|]. by rewrite Ha.
Qed.

Lemma remove_chars_id P s :
  str_all (λ a, negb (P a)) s = true → remove_chars P s = s.
Proof.
  induction s as [|a s IH]; simpl; [done|].
  intros [Ha Hs]%andb_true_iff. apply negb_true_iff in Ha. rewrite Ha.
  by rewrite IH.
Qed.

Lemma str_drop_all Q n s : str_all Q s = true → str_all Q (str_drop n s) = true.
Proof.
  revert s. induction n as [|n IH]; intros [|a s]; simpl; try done.
  intros [_ Hs]%andb_true_iff. auto.
Qed.

Lemma str_take_all Q n s : str_all Q s = true → str_all Q (str_take n s) = true.
Proof.
  revert s. induction n as [|n IH]; intros [|a s]; simpl; try done.
  intros [Ha Hs]%andb_true_iff. rewrite Ha. simpl. auto.
Qed.

Lemma str_take_length n s : (String.length (str_take n s) ≤ n)%nat.
Proof.
  revert s. induction n as [|n IH]; intros [|a s]; simpl; try lia.
  specialize (IH s). lia.
Qed.

Lemma str_take_drop n s : str_take n s +:+ str_drop n s = s.
Proof.
  revert s. induction n as [|n IH]; intros [|a s]; simpl; try done.
  by rewrite IH.
Qed.

(** [rsplit_at] *)
Lemma rsplit_at_eq c s h t : rsplit_at c s = Some (h, t) → s = h +:+ t.
Proof.
  revert h t. induction s as [|a s IH]; simpl; [done|]. intros h t.
  destruct (rsplit_at c s) as [[h' t']|].
  - intros [= <- <-]. simpl. by rewrite <- (IH h' t').
  - destruct (Ascii.eqb a c); [|done]. by intros [= <- <-].
Qed.

Lemma rsplit_at_None c s : rsplit_at c s = None ↔ has_char c s = false.
Proof.
  unfold has_char. induction s as [|a s IH]; simpl; [done|].
  destruct (rsplit_at c s) as [[h t]|].
  - split; [done|]. rewrite negb_false_iff, andb_true_iff.
    intros [_ Hs]. rewrite <- negb_false_iff in Hs. by apply IH in Hs.
  - destruct (Ascii.eqb a c); simpl; [done|]. split; [|done].
    intros _. by apply IH.
Qed.

Lemma rsplit_at_tail_free c s h t :
  rsplit_at c s = Some (h, t) → has_char c t = false.
Proof.
  revert h t. induction s as [|a s IH]; simpl; [done|]. intros h t.
  destruct (rsplit_at c s) as [[h' t']|] eqn:Hs.
  - intros [= <- <-]. eauto.
  - destruct (Ascii.eqb a c); [|done]. intros [= <- <-]. by apply rsplit_at_None.
Qed.

Lemma rsplit_at_app c s t :
  rsplit_at c (s +:+ t)
  = match rsplit_at c t with
    | Some (h, t') => Some (s +:+ h, t')
    | None => match rsplit_at c s with
              | Some (h, t') => Some (h, t' +:+ t)
              | None => None
              end
    end.
Proof.
  induction s as [|a s IH]; simpl.
  - by destruct (rsplit_at c t) as [[h t']|].
  - rewrite IH. destruct (rsplit_at c t) as [[h t']|]; [done|].
    destruct (rsplit_at c s) as [[h t']|]; [done|].
    by destruct (Ascii.eqb a c).
Qed.

(** [endswith] *)
Lemma endswith_cons suf a s :
  endswith suf (String a s)
  = if String.eqb (String a s) suf then true else endswith suf s.
Proof. reflexivity. Qed.

Lemma endswith_inv suf s : endswith suf s = true → ∃ pre, s = pre +:+ suf.
Proof.
  induction s as [|a s IH].
  - destruct suf; [|done]. by exists "".
  - rewrite endswith_cons. destruct (String.eqb (String a s) suf) eqn:He.
    + apply String.eqb_eq in He as <-. by exists "".
    + intros [pre ->]%IH. by exists (String a pre).
Qed.

End StrFacts.

(** ** Characters *)

Section CharFacts.

Ltac by_cases a := destruct a as [[] [] [] [] [] [] [] []]; vm_compute; intuition congruence.

Lemma lower_char_idem a : lower_char (lower_char a) = lower_char a.
Proof. by_cases a. Qed.

Lemma lower_char_scheme a :
  is_scheme_char a = true → is_scheme_char (lower_char a) = true.
Proof. by_cases a. Qed.

Lemma lower_char_alpha a :
  is_ascii_alpha a = true → is_ascii_alpha (lower_char a) = true.
Proof. by_cases a. Qed.

Lemma scheme_char_plain a :
  is_scheme_char a = true →
  is_colon a = false ∧ is_unsafe a = false ∧ is_c0_or_space a = false
  ∧ is_hash a = false ∧ is_netloc_delim a = false.
Proof. by_cases a. Qed.

Lemma alpha_not_c0 a : is_ascii_alpha a = true → is_c0_or_space a = false.
Proof. by_cases a. Qed.

Lemma delim_cases a :
  is_netloc_delim a = true → is_hash a = false → is_qmark a = false →
  a = "/"%char.
Proof. by_cases a. Qed.

Lemma hash_is_delim a : is_hash a = true → is_netloc_delim a = true.
Proof. by_cases a. Qed.

End CharFacts.

(** ** Paths *)

Section PathFacts.
Implicit Types (p a b : string).

Lemma split_snd p :
  (OsPath.split p).2
  = match rsplit_at "/" p with Some (_, t) => t | None => p end.
Proof. unfold OsPath.split. by destruct (rsplit_at "/" p) as [[h t]|]. Qed.

Lemma split_snd_length p : (String.length (OsPath.split p).2 ≤ String.length p)%nat.
Proof.
  rewrite split_snd. destruct (rsplit_at "/" p) as [[h t]|] eqn:Hp; [|done].
  apply rsplit_at_eq in Hp as ->. rewrite length_app_str. lia.
Qed.

Lemma split_snd_free p : has_char "/" (OsPath.split p).2 = false.
Proof.
  rewrite split_snd. destruct (rsplit_at "/" p) as [[h t]|] eqn:Hp.
  - by apply rsplit_at_tail_free in Hp.
  - by apply rsplit_at_None.
Qed.

(** After a directory part that ends with a slash, the last component is
    that of what follows. *)
Lemma split_snd_after_sep a b :
  (OsPath.split ((a +:+ "/") +:+ b)).2 = (OsPath.split b).2.
Proof.
  rewrite !split_snd, rsplit_at_app.
  destruct (rsplit_at "/" b) as [[h t]|]; [done|].
  rewrite rsplit_at_app. by simpl.
Qed.

Lemma split_snd_join a b : (OsPath.split (OsPath.join a b)).2 = (OsPath.split b).2.
Proof.
  unfold OsPath.join. destruct (startswith "/" b); [done|].
  destruct (is_empty a) eqn:Ha; simpl.
  { destruct a; [done|discriminate]. }
  destruct (endswith "/" a) eqn:He.
  - apply endswith_inv in He as [pre ->]. apply split_snd_after_sep.
  - rewrite <- (split_snd_after_sep a b). f_equal. f_equal.
    by rewrite app_assoc_str.
Qed.

Lemma hexdigest_length url : String.length (Sha1.hexdigest url) = 40%nat.
Proof.
  unfold Sha1.hexdigest. by destruct (Sha1.digest url) as [[[[h0 h1] h2] h3] h4].
Qed.

Lemma hash_prefix_length url :
  String.length (str_take 10 (Sha1.hexdigest url)) = 10%nat.
Proof.
  unfold Sha1.hexdigest. by destruct (Sha1.digest url) as [[[[h0 h1] h2] h3] h4].
Qed.

Lemma truncate_component_length floor url last :
  (0 ≤ floor)%Z →
  (Z.of_nat (String.length (OsPath.splitext last).2) + floor + 12 ≤ 200)%Z →
  (String.length (truncate_component floor url last) ≤ 200)%nat.
Proof.
  intros Hf Hext. unfold truncate_component.
  destruct (OsPath.splitext last) as [name ext]. simpl in Hext.
  rewrite !length_app_str, hash_prefix_length. unfold max_component_len. simpl.
  match goal with |- context [str_take ?k name] =>
    pose proof (str_take_length k name) as Hk; revert Hk end.
  destruct (_ <? floor)%Z eqn:Hlt; [apply Z.ltb_lt in Hlt | apply Z.ltb_ge in Hlt]; lia.
Qed.

Lemma cap_last_component_length floor url p :
  (0 ≤ floor)%Z →
  ((200 < String.length (OsPath.split p).2)%nat →
   (Z.of_nat (String.length (OsPath.splitext (OsPath.split p).2).2) + floor + 12
    ≤ 200)%Z) →
  (String.length (OsPath.split (cap_last_component floor url p)).2 ≤ 200)%nat.
Proof.
  intros Hf Hext. unfold cap_last_component.
  destruct (OsPath.split p) as [dirpart last] eqn:Hp. simpl in Hext.
  unfold max_component_len.
  destruct (200 <? String.length last)%nat eqn:Hlen.
  - apply Nat.ltb_lt in Hlen. rewrite split_snd_join.
    etrans; [apply split_snd_length|]. apply truncate_component_length; auto.
  - apply Nat.ltb_ge in Hlen. by rewrite Hp.
Qed.

Lemma splitext_md z :
  has_char "/" z = false →
  (String.length (OsPath.splitext (z +:+ ".md")).2 ≤ 3)%nat.
Proof.
  intros Hz. unfold OsPath.splitext.
  assert (rsplit_at "/" (z +:+ ".md") = None) as ->.
  { apply rsplit_at_None. by rewrite has_char_app, Hz. }
  rewrite rsplit_at_app. simpl.
  destruct (str_all OsPath.is_dot _); simpl; lia.
Qed.

Lemma page_path_md u : ∃ y, page_path_uncapped u = y +:+ ".md".
Proof.
  unfold page_path_uncapped.
  match goal with |- context [endswith ".md" ?sp] =>
    destruct (endswith ".md" sp) eqn:He; [apply endswith_inv in He as [y ->]|]; eauto end.
Qed.

Lemma page_last_component_ext u :
  (String.length (OsPath.splitext (OsPath.split (page_path_uncapped u)).2).2 ≤ 3)%nat.
Proof.
  destruct (page_path_md u) as [y ->].
  assert ((OsPath.split (y +:+ ".md")).2 = (OsPath.split y).2 +:+ ".md") as ->.
  { rewrite !split_snd, rsplit_at_app. simpl.
    by destruct (rsplit_at "/" y) as [[h t]|]. }
  apply splitext_md, split_snd_free.
Qed.

End PathFacts.

(** ** URLs *)

Section SplitFacts.
Implicit Types (s t u : string) (a c : ascii) (P Q : ascii → bool).

Lemma free_of_app P s t : free_of P (s +:+ t) ↔ free_of P s ∧ free_of P t.
Proof. unfold free_of. by rewrite str_all_app, andb_true_iff. Qed.

Lemma span_fst_cons P a s :
  (span P (String a s)).1 = if P a then EmptyString else String a (span P s).1.
Proof. simpl. destruct (P a); [done|]. by destruct (span P s). Qed.

(** A character of the class, appended after [s], stops the scan where it
    stopped in [s], or at that character. *)
Lemma span_app_stop P s c t :
  P c = true →
  span P (s +:+ String c t) = ((span P s).1, (span P s).2 +:+ String c t).
Proof.
  intros Hc. induction s as [|a s IH]; simpl; [by rewrite Hc|].
  destruct (P a); [done|]. rewrite IH. by destruct (span P s).
Qed.

Lemma split_first_all Q P s :
  str_all Q s = true →
  str_all Q (split_first P s).1 = true ∧ str_all Q (split_first P s).2 = true.
Proof.
  intros Hs. destruct (span_all Q P s Hs) as [H1 H2]. unfold split_first.
  destruct (span P s) as [h [|a t]]; simpl in *; [done|].
  apply andb_true_iff in H2 as [_ H2]. done.
Qed.

Lemma split_first_fst P s : (split_first P s).1 = (span P s).1.
Proof. unfold split_first. by destruct (span P s) as [h [|a t]]. Qed.

Lemma split_first_hit P s c t :
  free_of P s → P c = true → split_first P (s +:+ String c t) = (s, t).
Proof. intros Hs Hc. unfold split_first. by rewrite span_hit. Qed.

Lemma split_first_miss P s : free_of P s → split_first P s = (s, EmptyString).
Proof. intros Hs. unfold split_first. by rewrite span_miss. Qed.

Lemma lower_scheme x :
  str_all is_scheme_char x = true → str_all is_scheme_char (lower x) = true.
Proof.
  unfold lower. induction x as [|a x IH]; simpl; [done|].
  intros [Ha Hx]%andb_true_iff. by rewrite lower_char_scheme, IH.
Qed.

Lemma lower_idem x : lower (lower x) = lower x.
Proof.
  unfold lower. induction x as [|a x IH]; simpl; [done|].
  by rewrite lower_char_idem, IH.
Qed.

Lemma split_scheme_ok d u sch rest :
  scheme_ok d → split_scheme d u = (sch, rest) →
  scheme_ok sch ∧ ∀ Q, str_all Q u = true → str_all Q rest = true.
Proof.
  intros Hd. unfold split_scheme.
  pose proof (span_eq is_colon u) as Heq.
  destruct (span is_colon u) as [[|a0 pre] [|c t]]; simpl in Heq;
    try (intros [= <- <-]; by split).
  destruct (is_ascii_alpha a0 && str_all is_scheme_char (String a0 pre)) eqn:Hc;
    [|intros [= <- <-]; by split].
  apply andb_true_iff in Hc as [Ha Hs]. intros [= <- <-]. split.
  - simpl. split; [by apply lower_char_alpha|]. split.
    + apply (lower_scheme (String a0 pre) Hs).
    + apply (lower_idem (String a0 pre)).
  - intros Q. rewrite <- Heq. simpl. rewrite str_all_app. simpl.
    rewrite !andb_true_iff. tauto.
Qed.

(** The components [urlsplit] returns. *)
Lemma urlsplit_ok u sch n p q f :
  urlsplit u EmptyString = Some (sch, n, p, q, f) →
  scheme_ok sch ∧ split_ok n p q.
Proof.
  unfold urlsplit.
  change (remove_chars is_unsafe (rstrip is_c0_or_space (lstrip is_c0_or_space "")))
    with EmptyString.
  set (u0 := remove_chars is_unsafe (lstrip is_c0_or_space u)).
  assert (free_of is_unsafe u0) as Hsafe by apply remove_chars_free.
  destruct (split_scheme "" u0) as [sch' u1] eqn:Hs.
  apply split_scheme_ok in Hs as [Hsch Hsub1]; [|done].
  assert (∃ n' u2, (if startswith "//" u1 then _splitnetloc u1 else ("", u1)) = (n', u2)
            ∧ free_of is_netloc_delim n'
            ∧ (∀ Q, str_all Q u1 = true → str_all Q n' = true ∧ str_all Q u2 = true)
            ∧ (n' ≠ "" → u2 = "" ∨ ∃ a t, u2 = String a t ∧ is_netloc_delim a = true))
    as (n' & u2 & -> & Hnfree & Hsub2 & Hhead).
  { destruct (startswith "//" u1).
    - unfold _splitnetloc.
      exists (span is_netloc_delim (str_drop 2 u1)).1, (span is_netloc_delim (str_drop 2 u1)).2.
      split; [by destruct (span _ _)|]. split; [apply span_fst_free|]. split.
      + intros Q HQ. apply span_all. by apply str_drop_all.
      + intros _. destruct (span is_netloc_delim (str_drop 2 u1)).2 as [|a t] eqn:Ht; [by left|].
        right. exists a, t. split; [done|]. by apply span_snd_head in Ht.
    - exists "", u1. split; [done|]. split; [done|]. split; [by intros Q HQ|]. done. }
  destruct (xorb (has_char "[" n') (has_char "]" n')) eqn:Hbr; [done|].
  destruct (split_first is_hash u2) as [u3 f'] eqn:Hf.
  destruct (split_first is_qmark u3) as [p' q'] eqn:Hq.
  intros [= <- <- <- <- <-]. split; [done|].
  assert (u3 = (span is_hash u2).1) as Hu3 by (by rewrite <- split_first_fst, Hf).
  assert (p' = (span is_qmark u3).1) as Hp by (by rewrite <- split_first_fst, Hq).
  assert (∀ Q, str_all Q u0 = true → str_all Q n' = true ∧ str_all Q p' = true ∧ str_all Q q' = true) as Hsub.
  { intros Q HQ. destruct (Hsub2 Q (Hsub1 Q HQ)) as [Hn Hu2]. split; [done|].
    destruct (split_first_all Q is_hash u2 Hu2) as [H3 _]. rewrite Hf in H3.
    destruct (split_first_all Q is_qmark u3 H3) as [H4 H5]. by rewrite Hq in H4, H5. }
  assert (free_of is_hash u3) as Hh3 by (rewrite Hu3; apply span_fst_free).
  destruct (split_first_all _ is_qmark u3 Hh3) as [Hhp Hhq]. rewrite Hq in Hhp, Hhq.
  split; try done; try (by apply Hsub).
  - rewrite Hp. apply span_fst_free.
  - intros Hn. destruct (Hhead Hn) as [->|(a & t & -> & Ha)].
    + left. subst u3. by rewrite Hp.
    + rewrite span_fst_cons in Hu3. destruct (is_hash a) eqn:Hha; [left; subst u3; by rewrite Hp|].
      rewrite Hu3, span_fst_cons in Hp. destruct (is_qmark a) eqn:Hqa; [by left|].
      right. rewrite Hp. pose proof (delim_cases a Ha Hha Hqa) as Hslash.
      subst a. reflexivity.
Qed.

End SplitFacts.

Section ParseFacts.
Implicit Types (s t u : string) (a c : ascii) (P Q : ascii → bool).

Lemma rsplit_at_head c s h t :
  rsplit_at c s = Some (h, t) → rsplit_at c h = Some (h, EmptyString).
Proof.
  revert h t. induction s as [|a s IH]; simpl; [done|]. intros h t.
  destruct (rsplit_at c s) as [[h' t']|] eqn:Hs.
  - intros [= <- <-]. simpl. by rewrite (IH h' t').
  - destruct (Ascii.eqb a c) eqn:Ha; [|done]. intros [= <- <-]. simpl. by rewrite Ha.
Qed.

Lemma span_snd_nonempty c s :
  has_char c s = true → (span (λ a, Ascii.eqb a c) s).2 ≠ EmptyString.
Proof.
  intros Hc Hnil. pose proof (span_eq (λ a, Ascii.eqb a c) s) as Heq.
  pose proof (span_fst_free (λ a, Ascii.eqb a c) s) as Hfree.
  rewrite Hnil, app_nil_r_str in Heq. rewrite Heq in Hfree.
  unfold has_char in Hc. by rewrite Hfree in Hc.
Qed.

Lemma startswith_slash_has s : startswith "/" s = true → has_char "/" s = true.
Proof.
  destruct s as [|a s]; [done|]. cbn [startswith].
  intros [Ha _]%andb_true_iff. apply Ascii.eqb_eq in Ha as <-. reflexivity.
Qed.

(** The path left by [_splitparams] keeps the shape of the path it was
    given, and holds no further parameters. *)
Lemma splitparams_ok url url' params :
  _splitparams url = (url', params) → has_char ";" url = true →
  (∀ Q, str_all Q url = true → str_all Q url' = true)
  ∧ (startswith "/" url = true → startswith "/" url' = true)
  ∧ (has_char ";" url' = false ∨ _splitparams url' = (url', EmptyString)).
Proof.
  unfold _splitparams. intros Hsplit Hsemi.
  destruct (rsplit_at "/" url) as [[head tail]|] eqn:Hr.
  - pose proof (span_eq is_semi tail) as Heq.
    pose proof (span_fst_free is_semi tail) as Hfree.
    destruct (span is_semi tail) as [h [|c t]] eqn:Hspan; simpl in *.
    + injection Hsplit as <- <-. split; [done|]. split; [done|]. right.
      by rewrite Hr, Hspan.
    + injection Hsplit as <- <-.
      apply rsplit_at_eq in Hr as Hurl. subst url. subst tail.
      split; [|split].
      * intros Q. rewrite !str_all_app. rewrite !andb_true_iff. tauto.
      * destruct head as [|a head]; [|done].
        by apply rsplit_at_head in Hr.
      * right. apply rsplit_at_tail_free in Hr as Htail.
        rewrite has_char_app in Htail. apply orb_false_iff in Htail as [Hh _].
        apply rsplit_at_head in Hr.
        rewrite rsplit_at_app.
        assert (rsplit_at "/" h = None) as -> by (by apply rsplit_at_None).
        rewrite Hr. simpl. by rewrite span_miss.
  - pose proof (span_snd_nonempty ";" url Hsemi) as Hne.
    pose proof (span_eq is_semi url) as Heq.
    pose proof (span_fst_free is_semi url) as Hfree.
    change (λ a, Ascii.eqb a ";") with is_semi in Hne.
    destruct (span is_semi url) as [h [|c t]]; simpl in *; [done|].
    injection Hsplit as <- <-. subst url. split; [|split].
    + intros Q. rewrite str_all_app, andb_true_iff. tauto.
    + intros Hs%startswith_slash_has. apply rsplit_at_None in Hr. congruence.
    + left. by apply has_char_false.
Qed.

(** The components [urlparse] returns. *)
Lemma urlparse_ok u p :
  urlparse u = Some p →
  scheme_ok (scheme p) ∧ split_ok (netloc p) (path p) (query p)
  ∧ (in_list (scheme p) uses_params = true →
     has_char ";" (path p) = false
     ∨ _splitparams (path p) = (path p, EmptyString)).
Proof.
  unfold urlparse, urlparse_with.
  destruct (urlsplit u "") as [[[[[sch n] p0] q] f]|] eqn:Hu; [|done].
  apply urlsplit_ok in Hu as [Hsch Hok].
  destruct (in_list sch uses_params && has_char ";" p0) eqn:Hc.
  - apply andb_true_iff in Hc as [Huses Hsemi].
    destruct (_splitparams p0) as [p1 params] eqn:Hsp.
    destruct (splitparams_ok _ _ _ Hsp Hsemi) as (Hsub & Hroot & Hfree).
    intros [= <-]. cbn [scheme netloc path query]. split; [done|]. split; [|done].
    destruct Hok as [? ? ? ? ? ? Hrooted ? ?].
    split; try done; try (by apply Hsub).
    intros Hn. destruct (Hrooted Hn) as [->|Hr]; [done|]. right. auto.
  - intros [= <-]. cbn [scheme netloc path query]. split; [done|]. split; [done|].
    intros Huses. rewrite Huses in Hc. cbn [andb] in Hc. by left.
Qed.

End ParseFacts.

Section Canonical.
Implicit Types (s t u x rest sch nl pth qry : string) (a c : ascii).

Lemma lstrip_head (P : ascii → bool) a s :
  P a = false → lstrip P (String a s) = String a s.
Proof. intros Ha. simpl. by rewrite Ha. Qed.

Lemma split_scheme_not_alpha d a s :
  is_ascii_alpha a = false → split_scheme d (String a s) = (d, String a s).
Proof.
  intros Ha. unfold split_scheme. cbn [span].
  destruct (is_colon a); [done|]. destruct (span is_colon s) as [h [|c t]]; [done|].
  by rewrite Ha.
Qed.

Lemma split_scheme_found d x rest :
  x ≠ EmptyString → scheme_ok x →
  split_scheme d (x +:+ String ":" rest) = (x, rest).
Proof.
  intros Hne Hx. destruct x as [|a0 pre]; [done|]. destruct Hx as (Ha & Hs & Hl).
  unfold split_scheme. rewrite span_hit; [|eapply str_all_impl; [|exact Hs] |done].
  - by rewrite Ha, Hs, Hl.
  - intros a Hsc. by destruct (scheme_char_plain a Hsc) as (-> & _).
Qed.


Lemma urlunparse_canonical sch nl pth qry :
  nl ≠ EmptyString → startswith "/" pth = true →
  urlunparse sch nl pth "" qry "" = canonical_text sch nl pth qry.
Proof.
  intros HN HP. unfold urlunparse, urlunsplit, canonical_text. cbn [is_empty].
  destruct nl as [|n0 nl]; [done|]. cbn [is_empty negb orb].
  destruct pth as [|p0 pth]; [done|]. rewrite HP. cbn [is_empty negb andb].
  destruct (is_empty sch), (is_empty qry); simpl;
    rewrite ?app_assoc_str, ?app_nil_r_str; simpl; rewrite ?app_assoc_str; done.
Qed.

Lemma urlsplit_canonical sch nl pth qry :
  scheme_ok sch → split_ok nl pth qry → startswith "/" pth = true →
  urlsplit (canonical_text sch nl pth qry) "" = Some (sch, nl, pth, qry, EmptyString).
Proof.
  intros HS [Hnf Hns Hbr Hph Hpq Hps Hpr Hqh Hqs] HP.
  destruct pth as [|p0 pth']; [done|]. cbn [startswith] in HP.
  apply andb_true_iff in HP as [Hp0 _]. apply Ascii.eqb_eq in Hp0 as <-.
  set (qs := if is_empty qry then EmptyString else String "?" qry).
  set (T := "//" +:+ nl +:+ String "/" pth' +:+ qs).
  assert (free_of is_unsafe T) as HT.
  { unfold T. apply free_of_app; split; [done|]. apply free_of_app; split; [done|].
    apply free_of_app; split; [done|]. unfold qs. by destruct qry. }
  assert (canonical_text sch nl (String "/" pth') qry
          = (if is_empty sch then EmptyString else sch +:+ ":") +:+ T) as Hc by done.
  assert (∃ a0 r, canonical_text sch nl (String "/" pth') qry = String a0 r
                  ∧ is_c0_or_space a0 = false) as (a0 & r & Hhead & Ha0).
  { rewrite Hc. destruct sch as [|s0 sch']; simpl; [by eexists _, _|].
    eexists _, _. split; [done|]. destruct HS as (Hs0 & _). by apply alpha_not_c0. }
  assert (free_of is_unsafe (canonical_text sch nl (String "/" pth') qry)) as Hsafe.
  { rewrite Hc. apply free_of_app; split; [|done].
    destruct sch as [|s0 sch']; [done|]. cbn [is_empty].
    apply free_of_app; split; [|done]. destruct HS as (_ & Hsc & _).
    eapply str_all_impl; [|exact Hsc]. intros a Ha.
    by destruct (scheme_char_plain a Ha) as (_ & -> & _). }
  unfold urlsplit. cbv zeta.
  change (remove_chars is_unsafe (rstrip is_c0_or_space (lstrip is_c0_or_space "")))
    with EmptyString.
  rewrite Hhead at 1. rewrite (lstrip_head _ _ _ Ha0), <- Hhead.
  rewrite (remove_chars_id _ _ Hsafe).
  assert (split_scheme "" (canonical_text sch nl (String "/" pth') qry) = (sch, T)) as ->.
  { rewrite Hc. destruct sch as [|s0 sch'] eqn:HSeq.
    - cbn [is_empty]. by apply split_scheme_not_alpha.
    - cbn [is_empty]. rewrite app_assoc_str. by apply split_scheme_found. }
  assert (startswith "//" T = true) as -> by done.
  assert (_splitnetloc T = (nl, String "/" pth' +:+ qs)) as ->.
  { unfold _splitnetloc, T. cbn [str_drop String.append]. by apply span_hit. }
  rewrite Hbr.
  assert (free_of is_hash (String "/" pth' +:+ qs)) as Hh.
  { apply free_of_app; split; [done|]. unfold qs. by destruct qry. }
  rewrite (split_first_miss _ _ Hh).
  unfold qs. destruct qry as [|q0 qry']; cbn [is_empty].
  - rewrite app_nil_r_str, split_first_miss by done. done.
  - rewrite split_first_hit by done. done.
Qed.

Lemma urlparse_canonical sch nl pth qry :
  scheme_ok sch → split_ok nl pth qry → nl ≠ EmptyString → startswith "/" pth = true →
  (in_list sch uses_params = true →
   has_char ";" pth = false ∨ _splitparams pth = (pth, EmptyString)) →
  urlparse (urlunparse sch nl pth "" qry "")
  = Some (mkParseResult sch nl pth "" qry "").
Proof.
  intros HS Hok HN HP Hpar. rewrite urlunparse_canonical by done.
  unfold urlparse, urlparse_with. rewrite urlsplit_canonical by done.
  destruct (in_list sch uses_params) eqn:Huses; cbn [andb]; [|done].
  destruct (has_char ";" pth) eqn:Hsemi; [|done].
  destruct Hpar as [?| ->]; done.
Qed.

End Canonical.


Section Fragment.
Implicit Types (s t u x rest : string) (a c : ascii).

Lemma lstrip_app_stop (P : ascii → bool) s c t :
  P c = false → lstrip P (s +:+ String c t) = lstrip P s +:+ String c t.
Proof.
  intros Hc. induction s as [|a s IH]; simpl; [by rewrite Hc|].
  by destruct (P a).
Qed.

Lemma remove_chars_app (P : ascii → bool) s t :
  remove_chars P (s +:+ t) = remove_chars P s +:+ remove_chars P t.
Proof.
  induction s as [|a s IH]; simpl; [done|]. destruct (P a); simpl; by rewrite IH.
Qed.

Lemma remove_chars_all (Q P : ascii → bool) s :
  str_all Q s = true → str_all Q (remove_chars P s) = true.
Proof.
  induction s as [|a s IH]; simpl; [done|].
  intros [Ha Hs]%andb_true_iff. destruct (P a); simpl; [auto|]. by rewrite Ha, IH.
Qed.

Lemma span_app_found (P : ascii → bool) s x c r :
  (span P s).2 = String c r →
  span P (s +:+ x) = ((span P s).1, (span P s).2 +:+ x).
Proof.
  induction s as [|a s IH]; simpl; [done|].
  destruct (P a); [done|]. destruct (span P s) as [h t]; simpl in *.
  intros Ht. by rewrite (IH Ht).
Qed.

Lemma span_app_free (P : ascii → bool) s x :
  free_of P s → span P (s +:+ x) = (s +:+ (span P x).1, (span P x).2).
Proof.
  intros Hs. induction s as [|a s IH]; simpl in *; [by destruct (span P x)|].
  apply andb_true_iff in Hs as [Ha Hs]. apply negb_true_iff in Ha. rewrite Ha.
  by rewrite (IH Hs).
Qed.

Lemma split_scheme_fragment d u f :
  split_scheme d (u +:+ String "#" f)
  = ((split_scheme d u).1, (split_scheme d u).2 +:+ String "#" f).
Proof.
  unfold split_scheme.
  pose proof (span_eq is_colon u) as Heq.
  pose proof (span_fst_free is_colon u) as Hfree.
  destruct (span is_colon u) as [h [|c t]] eqn:Hspan; simpl in Heq, Hfree.
  - rewrite app_nil_r_str in Heq. subst h. rewrite span_app_free by done.
    cbn [span]. change (is_colon "#") with false. cbn iota.
    destruct (span is_colon f) as [h' t']. cbn [fst snd].
    destruct (u +:+ String "#" h') as [|a0 pre] eqn:Hcat; [by destruct u|].
    destruct t' as [|c' t'']; [by destruct u|].
    assert (str_all is_scheme_char (String a0 pre) = false) as ->.
    { rewrite <- Hcat, str_all_app. cbn [str_all].
      change (is_scheme_char "#") with false. by rewrite andb_false_r. }
    rewrite andb_false_r. by destruct u.
  - rewrite (span_app_found _ u _ c t) by (by rewrite Hspan).
    rewrite Hspan. cbn [fst snd String.append].
    destruct h as [|a0 pre]; [done|].
    by destruct (is_ascii_alpha a0 && str_all is_scheme_char (String a0 pre)).
Qed.

Lemma startswith_slashes_fragment r f :
  startswith "//" (r +:+ String "#" f) = startswith "//" r.
Proof.
  destruct r as [|a [|b r]]; cbn [startswith String.append]; try done.
Qed.

(** A fragment appended to a text without ["#"] changes nothing but the
    fragment of what [urlsplit] returns. *)
Lemma urlsplit_fragment u f :
  has_char "#" u = false →
  urlsplit (u +:+ String "#" f) ""
  = match urlsplit u "" with
    | Some (sch, n, p, q, _) => Some (sch, n, p, q, remove_chars is_unsafe f)
    | None => None
    end.
Proof.
  intros Hu%has_char_false. unfold urlsplit. cbv zeta.
  change (remove_chars is_unsafe (rstrip is_c0_or_space (lstrip is_c0_or_space "")))
    with EmptyString.
  rewrite lstrip_app_stop by done. rewrite remove_chars_app.
  change (remove_chars is_unsafe (String "#" f))
    with (String "#" (remove_chars is_unsafe f)).
  set (u0 := remove_chars is_unsafe (lstrip is_c0_or_space u)).
  set (f0 := remove_chars is_unsafe f).
  assert (free_of is_hash u0) as Hu0.
  { apply remove_chars_all, lstrip_all, Hu. }
  rewrite split_scheme_fragment.
  destruct (split_scheme "" u0) as [sch u1] eqn:Hs. cbn [fst snd].
  apply split_scheme_ok in Hs as [_ Hsub]; [|done].
  specialize (Hsub _ Hu0).
  rewrite startswith_slashes_fragment.
  assert (∃ n u2, (if startswith "//" u1 then _splitnetloc u1 else ("", u1)) = (n, u2)
            ∧ (if startswith "//" u1 then _splitnetloc (u1 +:+ String "#" f0)
               else ("", u1 +:+ String "#" f0)) = (n, u2 +:+ String "#" f0)
            ∧ free_of is_hash u2) as (n & u2 & -> & -> & Hu2).
  { destruct (startswith "//" u1) eqn:Hsl.
    - unfold _splitnetloc. destruct u1 as [|a [|b u1']]; cbn [startswith] in Hsl;
        rewrite ?andb_false_r in Hsl; try done.
      cbn [str_drop String.append]. rewrite span_app_stop by done.
      apply andb_true_iff in Hsub as [_ Hsub]. apply andb_true_iff in Hsub as [_ Hsub].
      destruct (span_all _ is_netloc_delim u1' Hsub) as [_ H2].
      exists (span is_netloc_delim u1').1, (span is_netloc_delim u1').2.
      split; [by destruct (span _ _)|]. split; done.
    - by exists "", u1. }
  destruct (xorb _ _); [done|].
  rewrite (split_first_hit is_hash u2 "#" f0 Hu2 eq_refl).
  rewrite (split_first_miss is_hash u2 Hu2).
  by destruct (split_first is_qmark u2).
Qed.

End Fragment.


Lemma canonical_ignores_fragment seed u f :
  has_char "#" u = false →
  canonical seed (u +:+ String "#" f) = canonical seed u.
Proof.
  intros Hu. unfold canonical, urlparse, urlparse_with.
  rewrite (urlsplit_fragment u f Hu).
  destruct (urlsplit seed "") as [[[[[? ?] ?] ?] ?]|]; [|done].
  destruct (urlsplit u "") as [[[[[sch n] p] q] fr]|]; [|done].
  by destruct (in_list sch uses_params && has_char ";" p); destruct (_splitparams p).
Qed.

(** ** Events of one iteration *)


Lemma page_gets_app tr1 tr2 :
  page_gets (tr1 ++ tr2) = page_gets tr1 ++ page_gets tr2.
Proof. apply omap_app. Qed.

Lemma quiet_ret {A} (a : A) : quiet (mret a).
Proof. reflexivity. Qed.

Lemma quiet_raise {A} : quiet (@raise A).
Proof. reflexivity. Qed.

Lemma quiet_bind {A B} (c : IO A) (k : A → IO B) :
  quiet c → (∀ a, quiet (k a)) → quiet (c ≫= k).
Proof.
  unfold quiet. destruct c as [evs [a|]]; simpl; intros Hc Hk; [|done].
  specialize (Hk a). unfold mbind, IO_bind. destruct (k a) as [evs' r]; simpl in *.
  by rewrite page_gets_app, Hc, Hk.
Qed.

Lemma quiet_for_each {A B} (f : A → B → IO A) l :
  (∀ a b, quiet (f a b)) → ∀ acc, quiet (for_each f acc l).
Proof.
  intros Hf. induction l as [|x l IH]; intros acc; simpl.
  - apply quiet_ret.
  - apply quiet_bind; auto.
Qed.

Lemma quiet_makedirs w t p : quiet (makedirs w t p).
Proof. unfold makedirs. by destruct (makedirs_ok w t p). Qed.

Lemma quiet_download_asset cfg w t url a : quiet (_download_asset cfg w t url a).
Proof.
  unfold _download_asset.
  destruct (urljoin url a) as [abs|]; [|apply quiet_ret].
  destruct (startswith "data:" abs); [apply quiet_ret|].
  destruct (http_get w t abs).
  - apply quiet_bind; [done|]. intros _.
    destruct (_safe_asset_path _ _ _); [|apply quiet_raise].
    apply quiet_bind; [apply quiet_makedirs|]. intros _.
    destruct (open_ok w t s); [|apply quiet_ret].
    apply quiet_bind; [done|]. intros _. apply quiet_ret.
  - apply quiet_bind; [done|]. intros _. apply quiet_ret.
Qed.

Lemma quiet_download_ref cfg w b t url r : quiet (download_ref cfg w b t url r).
Proof.
  unfold download_ref. destruct (is_empty r); [apply quiet_ret|].
  destruct (_ || _); [|apply quiet_ret].
  apply quiet_bind; [apply quiet_download_asset|].
  intros [x|]; [destruct (is_empty x)|]; apply quiet_ret.
Qed.

Lemma quiet_download_refs cfg w b t url l : quiet (download_refs cfg w b t url l).
Proof.
  apply quiet_for_each. intros. apply quiet_bind; [apply quiet_download_ref|].
  intros. apply quiet_ret.
Qed.

Lemma quiet_write_page cfg w t url : quiet (write_page cfg w t url).
Proof.
  unfold write_page. destruct (_safe_filename_from_url _ _); [|apply quiet_raise].
  apply quiet_bind; [apply quiet_makedirs|]. intros _.
  by destruct (open_ok _ _ _).
Qed.

Section StepFacts.
Context (cfg : Config) (w : World) (parsed : ParseResult).

Lemma quiet_page_body t url page : quiet (page_body cfg w t url page).
Proof.
  unfold page_body.
  apply quiet_bind; [apply quiet_download_refs|]. intros _.
  apply quiet_bind; [apply quiet_download_refs|]. intros hrefs.
  apply quiet_bind; [apply quiet_write_page|]. intros _. apply quiet_ret.
Qed.

Lemma save_state_fields s :
  to_visit (_save_state w s) = to_visit s
  ∧ visited (_save_state w s) = visited s
  ∧ discovered_titles (_save_state w s) = discovered_titles s
  ∧ shutdown_flag (_save_state w s) = shutdown_flag s
  ∧ tick (_save_state w s) = tick s
  ∧ page_gets (trace (_save_state w s)) = page_gets (trace s).
Proof.
  unfold _save_state.
  destruct (checkpoint_write_ok w (tick s)); [|destruct (checkpoint_open_ok w (tick s))];
    simpl; rewrite ?page_gets_app; simpl; rewrite ?app_nil_r; done.
Qed.

End StepFacts.

(** Case analysis of one iteration. *)
Ltac step_cases Hto :=
  unfold step; rewrite Hto;
  repeat match goal with
  | |- context [bool_decide (?u ∈ ?X)] => destruct (decide (u ∈ X)); [rewrite bool_decide_eq_true_2 by done | rewrite bool_decide_eq_false_2 by done]
  | |- context [robots_denies ?c ?w ?u] => destruct (robots_denies c w u) eqn:?
  | |- context [http_get ?w ?t ?u] => destruct (http_get w t u) as [?page|] eqn:?
  | |- context [page_body ?c ?w ?t ?u ?p] =>
      let Hq := fresh "Hquiet" in
      pose proof (quiet_page_body c w t u p) as Hq; unfold quiet in Hq;
      destruct (page_body c w t u p) as [?evs [?hrefs|]] eqn:?; simpl in Hq
  | |- context [discover_links ?c ?w ?a ?b ?u ?s ?f ?h] => destruct (discover_links c w a b u s f h) as [?frontier|] eqn:?
  | |- context [(save_every ?c =? 0)%Z] => destruct (save_every c =? 0)%Z eqn:?
  | |- context [(?a mod ?b =? 0)%Z] => destruct (a mod b =? 0)%Z eqn:?
  end; simpl.

Section StepFacts2.
Context (cfg : Config) (w : World) (parsed : ParseResult).

Lemma step_visited s url rest :
  to_visit s = url :: rest →
  visited (state_of (step cfg w parsed s))
  = if bool_decide (url ∈ visited s) then visited s else {[url]} ∪ visited s.
Proof.
  intros Hto. step_cases Hto; try done.
  all: try (rewrite bool_decide_eq_true_2 by done; done).
  all: try (rewrite bool_decide_eq_false_2 by done); try done.
  all: match goal with |- context [_save_state w ?s'] => by destruct (save_state_fields w s') as (_ & -> & _) end.
Qed.

Lemma step_page_gets s url rest :
  to_visit s = url :: rest →
  page_gets (trace (state_of (step cfg w parsed s)))
  = page_gets (trace s)
    ++ (if bool_decide (url ∈ visited s) || robots_denies cfg w url then [] else [url]).
Proof.
  intros Hto. step_cases Hto; rewrite ?page_gets_app, ?app_nil_r; simpl; try done.
  all: try (rewrite bool_decide_eq_true_2 by done; simpl; by rewrite ?app_nil_r).
  all: try (rewrite bool_decide_eq_false_2 by done; simpl; try rewrite Heqb); simpl; rewrite ?app_nil_r; try done.
  all: try (rewrite Hquiet; done).
  all: try (match goal with |- context [_save_state w ?s'] => destruct (save_state_fields w s') as (_ & _ & _ & _ & _ & ->) end; simpl; rewrite page_gets_app; simpl; by rewrite Hquiet).
Qed.

Lemma step_seen s url rest :
  to_visit s = url :: rest → url ∈ visited s →
  ∃ s', step cfg w parsed s = Next s' ∧ to_visit s' = rest ∧ visited s' = visited s.
Proof.
  intros Hto Hin. unfold step. rewrite Hto, bool_decide_eq_true_2 by done.
  eexists; split; [done|]. done.
Qed.

End StepFacts2.

(** ** The loop *)

Section LoopFacts.
Context (cfg : Config) (w : World) (parsed : ParseResult).

Lemma loop_cond_true s :
  loop_cond cfg s = true ↔
  to_visit s ≠ [] ∧ (Z.of_nat (size (visited s)) < max_pages cfg)%Z
  ∧ shutdown_flag s = false.
Proof.
  unfold loop_cond. rewrite !andb_true_iff, !negb_true_iff, bool_decide_eq_false, Z.ltb_lt.
  tauto.
Qed.

Lemma loop_cond_false s :
  loop_cond cfg s = false ↔
  to_visit s = [] ∨ (max_pages cfg ≤ Z.of_nat (size (visited s)))%Z
  ∨ shutdown_flag s = true.
Proof.
  unfold loop_cond.
  rewrite !andb_false_iff, !negb_false_iff, bool_decide_eq_true, Z.ltb_ge.
  tauto.
Qed.

(** A property of the state that every iteration preserves holds when the
    loop is left, and the loop returns only with its condition false. *)
Lemma crawl_loop_invariant (Inv : State → Prop) :
  (∀ s, loop_cond cfg s = true → Inv s → Inv (state_of (step cfg w parsed s))) →
  ∀ fuel s e, Inv s → crawl_loop cfg w fuel parsed s = Some e →
  Inv (exit_state e) ∧ (∀ s', e = Returned s' → loop_cond cfg s' = false).
Proof.
  intros Hstep. induction fuel as [|fuel IH]; intros s e HI; simpl;
    destruct (loop_cond cfg s) eqn:Hc; try done.
  - intros [= <-]. split; [done|]. by intros s' [= <-].
  - specialize (Hstep s Hc HI).
    destruct (step cfg w parsed s) as [s'|s']; simpl in Hstep.
    + by apply IH.
    + intros [= <-]. split; [done|]. done.
  - intros [= <-]. split; [done|]. by intros s' [= <-].
Qed.

Lemma size_add_fresh (url : string) (X : gset string) :
  url ∉ X → size ({[url]} ∪ X) = S (size X).
Proof.
  intros. rewrite size_union by set_solver. by rewrite size_singleton.
Qed.

(** The loop ends: the pair (pages left in the budget, length of the
    frontier) decreases lexicographically at every iteration. *)
Lemma crawl_loop_total s : ∃ fuel e, crawl_loop cfg w fuel parsed s = Some e.
Proof.
  assert (∀ n m s,
    (Z.to_nat (max_pages cfg - Z.of_nat (size (visited s))) ≤ n)%nat →
    (length (to_visit s) ≤ m)%nat →
    ∃ fuel e, crawl_loop cfg w fuel parsed s = Some e) as H;
    [|by eapply H].
  clear s. induction n as [|n IHn]; intros m; induction m as [|m IHm];
    intros s Hn Hm; destruct (loop_cond cfg s) eqn:Hc;
    try (exists 0%nat, (Returned s); simpl; by rewrite Hc);
    apply loop_cond_true in Hc as Hc'; destruct Hc' as (Hne & Hlt & _);
    try lia.
  - destruct (to_visit s); [done | simpl in Hm; lia].
  - destruct (to_visit s) as [|url rest] eqn:Hto; [done|]. simpl in Hm.
    destruct (decide (url ∈ visited s)) as [Hin|Hnin].
    + destruct (step_seen cfg w parsed s url rest Hto Hin) as (s' & Hs & Hto' & Hv').
      destruct (IHm s') as (fuel & e & He).
      { rewrite Hv'. lia. }
      { rewrite Hto'. lia. }
      exists (S fuel), e. simpl. by rewrite Hc, Hs.
    + pose proof (step_visited cfg w parsed s url rest Hto) as Hv.
      rewrite bool_decide_eq_false_2 in Hv by done.
      destruct (step cfg w parsed s) as [s'|s'] eqn:Hs; simpl in Hv.
      * destruct (IHn (length (to_visit s')) s') as (fuel & e & He); [|done|].
        { rewrite Hv, size_add_fresh by done. lia. }
        exists (S fuel), e. simpl. by rewrite Hc, Hs.
      * exists 1%nat, (Failed s'). simpl. by rewrite Hc, Hs.
Qed.

Lemma finish_fields s :
  let s' := exit_state (finish cfg w s) in
  to_visit s' = to_visit s ∧ visited s' = visited s
  ∧ shutdown_flag s' = shutdown_flag s
  ∧ page_gets (trace s') = page_gets (trace s).
Proof.
  unfold finish, write_index.
  destruct (open_ok _ _ _); [|done].
  destruct (index_rows cfg s) as [rows|]; [|done]. simpl.
  unfold final_save. simpl.
  destruct (checkpoint s); simpl; rewrite ?page_gets_app; simpl; rewrite ?app_nil_r; try done.
  all: match goal with |- context [_save_state w ?s'] => destruct (save_state_fields w s') as (-> & -> & _ & -> & _ & ->) end; simpl; rewrite ?page_gets_app; simpl; by rewrite ?app_nil_r.
Qed.

End LoopFacts.

Section RunFacts.
Context (cfg : Config) (w : World).

Lemma bind_Some_inv {A B} (c : IO A) (k : A → IO B) evs b :
  c ≫= k = (evs, Some b) →
  ∃ evs1 a evs2, c = (evs1, Some a) ∧ k a = (evs2, Some b) ∧ evs = evs1 ++ evs2.
Proof.
  destruct c as [evs1 [a|]]; unfold mbind, IO_bind; [|done].
  destruct (k a) as [evs2 r] eqn:Hk. intros [= <- ->]. eauto 6.
Qed.

Lemma download_refs_events is_img t url refs :
  ∀ acc evs out,
    for_each (λ done ref, r ← download_ref cfg w is_img t url ref; ret (done ++ [r]))
             acc refs = (evs, Some out) →
    ∀ ref, ref ∈ refs →
      ∃ evs1 r, download_ref cfg w is_img t url ref = (evs1, Some r)
                ∧ ∀ e, e ∈ evs1 → e ∈ evs.
Proof.
  induction refs as [|x refs IH]; intros acc evs out Hrun ref Hin.
  - by apply elem_of_nil in Hin.
  - simpl in Hrun. apply bind_Some_inv in Hrun as (evs1 & acc' & evs2 & Hx & Hrest & ->).
    apply bind_Some_inv in Hx as (evs3 & r & evs4 & Hd & Hret & ->).
    apply elem_of_cons in Hin as [->|Hin].
    + exists evs3, r. split; [done|]. intros e He. set_solver.
    + destruct (IH _ _ _ Hrest ref Hin) as (evs5 & r' & Hd' & Hsub).
      exists evs5, r'. split; [done|]. intros e He. set_solver.
Qed.

Lemma download_asset_events t url ref abs evs r :
  urljoin url ref = Some abs → startswith "data:" abs = false →
  _download_asset cfg w t url ref = (evs, Some r) →
  EvGetAsset abs (bool_decide (is_Some (http_get w t abs))) ∈ evs
  ∧ ∀ local_path,
      is_Some (http_get w t abs) →
      _safe_asset_path (assets_dir cfg) url abs = Some local_path →
      open_ok w t local_path = true →
      EvWriteAsset local_path ∈ evs.
Proof.
  intros Hj Hd. unfold _download_asset. rewrite Hj, Hd.
  destruct (http_get w t abs) as [pg|] eqn:Hget.
  - intros Hrun. apply bind_Some_inv in Hrun as (evs1 & [] & evs2 & [= <-] & Hrest & ->).
    split.
    { rewrite bool_decide_eq_true_2 by eauto. set_solver. }
    intros lp _ Hlp Hopen. rewrite Hlp in Hrest.
    apply bind_Some_inv in Hrest as (evs3 & [] & evs4 & _ & Hrest & ->).
    rewrite Hopen in Hrest.
    apply bind_Some_inv in Hrest as (evs5 & [] & evs6 & [= <-] & _ & ->).
    set_solver.
  - intros Hrun. apply bind_Some_inv in Hrun as (evs1 & [] & evs2 & [= <-] & Hrest & ->).
    split; [|by intros ? [? ?]].
    rewrite bool_decide_eq_false_2; [set_solver|]. by intros [? ?].
Qed.

Lemma download_ref_asset_events is_img t url ref evs r :
  _is_asset_link ref = true →
  download_ref cfg w is_img t url ref = (evs, Some r) →
  ∃ r', _download_asset cfg w t url ref = (evs, Some r').
Proof.
  intros Ha. unfold download_ref.
  assert (is_empty ref = false) as ->.
  { unfold _is_asset_link in Ha. by destruct (is_empty ref). }
  rewrite Ha. simpl. intros Hrun.
  apply bind_Some_inv in Hrun as (evs1 & r' & evs2 & Hd & Hret & ->).
  exists r'. rewrite Hd. f_equal.
  destruct r' as [x|]; [destruct (is_empty x)|]; injection Hret as <- _; by rewrite app_nil_r.
Qed.

End RunFacts.

Section Claims.
Context (cfg : Config) (w : World).

Lemma robots_invariant parsed fuel s e :
  (∀ u, u ∈ page_gets (trace s) → robots_denies cfg w u = false) →
  crawl_loop cfg w fuel parsed s = Some e →
  ∀ u, u ∈ page_gets (trace (exit_state e)) → robots_denies cfg w u = false.
Proof.
  intros HI Hrun.
  eapply (crawl_loop_invariant cfg w parsed
            (λ s, ∀ u, u ∈ page_gets (trace s) → robots_denies cfg w u = false));
    [|exact HI|exact Hrun].
  clear. intros s Hc HI u.
  apply loop_cond_true in Hc as (Hne & _).
  destruct (to_visit s) as [|url rest] eqn:Hto; [done|].
  rewrite (step_page_gets cfg w parsed s url rest Hto).
  intros [Hu|Hu]%elem_of_app; [auto|].
  destruct (bool_decide (url ∈ visited s)); simpl in Hu; [by apply elem_of_nil in Hu|].
  destruct (robots_denies cfg w url) eqn:Hr; [by apply elem_of_nil in Hu|].
  by apply list_elem_of_singleton in Hu as ->.
Qed.

End Claims.

(** ** Events of a computation *)

Lemma only_ret {A} P (a : A) : only P (mret a).
Proof. reflexivity. Qed.

Lemma only_raise {A} P : only P (@raise A).
Proof. reflexivity. Qed.

Lemma only_bind {A B} P (c : IO A) (k : A → IO B) :
  only P c → (∀ a, only P (k a)) → only P (c ≫= k).
Proof.
  unfold only. destruct c as [evs [a|]]; simpl; intros Hc Hk; [|done].
  specialize (Hk a). unfold mbind, IO_bind. destruct (k a) as [evs' r]; simpl in *.
  by rewrite forallb_app, Hc, Hk.
Qed.

Lemma only_for_each {A B} P (f : A → B → IO A) l :
  (∀ a b, only P (f a b)) → ∀ acc, only P (for_each f acc l).
Proof.
  intros Hf. induction l as [|x l IH]; intros acc; simpl.
  - apply only_ret.
  - apply only_bind; auto.
Qed.

Lemma only_makedirs P w t p : only P (makedirs w t p).
Proof. unfold makedirs. by destruct (makedirs_ok w t p). Qed.

Lemma only_download_asset cfg w t url a :
  only is_asset_event (_download_asset cfg w t url a).
Proof.
  unfold _download_asset.
  destruct (urljoin url a) as [abs|]; [|apply only_ret].
  destruct (startswith "data:" abs); [apply only_ret|].
  destruct (http_get w t abs).
  - apply only_bind; [done|]. intros _.
    destruct (_safe_asset_path _ _ _) as [lp|]; [|apply only_raise].
    apply only_bind; [apply only_makedirs|]. intros _.
    destruct (open_ok w t lp); [|apply only_ret].
    apply only_bind; [done|]. intros _. apply only_ret.
  - apply only_bind; [done|]. intros _. apply only_ret.
Qed.

Lemma only_download_refs cfg w b t url l :
  only is_asset_event (download_refs cfg w b t url l).
Proof.
  apply only_for_each. intros acc r. apply only_bind; [|intros; apply only_ret].
  unfold download_ref. destruct (is_empty r); [apply only_ret|].
  destruct (_ || _); [|apply only_ret].
  apply only_bind; [apply only_download_asset|].
  intros [x|]; [destruct (is_empty x)|]; apply only_ret.
Qed.

Lemma bind_inv {A B} (c : IO A) (k : A → IO B) evs r :
  c ≫= k = (evs, r) →
  (c = (evs, None) ∧ r = None)
  ∨ ∃ evs1 a evs2, c = (evs1, Some a) ∧ k a = (evs2, r) ∧ evs = evs1 ++ evs2.
Proof.
  destruct c as [evs1 [a|]]; unfold mbind, IO_bind.
  - destruct (k a) as [evs2 r'] eqn:Hk. intros [= <- <-]. right. eauto 6.
  - intros [= <- <-]. by left.
Qed.

(** Writing the page document is the last effect of the loop body before
    the link loop: the events of the body are those of the asset loops,
    followed by the page write when the body is completed. *)
Lemma page_body_events cfg w t url page evs r :
  page_body cfg w t url page = (evs, r) →
  ∃ evs_a, forallb is_asset_event evs_a = true
           ∧ match r with
             | Some _ => ∃ p, evs = evs_a ++ [EvWritePage p]
             | None => evs = evs_a
             end.
Proof.
  unfold page_body. intros H.
  pose proof (only_download_refs cfg w true t url (imgs page)) as H1.
  apply bind_inv in H as [[H ->]|(e1 & x1 & e2 & Hc1 & H & ->)].
  { rewrite H in H1. by exists evs. }
  rewrite Hc1 in H1. unfold only in H1. simpl in H1.
  pose proof (only_download_refs cfg w false t url (anchors page)) as H2.
  apply bind_inv in H as [[H ->]|(e3 & hrefs & e4 & Hc2 & H & ->)].
  { rewrite H in H2. unfold only in H2. simpl in H2.
    exists (e1 ++ e2). by rewrite forallb_app, H1, H2. }
  rewrite Hc2 in H2. unfold only in H2. simpl in H2.
  assert (forallb is_asset_event (e1 ++ e3) = true) as H13
    by (by rewrite forallb_app, H1, H2).
  apply bind_inv in H as [[H ->]|(e5 & [] & e6 & Hc3 & H & ->)].
  - exists (e1 ++ e3). split; [done|].
    assert (e4 = []) as ->; [|by rewrite app_nil_r].
    unfold write_page in H. destruct (_safe_filename_from_url _ _); [|by injection H as <-].
    apply bind_inv in H as [[H _]|(e7 & [] & e8 & Hm & H & ->)].
    + unfold makedirs in H. by destruct (makedirs_ok _ _ _); injection H as <-.
    + unfold makedirs in Hm. destruct (makedirs_ok _ _ _); [|done].
      injection Hm as <-. by destruct (open_ok _ _ _); injection H as <-.
  - injection H as <- <-. exists (e1 ++ e3). split; [done|].
    unfold write_page in Hc3.
    destruct (_safe_filename_from_url _ _) as [tp|]; [|done].
    apply bind_inv in Hc3 as [[_ ?]|(e7 & [] & e8 & Hm & H & ->)]; [done|].
    unfold makedirs in Hm. destruct (makedirs_ok _ _ _); [|done].
    injection Hm as <-. destruct (open_ok _ _ _); [|done]. injection H as <-.
    eexists. simpl. rewrite ?app_nil_r. by rewrite app_assoc.
Qed.

(** ** The link loop *)

Section Links.
Context (cfg : Config) (w : World) (base_netloc base_scheme url : string)
  (seen : gset string).

Lemma consider_link_spec frontier href frontier' :
  consider_link cfg w base_netloc base_scheme url seen frontier href = Some frontier' →
  frontier' = frontier
  ∨ ∃ u, frontier' = frontier ++ [u] ∧ (u ∉ seen) ∧ (u ∉ frontier)
         ∧ link_target cfg w base_netloc base_scheme url [href] u.
Proof.
  unfold consider_link.
  destruct (_is_valid_href (Some href)) eqn:Hv; simpl; [|intros [= <-]; by left].
  destruct (urljoin url href) as [new_url|] eqn:Hj; [|done].
  destruct (urlparse new_url) as [p|] eqn:Hp; [|done].
  destruct (String.eqb (netloc p) base_netloc) eqn:Hn; simpl; [|intros [= <-]; by left].
  apply String.eqb_eq in Hn.
  destruct (robots_denies cfg w _) eqn:Hr; [intros [= <-]; by left|].
  destruct (ASSET_EXTENSIONS _); [intros [= <-]; by left|].
  destruct (decide (normalized_of base_scheme p ∈ seen)) as [Hs|Hs];
    [rewrite bool_decide_eq_true_2 by done; intros [= <-]; by left|].
  destruct (decide (normalized_of base_scheme p ∈ frontier)) as [Hf|Hf];
    [rewrite (bool_decide_eq_true_2 (_ ∈ frontier)) by done; rewrite orb_true_r;
     intros [= <-]; by left|].
  rewrite !bool_decide_eq_false_2 by done. simpl. intros [= <-]. right.
  eexists. split; [done|]. split; [done|]. split; [done|].
  exists href, new_url, p. split; [apply list_elem_of_here|]. done.
Qed.

Lemma link_target_mono hrefs hrefs' u :
  (∀ h, h ∈ hrefs → h ∈ hrefs') →
  link_target cfg w base_netloc base_scheme url hrefs u →
  link_target cfg w base_netloc base_scheme url hrefs' u.
Proof.
  intros Hsub (href & new_url & p & Hin & H). exists href, new_url, p.
  split; [auto|done].
Qed.

(** The link loop only appends to the frontier, and what it appends is
    new: not visited, not queued, and not appended twice. *)
Lemma discover_links_spec hrefs :
  ∀ frontier frontier',
    discover_links cfg w base_netloc base_scheme url seen frontier hrefs
    = Some frontier' →
    ∃ new, frontier' = frontier ++ new ∧ NoDup new
           ∧ ∀ u, u ∈ new →
               (u ∉ seen) ∧ (u ∉ frontier)
               ∧ link_target cfg w base_netloc base_scheme url hrefs u.
Proof.
  induction hrefs as [|href hrefs IH]; intros frontier frontier'; simpl.
  - intros [= <-]. exists []. rewrite app_nil_r. split; [done|].
    split; [apply NoDup_nil_2|]. intros u Hu. by apply elem_of_nil in Hu.
  - destruct (consider_link _ _ _ _ _ _ _ _) as [f1|] eqn:Hc; [|done].
    intros Hrest. apply IH in Hrest as (new & -> & Hnd & Hnew).
    apply consider_link_spec in Hc as [->|(u & -> & Hus & Huf & Hut)].
    + exists new. split; [done|]. split; [done|]. intros u Hu.
      destruct (Hnew u Hu) as (? & ? & Ht). split; [done|]. split; [done|].
      eapply link_target_mono; [|exact Ht]. intros h Hh. by apply list_elem_of_further.
    + exists (u :: new). rewrite <- app_assoc. split; [done|]. split.
      * apply NoDup_cons. split; [|done]. intros Hu.
        destruct (Hnew u Hu) as (_ & Hnf & _). apply Hnf, elem_of_app. right.
        apply list_elem_of_here.
      * intros v [->|Hv]%elem_of_cons.
        { split; [done|]. split; [done|].
          eapply link_target_mono; [|exact Hut].
          intros h ->%list_elem_of_singleton. apply list_elem_of_here. }
        destruct (Hnew v Hv) as (? & Hnf & Ht). split; [done|]. split.
        { intros Hvf. apply Hnf, elem_of_app. by left. }
        eapply link_target_mono; [|exact Ht]. intros h Hh. by apply list_elem_of_further.
Qed.

End Links.

(** ** One iteration, case by case *)

Section Iterations.
Context (cfg : Config) (w : World) (parsed : ParseResult).

Lemma step_iteration s url rest :
  to_visit s = url :: rest →
  Iteration cfg w parsed s url rest (step cfg w parsed s).
Proof.
  intros Hto. unfold step. rewrite Hto.
  destruct (decide (url ∈ visited s)) as [Hin|Hnin].
  { rewrite bool_decide_eq_true_2 by done. by constructor. }
  rewrite bool_decide_eq_false_2 by done.
  destruct (robots_denies cfg w url) eqn:Hr; [by constructor|].
  destruct (http_get w (S (tick s)) url) as [page|] eqn:Hget; [|by constructor].
  destruct (page_body cfg w (S (tick s)) url page) as [evs [hrefs|]] eqn:Hbody;
    [|by eapply It_body_raised].
  destruct (discover_links _ _ _ _ _ _ _ _) as [frontier|] eqn:Hlinks;
    [|by eapply It_links_raised].
  destruct (save_every cfg =? 0)%Z eqn:Hz.
  { apply Z.eqb_eq in Hz. by eapply It_zero_division. }
  apply Z.eqb_neq in Hz.
  destruct (_ mod _ =? 0)%Z eqn:Hm.
  - apply Z.eqb_eq in Hm. by eapply It_saved.
  - apply Z.eqb_neq in Hm. by eapply It_done.
Qed.

(** Invariants of the loop: [Inv] is kept by the iterations that reach the
    loop condition again, and [Post] holds after one that raises. *)
Lemma crawl_loop_exits (Inv Post : State → Prop) :
  (∀ s url rest s', loop_cond cfg s = true → Inv s → to_visit s = url :: rest →
     Iteration cfg w parsed s url rest (Next s') → Inv s') →
  (∀ s url rest s', loop_cond cfg s = true → Inv s → to_visit s = url :: rest →
     Iteration cfg w parsed s url rest (Raised s') → Post s') →
  ∀ fuel s e, Inv s → crawl_loop cfg w fuel parsed s = Some e →
  match e with
  | Returned s' => Inv s' ∧ loop_cond cfg s' = false
  | Failed s' => Post s'
  end.
Proof.
  intros HN HR. induction fuel as [|fuel IH]; intros s e HI; simpl;
    destruct (loop_cond cfg s) eqn:Hc; try done; try (by intros [= <-]).
  apply loop_cond_true in Hc as Hc'. destruct Hc' as (Hne & _).
  destruct (to_visit s) as [|url rest] eqn:Hto; [done|].
  pose proof (step_iteration s url rest Hto) as Hit.
  destruct (step cfg w parsed s) as [s'|s'].
  - apply IH. eauto.
  - intros [= <-]. eauto.
Qed.

End Iterations.

Section Frontier.
Context (cfg : Config) (w : World) (parsed : ParseResult).

(** What an iteration does to the frontier, to the visited set and to the
    list of fetched pages. *)
Lemma iteration_frontier s url rest r :
  Iteration cfg w parsed s url rest r →
  ∃ new, to_visit (state_of r) = rest ++ new ∧ NoDup new
         ∧ (∀ u, u ∈ new →
              (u ∉ ({[url]} ∪ visited s : gset string)) ∧ (u ∉ rest)
              ∧ ∃ hrefs, link_target cfg w (netloc parsed) (scheme parsed)
                           url hrefs u)
         ∧ (new ≠ [] →
            (url ∉ visited s) ∧ robots_denies cfg w url = false
            ∧ ∃ page, http_get w (S (tick s)) url = Some page).
Proof.
  assert (∃ new : list string, rest = rest ++ new ∧ NoDup new
         ∧ (∀ u, u ∈ new →
              (u ∉ ({[url]} ∪ visited s : gset string)) ∧ (u ∉ rest)
              ∧ ∃ hrefs, link_target cfg w (netloc parsed) (scheme parsed)
                           url hrefs u)
         ∧ (new ≠ [] →
            (url ∉ visited s) ∧ robots_denies cfg w url = false
            ∧ ∃ page, http_get w (S (tick s)) url = Some page)) as Hnil.
  { exists []. rewrite app_nil_r. split; [done|]. split; [apply NoDup_nil_2|].
    split; [|done]. intros u Hu. by apply elem_of_nil in Hu. }
  destruct 1; simpl; try done.
  all: try destruct (save_state_fields w (after_fetch w s url page evs frontier
                                            (pages_done s + 1))) as (-> & _).
  all: simpl;
    match goal with H : discover_links _ _ _ _ _ _ _ _ = Some _ |- _ =>
      apply discover_links_spec in H as (new & -> & Hnd & Hnew) end;
    exists new; (split; [done|]); (split; [done|]); (split; [|by eauto]);
    intros u Hu; destruct (Hnew u Hu) as (? & ? & ?); eauto.
Qed.

Lemma iteration_visited s url rest r :
  Iteration cfg w parsed s url rest r →
  visited (state_of r)
  = if bool_decide (url ∈ visited s) then visited s else {[url]} ∪ visited s.
Proof.
  destruct 1; simpl;
    try (by rewrite bool_decide_eq_true_2 by done);
    try (by rewrite bool_decide_eq_false_2 by done).
  destruct (save_state_fields w (after_fetch w s url page evs frontier
                                   (pages_done s + 1))) as (_ & -> & _).
  by rewrite bool_decide_eq_false_2 by done.
Qed.

Lemma iteration_page_gets s url rest r :
  Iteration cfg w parsed s url rest r →
  page_gets (trace (state_of r))
  = page_gets (trace s)
    ++ (if bool_decide (url ∈ visited s) || robots_denies cfg w url then [] else [url]).
Proof.
  destruct 1; simpl;
    try destruct (save_state_fields w (after_fetch w s url page evs frontier
                                         (pages_done s + 1)))
      as (_ & _ & _ & _ & _ & ->);
    simpl; rewrite ?page_gets_app; simpl;
    try (rewrite bool_decide_eq_true_2 by done; simpl; by rewrite ?app_nil_r);
    rewrite bool_decide_eq_false_2 by done; simpl;
    repeat match goal with H : robots_denies _ _ _ = _ |- _ => rewrite H; clear H end;
    try done.
  all: match goal with H : page_body _ _ _ _ _ = _ |- _ =>
         pose proof (quiet_page_body cfg w (S (tick s)) url page) as Hq;
         rewrite H in Hq; unfold quiet in Hq; simpl in Hq; by rewrite Hq end.
Qed.

End Frontier.

(** ** From the loop to the run *)

Lemma run_cases cfg w fuel ck e :
  crawl_site_to_markdown cfg w fuel ck = Some e →
  e = Failed (mkState [start_url cfg] ∅ ∅ false 0 ck 0 [])
  ∨ ∃ parsed e0,
      urlparse (start_url cfg) = Some parsed
      ∧ crawl_loop cfg w fuel parsed (init_state cfg w ck) = Some e0
      ∧ match e0 with
        | Returned s => e = finish cfg w s
        | Failed s => e = Failed s
        end.
Proof.
  unfold crawl_site_to_markdown.
  destruct (urlparse (start_url cfg)) as [parsed|]; [|intros [= <-]; by left].
  destruct (_ && _); [|intros [= <-]; by left].
  destruct (crawl_loop _ _ _ _ _) as [[s|s]|] eqn:Hloop; [| |done];
    intros [= <-]; right; exists parsed; eexists; (split; [done|]);
    (split; [exact Hloop|done]).
Qed.

Lemma finish_trace cfg w s :
  let s' := exit_state (finish cfg w s) in
  to_visit s' = to_visit s ∧ visited s' = visited s
  ∧ discovered_titles s' = discovered_titles s
  ∧ tick s' = tick s
  ∧ ∃ evs, trace s' = trace s ++ evs ∧ forallb is_index_or_save evs = true.
Proof.
  unfold finish, write_index.
  destruct (open_ok _ _ _); [|simpl; repeat split; exists []; by rewrite app_nil_r].
  destruct (index_rows cfg s) as [rows|];
    [|simpl; repeat split; exists []; by rewrite app_nil_r].
  simpl. unfold final_save, _save_state. simpl.
  destruct (checkpoint s); simpl;
    try (destruct (checkpoint_write_ok _ _); [|destruct (checkpoint_open_ok _ _)]);
    simpl; repeat split; rewrite <- ?app_assoc; eexists;
    (split; [reflexivity|done]).
Qed.

Lemma fresh_init_state cfg w ck :
  resume cfg = false →
  to_visit (init_state cfg w ck) = [start_url cfg]
  ∧ visited (init_state cfg w ck) = ∅
  ∧ discovered_titles (init_state cfg w ck) = ∅
  ∧ trace (init_state cfg w ck) = [].
Proof. intros Hres. unfold init_state. by rewrite Hres. Qed.

Lemma init_state_trace cfg w ck :
  trace (init_state cfg w ck) = [] ∧ pages_done (init_state cfg w ck) = 0%Z
  ∧ tick (init_state cfg w ck) = 0%nat
  ∧ shutdown_flag (init_state cfg w ck) = sigint w 0.
Proof. unfold init_state. by destruct (resume cfg); [destruct ck|]. Qed.

Lemma page_gets_index_or_save evs :
  forallb is_index_or_save evs = true → page_gets evs = [].
Proof.
  induction evs as [|e evs IH]; [done|]. simpl. intros [He Hevs]%andb_true_iff.
  unfold page_gets in *. simpl. rewrite (IH Hevs). by destruct e.
Qed.

(** ** What the events of an iteration are *)

Lemma count_events_app P tr1 tr2 :
  count_events P (tr1 ++ tr2) = (count_events P tr1 + count_events P tr2)%nat.
Proof. unfold count_events. by rewrite List.filter_app, length_app. Qed.

Lemma count_events_one P e :
  count_events P [e] = if P e then 1%nat else 0%nat.
Proof. unfold count_events. simpl. by destruct (P e). Qed.

Lemma robots_skips_app tr1 tr2 :
  robots_skips (tr1 ++ tr2) = robots_skips tr1 ++ robots_skips tr2.
Proof. apply omap_app. Qed.

Lemma fetched_pages_app tr1 tr2 :
  fetched_pages (tr1 ++ tr2) = fetched_pages tr1 ++ fetched_pages tr2.
Proof. apply omap_app. Qed.

Lemma asset_events_obs evs :
  forallb is_asset_event evs = true →
  robots_skips evs = [] ∧ fetched_pages evs = []
  ∧ count_events is_save_event evs = 0%nat
  ∧ count_events is_page_write evs = 0%nat.
Proof.
  induction evs as [|e evs IH]; [done|]. simpl. intros [He Hevs]%andb_true_iff.
  destruct (IH Hevs) as (H1 & H2 & H3 & H4).
  unfold robots_skips, fetched_pages, count_events in *. simpl.
  destruct e; try done; simpl; by rewrite ?H1, ?H2, ?H3, ?H4.
Qed.

Lemma page_body_obs cfg w t url page evs r :
  page_body cfg w t url page = (evs, r) →
  robots_skips evs = [] ∧ fetched_pages evs = []
  ∧ count_events is_save_event evs = 0%nat
  ∧ count_events is_page_write evs = (if r is Some _ then 1 else 0)%nat.
Proof.
  intros (evs_a & Ha & Hr)%page_body_events.
  destruct (asset_events_obs evs_a Ha) as (H1 & H2 & H3 & H4).
  destruct r as [hrefs|]; [destruct Hr as [p ->]|subst evs]; [|done].
  by rewrite robots_skips_app, fetched_pages_app, !count_events_app, H1, H2, H3, H4.
Qed.

Lemma save_state_trace w s :
  ∃ ev, trace (_save_state w s) = trace s ++ [ev] ∧ is_save_event ev = true
        ∧ pages_done (_save_state w s) = pages_done s.
Proof.
  unfold _save_state.
  destruct (checkpoint_write_ok _ _); [|destruct (checkpoint_open_ok _ _)];
    simpl; eauto.
Qed.

Section Observations.
Context (cfg : Config) (w : World) (parsed : ParseResult).

Lemma iteration_skips s url rest r :
  Iteration cfg w parsed s url rest r →
  robots_skips (trace (state_of r))
  = robots_skips (trace s)
    ++ (if bool_decide (url ∈ visited s) then []
        else if robots_denies cfg w url then [url] else []).
Proof.
  destruct 1; simpl;
    try destruct (save_state_trace w (after_fetch w s url page evs frontier
                                        (pages_done s + 1))) as (ev & -> & Hev & _);
    simpl; rewrite ?robots_skips_app; simpl;
    try (rewrite bool_decide_eq_true_2 by done; by rewrite ?app_nil_r);
    rewrite bool_decide_eq_false_2 by done;
    repeat match goal with H : robots_denies _ _ _ = _ |- _ => rewrite H; clear H end;
    try done.
  all: match goal with H : page_body _ _ _ _ _ = _ |- _ =>
         apply page_body_obs in H as (Hs & _) end;
       unfold robots_skips at 2; simpl; fold (robots_skips evs); rewrite Hs;
       try done.
  all: destruct ev; try done; simpl; by rewrite !app_nil_r.
Qed.

Lemma iteration_fetched s url rest r :
  Iteration cfg w parsed s url rest r →
  ∃ l, (l = [] ∨ l = [url])
       ∧ fetched_pages (trace (state_of r)) = fetched_pages (trace s) ++ l
       ∧ dom (discovered_titles (state_of r))
         = dom (discovered_titles s) ∪ list_to_set l.
Proof.
  destruct 1; simpl;
    try (exists []; (split; [by left|]); simpl; rewrite ?fetched_pages_app; simpl;
         by rewrite (right_id_L ∅ (∪))).
  all: exists [url]; (split; [by right|]);
    try destruct (save_state_trace w (after_fetch w s url page evs frontier
                                        (pages_done s + 1))) as (ev & -> & Hev & _);
    try destruct (save_state_fields w (after_fetch w s url page evs frontier
                                         (pages_done s + 1))) as (_ & _ & -> & _);
    simpl; rewrite ?fetched_pages_app; simpl;
    match goal with H : page_body _ _ _ _ _ = _ |- _ =>
      apply page_body_obs in H as (_ & Hf & _) end;
    unfold fetched_pages at 2; simpl; fold (fetched_pages evs); rewrite Hf;
    (split; [|rewrite dom_insert_L; simpl; rewrite (right_id_L ∅ (∪)); apply (comm_L (∪))]); try done.
  all: destruct ev; try done; simpl; by rewrite !app_nil_r.
Qed.

End Observations.

Section Clock.
Context (cfg : Config) (w : World) (parsed : ParseResult).

Lemma iteration_clock s url rest r :
  Iteration cfg w parsed s url rest r →
  tick (state_of r) = S (tick s)
  ∧ shutdown_flag (state_of r) = shutdown_flag s || sigint w (S (tick s)).
Proof.
  destruct 1; simpl; try done.
  by destruct (save_state_fields w (after_fetch w s url page evs frontier
                                      (pages_done s + 1)))
    as (_ & _ & _ & -> & -> & _).
Qed.

End Clock.

Section Saves.
Context (cfg : Config) (w : World) (parsed : ParseResult).

(** The counters after an iteration that reaches the loop condition
    again. *)
Lemma iteration_counters s url rest s' :
  Iteration cfg w parsed s url rest (Next s') →
  (pages_done s' = pages_done s
   ∧ count_events is_page_write (trace s') = count_events is_page_write (trace s)
   ∧ count_events is_save_event (trace s') = count_events is_save_event (trace s)
   ∧ fetched_pages (trace s') = fetched_pages (trace s))
  ∨ (save_every cfg ≠ 0%Z
     ∧ pages_done s' = (pages_done s + 1)%Z
     ∧ count_events is_page_write (trace s')
       = S (count_events is_page_write (trace s))
     ∧ count_events is_save_event (trace s')
       = (count_events is_save_event (trace s)
          + if bool_decide (((pages_done s + 1) mod save_every cfg)%Z = 0%Z)
            then 1 else 0)%nat).
Proof.
  inversion 1; subst; simpl.
  1-3: left; rewrite !count_events_app, fetched_pages_app; simpl;
       by rewrite !Nat.add_0_r, ?app_nil_r.
  all: right; (split; [done|]);
    match goal with H : page_body _ _ _ _ _ = _ |- _ =>
      apply page_body_obs in H as (_ & _ & Hsv & Hwr) end.
  - destruct (save_state_trace w (after_fetch w s url page evs frontier
                                    (pages_done s + 1))) as (ev & -> & Hev & ->).
    simpl. rewrite bool_decide_eq_true_2 by done.
    rewrite !count_events_app.
    change (EvGetPage url true :: evs) with ([EvGetPage url true] ++ evs).
    rewrite !count_events_app, Hsv, Hwr. unfold count_events. simpl.
    rewrite Hev. destruct ev; try done; simpl; lia.
  - rewrite bool_decide_eq_false_2 by done.
    rewrite !count_events_app.
    change (EvGetPage url true :: evs) with ([EvGetPage url true] ++ evs).
    rewrite !count_events_app, Hsv, Hwr. unfold count_events. simpl. lia.
Qed.

End Saves.


(** ** The checkpoint file during the loop *)




(** ** The hash suffix *)

Section HashSuffix.
Implicit Types (p s t : string).

Lemma hex_digit_hex x : is_hex (Sha1.hex_digit x) = true.
Proof.
  unfold Sha1.hex_digit.
  change 0xF%Z with (Z.ones 4). rewrite Z.land_ones by lia.
  assert (0 ≤ x mod 2 ^ 4 < 16)%Z as Hb by (apply Z.mod_pos_bound; lia).
  destruct (x mod 2 ^ 4)%Z as [|p|p]; [done| |lia].
  assert (p ≤ 15)%positive as Hp by lia. clear Hb.
  do 4 (destruct p as [p|p|]; try done); exfalso; lia.
Qed.

Lemma hexdigest_hex url : str_all is_hex (Sha1.hexdigest url) = true.
Proof.
  unfold Sha1.hexdigest. destruct (Sha1.digest url) as [[[[h0 h1] h2] h3] h4].
  unfold Sha1.hex8. cbn [str_all]. by rewrite !hex_digit_hex.
Qed.

Lemma str_take_app_dot s :
  str_take (String.length (s +:+ ".") - 1) (s +:+ ".") = s.
Proof.
  rewrite length_app_str. simpl. rewrite Nat.add_sub.
  induction s as [|a s IH]; simpl; [done|]. by rewrite IH.
Qed.

Lemma rsplit_at_dot_head (c : ascii) s h t :
  rsplit_at c s = Some (h, t) → ∃ n, h = n +:+ String c EmptyString.
Proof.
  revert h t. induction s as [|a s IH]; simpl; [done|]. intros h t.
  destruct (rsplit_at c s) as [[h' t']|] eqn:Hs.
  - intros [= <- <-]. destruct (IH h' t' eq_refl) as [n ->]. by exists (String a n).
  - destruct (Ascii.eqb a c) eqn:Ha; [|done]. intros [= <- <-].
    apply Ascii.eqb_eq in Ha as ->. by exists EmptyString.
Qed.

(** [name + ext == p] for [name, ext = os.path.splitext(p)] *)
Lemma splitext_eq p : (OsPath.splitext p).1 +:+ (OsPath.splitext p).2 = p.
Proof.
  unfold OsPath.splitext.
  destruct (rsplit_at "/" p) as [[d b]|] eqn:Hp.
  - apply rsplit_at_eq in Hp as ->.
    destruct (rsplit_at "." b) as [[nd after]|] eqn:Hb; simpl; [|apply app_nil_r_str].
    destruct (rsplit_at_dot_head _ _ _ _ Hb) as [n ->].
    apply rsplit_at_eq in Hb as ->. rewrite str_take_app_dot.
    destruct (str_all OsPath.is_dot n); simpl; [apply app_nil_r_str|].
    by rewrite !app_assoc_str.
  - destruct (rsplit_at "." p) as [[nd after]|] eqn:Hb; simpl; [|apply app_nil_r_str].
    destruct (rsplit_at_dot_head _ _ _ _ Hb) as [n ->].
    apply rsplit_at_eq in Hb as ->. rewrite str_take_app_dot.
    destruct (str_all OsPath.is_dot n); simpl; [apply app_nil_r_str|].
    by rewrite !app_assoc_str.
Qed.

Lemma app_tail_eq s1 s2 t1 t2 :
  String.length t1 = String.length t2 → s1 +:+ t1 = s2 +:+ t2 → t1 = t2.
Proof.
  revert s2. induction s1 as [|a s1 IH]; intros [|b s2] Hlen; simpl; try done.
  - intros ->. simpl in Hlen. rewrite length_app_str in Hlen. lia.
  - intros <-. simpl in Hlen. rewrite length_app_str in Hlen. lia.
  - intros [= _ Heq]. by apply (IH s2).
Qed.

Lemma app_head_eq s1 s2 t1 t2 :
  String.length s1 = String.length s2 → s1 +:+ t1 = s2 +:+ t2 → s1 = s2.
Proof.
  revert s2. induction s1 as [|a s1 IH]; intros [|b s2] Hlen; simpl; try done.
  intros [= -> Heq]. f_equal. apply (IH s2); [by injection Hlen|done].
Qed.

Lemma str_drop_length n s :
  String.length (str_drop n s) = (String.length s - n)%nat.
Proof. revert s. induction n as [|n IH]; intros [|a s]; simpl; auto. Qed.

(** The extension of the final component of a page path *)
Lemma page_ext_cases u :
  (OsPath.splitext (OsPath.split (page_path_uncapped u)).2).2 = ".md"
  ∨ (OsPath.splitext (OsPath.split (page_path_uncapped u)).2).2 = EmptyString.
Proof.
  destruct (page_path_md u) as [y ->].
  assert ((OsPath.split (y +:+ ".md")).2 = (OsPath.split y).2 +:+ ".md") as ->.
  { rewrite !split_snd, rsplit_at_app. simpl.
    by destruct (rsplit_at "/" y) as [[h t]|]. }
  pose proof (split_snd_free y) as Hfree.
  generalize dependent ((OsPath.split y).2). intros z Hz.
  unfold OsPath.splitext.
  assert (rsplit_at "/" (z +:+ ".md") = None) as ->.
  { apply rsplit_at_None. by rewrite has_char_app, Hz. }
  rewrite rsplit_at_app. simpl.
  destruct (str_all OsPath.is_dot _); simpl; auto.
Qed.

Lemma capped_component_free floor url last :
  has_char "/" last = false →
  has_char "/" (truncate_component floor url last) = false.
Proof.
  intros Hl. unfold truncate_component.
  pose proof (splitext_eq last) as Heq.
  destruct (OsPath.splitext last) as [name ext]. cbn [fst snd] in Heq.
  rewrite <- Heq, has_char_app in Hl. apply orb_false_iff in Hl as (Hn & He).
  rewrite !has_char_app, He, orb_false_r.
  apply orb_false_iff. split; [|apply orb_false_iff; split; [done|]].
  - apply has_char_false, str_take_all. by apply has_char_false.
  - apply has_char_false, str_take_all.
    eapply str_all_impl; [|apply hexdigest_hex].
    intros a. destruct a as [[] [] [] [] [] [] [] []]; vm_compute; congruence.
Qed.

End HashSuffix.

Lemma split_snd_id t : has_char "/" t = false → (OsPath.split t).2 = t.
Proof.
  intros Ht. rewrite split_snd.
  by apply rsplit_at_None in Ht as ->.
Qed.

Lemma hash_suffix_inj s1 s2 h1 h2 e1 e2 :
  String.length h1 = 10%nat → String.length h2 = 10%nat →
  str_all is_hex h1 = true → str_all is_hex h2 = true →
  e1 = ".md" ∨ e1 = EmptyString → e2 = ".md" ∨ e2 = EmptyString →
  s1 +:+ "__" +:+ h1 +:+ e1 = s2 +:+ "__" +:+ h2 +:+ e2 → h1 = h2.
Proof.
  intros Hlen1 Hlen2 Hx1 Hx2 He1 He2.
  rewrite <- !app_assoc_str.
  destruct He1 as [->| ->], He2 as [->| ->]; rewrite ?app_nil_r_str; intros Heq.
  - rewrite (app_assoc_str (s1 +:+ "__") h1), (app_assoc_str (s2 +:+ "__") h2) in Heq.
    apply app_tail_eq in Heq; [|rewrite !length_app_str; simpl; lia].
    eapply app_head_eq; [|exact Heq]. lia.
  - exfalso. rewrite <- (str_take_drop 3 h1) in Heq, Hx1.
    rewrite <- (app_assoc_str (s1 +:+ "__")) in Heq.
    rewrite (app_assoc_str _ (str_drop 3 h1) ".md") in Heq.
    apply app_tail_eq in Heq.
    2: { rewrite !length_app_str, str_drop_length. simpl. lia. }
    rewrite <- Heq in Hx2.
    rewrite str_all_app in Hx2. apply andb_true_iff in Hx2 as (_ & Hx2).
    discriminate Hx2.
  - exfalso. rewrite <- (str_take_drop 3 h2) in Heq, Hx2.
    rewrite <- (app_assoc_str (s2 +:+ "__")) in Heq.
    rewrite (app_assoc_str _ (str_drop 3 h2) ".md") in Heq.
    apply app_tail_eq in Heq.
    2: { rewrite !length_app_str, str_drop_length. simpl. lia. }
    rewrite Heq in Hx1.
    rewrite str_all_app in Hx1. apply andb_true_iff in Hx1 as (_ & Hx1).
    discriminate Hx1.
  - eapply app_tail_eq; [|exact Heq]. lia.
Qed.

(** Two capped page paths with different hash digits are different. *)
Lemma capped_page_paths_differ url1 url2 u1 u2 :
  (200 < String.length (OsPath.split (page_path_uncapped u1)).2)%nat →
  (200 < String.length (OsPath.split (page_path_uncapped u2)).2)%nat →
  str_take 10 (Sha1.hexdigest url1) ≠ str_take 10 (Sha1.hexdigest url2) →
  cap_last_component 16 url1 (page_path_uncapped u1)
  ≠ cap_last_component 16 url2 (page_path_uncapped u2).
Proof.
  intros Hl1 Hl2 Hh Heq. apply Hh. clear Hh.
  apply (f_equal (λ p, (OsPath.split p).2)) in Heq. revert Heq.
  unfold cap_last_component.
  pose proof (split_snd_free (page_path_uncapped u1)) as Hf1.
  pose proof (split_snd_free (page_path_uncapped u2)) as Hf2.
  pose proof (page_ext_cases u1) as He1.
  pose proof (page_ext_cases u2) as He2.
  destruct (OsPath.split (page_path_uncapped u1)) as [d1 l1].
  destruct (OsPath.split (page_path_uncapped u2)) as [d2 l2].
  cbn [fst snd] in *.
  apply Nat.ltb_lt in Hl1, Hl2. unfold max_component_len. rewrite Hl1, Hl2.
  rewrite !split_snd_join, !split_snd_id by by apply capped_component_free.
  unfold truncate_component.
  destruct (OsPath.splitext l1) as [n1 e1], (OsPath.splitext l2) as [n2 e2].
  cbn [fst snd] in *.
  pose proof (hash_prefix_length url1) as Hlen1.
  pose proof (hash_prefix_length url2) as Hlen2.
  assert (str_all is_hex (str_take 10 (Sha1.hexdigest url1)) = true) as Hx1
    by apply str_take_all, hexdigest_hex.
  assert (str_all is_hex (str_take 10 (Sha1.hexdigest url2)) = true) as Hx2
    by apply str_take_all, hexdigest_hex.
  generalize dependent (str_take 10 (Sha1.hexdigest url1)). intros h1 Hlen1 Hx1.
  generalize dependent (str_take 10 (Sha1.hexdigest url2)). intros h2 Hlen2 Hx2.
  rewrite Hlen1, Hlen2.
  repeat match goal with |- context [str_take ?k ?n] =>
    generalize (str_take k n); intros ? end.
  by apply hash_suffix_inj.
Qed.


(* ===================================================================== *)
(** * The claims *)
(* ===================================================================== *)

(** ** C1: termination and the page budget *)

(** C1, counterexample.  A run resumed from a checkpoint that lists three
    visited URLs, with a page budget of two: the loop is not entered, and
    the run returns with three URLs in [visited]. *)
Lemma visited_over_budget_after_resume :
  ∃ s, crawl_site_to_markdown (Scenario.plain Scenario.home 2 true)
         (Scenario.calm Scenario.allow_all Scenario.no_site) 0
         Scenario.three_visited = Some (Returned s)
       ∧ (max_pages (Scenario.plain Scenario.home 2 true)
          < Z.of_nat (size (visited s)))%Z.
Proof. eexists. split; [vm_compute; reflexivity|]. vm_compute. reflexivity. Qed.

(** C1.  For every configuration, environment and checkpoint file the run
    ends (some amount of fuel gives a result).  [visited] then has at most
    [max (max_pages) (its size when the loop was entered)] elements; when
    the function returns, the frontier is empty, or the size of [visited]
    has reached [max_pages], or the shutdown flag is set; no URL was fetched
    twice by the main loop; and the condition of the [while] is false
    exactly in the three cases named. *)
Theorem crawl_terminates_within_budget (cfg : Config) (w : World)
  (ck : CheckpointFile) :
  ∃ fuel e,
    crawl_site_to_markdown cfg w fuel ck = Some e
    ∧ (Z.of_nat (size (visited (exit_state e)))
       ≤ Z.max (max_pages cfg)
               (Z.of_nat (size (visited (init_state cfg w ck)))))%Z
    ∧ (∀ s, e = Returned s →
         to_visit s = [] ∨ (max_pages cfg ≤ Z.of_nat (size (visited s)))%Z
         ∨ shutdown_flag s = true)
    ∧ NoDup (page_gets (trace (exit_state e)))
    ∧ (∀ s, loop_cond cfg s = false ↔
         to_visit s = [] ∨ (max_pages cfg ≤ Z.of_nat (size (visited s)))%Z
         ∨ shutdown_flag s = true).
Proof.
  unfold crawl_site_to_markdown.
  destruct (urlparse (start_url cfg)) as [parsed|];
    [destruct (makedirs_ok w 0 (output_dir cfg) && makedirs_ok w 0 (assets_dir cfg))|].
  2,3: exists 0%nat; eexists; split; [reflexivity|];
       cbn [exit_state visited trace]; rewrite size_empty;
       repeat split; try lia; try done;
       try apply NoDup_nil_2; try apply loop_cond_false.
  destruct (crawl_loop_total cfg w parsed (init_state cfg w ck)) as (fuel & e0 & He0).
  set (bound := Z.max (max_pages cfg) (Z.of_nat (size (visited (init_state cfg w ck))))).
  pose (Inv := λ s : State,
    (Z.of_nat (size (visited s)) ≤ bound)%Z
    ∧ NoDup (page_gets (trace s))
    ∧ ∀ u, u ∈ page_gets (trace s) → u ∈ visited s).
  destruct (crawl_loop_invariant cfg w parsed Inv) with (fuel := fuel)
    (s := init_state cfg w ck) (e := e0) as ((Hb & Hnd & _) & Hexit); [| |done|].
  { intros s Hc (Hb & Hnd & Hsub).
    apply loop_cond_true in Hc as (Hne & Hlt & _).
    destruct (to_visit s) as [|url rest] eqn:Hto; [done|].
    pose proof (step_visited cfg w parsed s url rest Hto) as Hvis.
    pose proof (step_page_gets cfg w parsed s url rest Hto) as Hgets.
    unfold Inv. rewrite Hvis, Hgets.
    destruct (decide (url ∈ visited s)) as [Hin|Hnin].
    - rewrite bool_decide_eq_true_2 by done. simpl. rewrite app_nil_r. done.
    - rewrite bool_decide_eq_false_2 by done. simpl.
      rewrite size_add_fresh by done. split; [unfold bound; lia|].
      destruct (robots_denies cfg w url).
      + rewrite app_nil_r. split; [done|]. intros u Hu.
        apply elem_of_union_r. auto.
      + split.
        * apply NoDup_app. split; [done|]. split; [|apply NoDup_singleton].
          intros u Hu Hu'. apply list_elem_of_singleton in Hu' as ->. auto.
        * intros u [Hu|Hu]%elem_of_app; [apply elem_of_union_r; auto|].
          apply list_elem_of_singleton in Hu as ->.
          by apply elem_of_union_l, elem_of_singleton. }
  { unfold Inv. split; [unfold bound; lia|].
    unfold init_state. destruct (resume cfg); [destruct ck|]; simpl;
      (split; [apply NoDup_nil_2 | intros u Hu; by apply elem_of_nil in Hu]). }
  exists fuel. rewrite He0. destruct e0 as [s|s]; simpl in *.
  - eexists; split; [reflexivity|].
    destruct (finish_fields cfg w s) as (Hto & Hv & Hf & Hp).
    rewrite Hv, Hp. split; [done|]. split; [|split; [done|apply loop_cond_false]].
    intros s' He. rewrite He in Hto, Hv, Hf. simpl in *. rewrite Hto, Hv, Hf.
    apply loop_cond_false. by apply Hexit.
  - eexists; split; [reflexivity|]. simpl. repeat split; try done; try apply loop_cond_false.
Qed.

(** ** C2: checkpoint round trip *)

Lemma dict_update_alt (d : list (string * string)) :
  ∀ m, dict_update m d = list_to_map (reverse d) ∪ m.
Proof.
  unfold dict_update. induction d as [|[k v] d IH]; intros m; simpl.
  - by rewrite (left_id_L ∅ (∪)).
  - rewrite IH, reverse_cons, list_to_map_app. simpl.
    rewrite <- (assoc_L (∪)). f_equal.
    rewrite insert_union_singleton_l.
    by rewrite insert_empty.
Qed.

(** C2.  When [_save_state] succeeds in state [s], a run started with
    [resume] on the file it wrote enters its loop with the frontier, the
    visited set and the title index of [s]. *)
Theorem checkpoint_round_trip (cfg : Config) (w w' : World) (s : State) :
  checkpoint_write_ok w (tick s) = true →
  resume cfg = true →
  to_visit (init_state cfg w' (checkpoint (_save_state w s))) = to_visit s
  ∧ visited (init_state cfg w' (checkpoint (_save_state w s))) = visited s
  ∧ discovered_titles (init_state cfg w' (checkpoint (_save_state w s)))
    = discovered_titles s.
Proof.
  intros Hok Hres. unfold _save_state, init_state. rewrite Hok, Hres. simpl.
  split; [done|]. split.
  - apply list_to_set_elements_L.
  - rewrite dict_update_alt, (right_id_L ∅ (∪)).
    rewrite <- (list_to_map_to_list (discovered_titles s)) at 2.
    apply list_to_map_proper.
    + rewrite reverse_Permutation. apply NoDup_fst_map_to_list.
    + apply reverse_Permutation.
Qed.

(** C2, witness: the round trip of a state in the middle of a run. *)
Lemma checkpoint_round_trip_witness :
  to_visit (init_state (Scenario.plain Scenario.home 500 true)
              (Scenario.calm Scenario.allow_all Scenario.no_site)
              (checkpoint (_save_state
                             (Scenario.calm Scenario.allow_all Scenario.small_site)
                             Scenario.midway)))
  = to_visit Scenario.midway
  ∧ visited (init_state (Scenario.plain Scenario.home 500 true)
               (Scenario.calm Scenario.allow_all Scenario.no_site)
               (checkpoint (_save_state
                              (Scenario.calm Scenario.allow_all Scenario.small_site)
                              Scenario.midway)))
    = visited Scenario.midway
  ∧ discovered_titles
      (init_state (Scenario.plain Scenario.home 500 true)
         (Scenario.calm Scenario.allow_all Scenario.no_site)
         (checkpoint (_save_state
                        (Scenario.calm Scenario.allow_all Scenario.small_site)
                        Scenario.midway)))
    = discovered_titles Scenario.midway.
Proof.
  apply (checkpoint_round_trip (Scenario.plain Scenario.home 500 true)
           (Scenario.calm Scenario.allow_all Scenario.small_site)
           (Scenario.calm Scenario.allow_all Scenario.no_site) Scenario.midway);
    reflexivity.
Defined.

(** ** C3: the final save *)




(** ** C4: the robots gate *)

(** C4, counterexample.  On the small site with [/private] disallowed, the
    about page links to [/private/x].  The gate denies that URL at link
    discovery; the run ends, and the URL is not in [visited]. *)
Lemma denied_link_is_not_marked_visited :
  ∃ s, crawl_site_to_markdown (Scenario.plain Scenario.home 500 false)
         (Scenario.calm Scenario.no_private Scenario.small_site) 10 Absent
       = Some (Returned s)
     ∧ urljoin "https://example.com/about" "/private/x"
       = Some "https://example.com/private/x"
     ∧ robots_denies (Scenario.plain Scenario.home 500 false)
         (Scenario.calm Scenario.no_private Scenario.small_site)
         "https://example.com/private/x" = true
     ∧ "https://example.com/private/x" ∉ visited s.
Proof.
  eexists. split; [vm_compute; reflexivity|].
  split; [vm_compute; reflexivity|]. split; [vm_compute; reflexivity|].
  eapply (bool_decide_eq_false_1 _). vm_compute. reflexivity.
Qed.

(** C4.  A URL that the gate denies when it is dequeued is added to
    [visited] and skipped without a fetch.  A link whose canonical form the
    gate denies at discovery leaves the frontier as it was, and it is not
    added to [visited]: an iteration adds to [visited] the URL it dequeued
    and no other, so that at the end of a run [visited] holds, besides what
    the start-up put there, only URLs that the loop dequeued and then
    fetched or skipped.  And in every run, the main loop fetches only URLs
    that the gate allows. *)
Theorem robots_denied_pages_are_never_fetched (cfg : Config) (w : World) :
  (∀ parsed s url rest,
     to_visit s = url :: rest → url ∉ visited s →
     robots_denies cfg w url = true →
     ∃ s', step cfg w parsed s = Next s'
           ∧ visited s' = {[url]} ∪ visited s
           ∧ to_visit s' = rest
           ∧ trace s' = trace s ++ [EvRobotsSkip url])
  ∧ (∀ base_netloc base_scheme url seen frontier href new_url p,
       urljoin url href = Some new_url → urlparse new_url = Some p →
       robots_denies cfg w (normalized_of base_scheme p) = true →
       consider_link cfg w base_netloc base_scheme url seen frontier href
       = Some frontier)
  ∧ (∀ parsed s url rest u,
       to_visit s = url :: rest →
       u ∈ visited (state_of (step cfg w parsed s)) →
       u = url ∨ u ∈ visited s)
  ∧ (∀ fuel ck e u,
       crawl_site_to_markdown cfg w fuel ck = Some e →
       u ∈ visited (exit_state e) →
       u ∈ visited (init_state cfg w ck)
       ∨ u ∈ page_gets (trace (exit_state e))
       ∨ u ∈ robots_skips (trace (exit_state e)))
  ∧ (∀ fuel ck e u,
       crawl_site_to_markdown cfg w fuel ck = Some e →
       u ∈ page_gets (trace (exit_state e)) →
       robots_denies cfg w u = false).
Proof.
  split; [|split; [|split; [|split]]].
  - intros parsed s url rest Hto Hnin Hden. unfold step.
    rewrite Hto, bool_decide_eq_false_2, Hden by done.
    eexists. split; [reflexivity|]. done.
  - intros bn bs url seen frontier href new_url p Hj Hp Hden.
    unfold consider_link. destruct (negb (_is_valid_href (Some href))); [done|].
    rewrite Hj, Hp. destruct (negb (String.eqb (netloc p) bn)); [done|].
    by rewrite Hden.
  - intros parsed s url rest u Hto.
    rewrite (step_visited cfg w parsed s url rest Hto).
    destruct (bool_decide (url ∈ visited s)); [by right|].
    intros [->%elem_of_singleton|Hu]%elem_of_union; auto.
  - intros fuel ck e u Hrun.
    apply run_cases in Hrun as [->|(parsed & e0 & _ & Hloop & He)].
    { intros Hu. by apply not_elem_of_empty in Hu. }
    pose (Inv := λ s : State,
      ∀ u, u ∈ visited s →
           u ∈ visited (init_state cfg w ck)
           ∨ u ∈ page_gets (trace s) ∨ u ∈ robots_skips (trace s)).
    assert (∀ s url rest r, Inv s → to_visit s = url :: rest →
              Iteration cfg w parsed s url rest r → Inv (state_of r)) as Hstep.
    { intros s url rest r HI Hto Hit v.
      rewrite (iteration_visited cfg w parsed s url rest r Hit),
        (iteration_page_gets cfg w parsed s url rest r Hit),
        (iteration_skips cfg w parsed s url rest r Hit).
      rewrite !elem_of_app.
      destruct (decide (url ∈ visited s)) as [Hin|Hnin].
      - rewrite !bool_decide_eq_true_2 by done. intros Hv.
        destruct (HI v Hv) as [?|[?|?]]; auto.
      - rewrite !bool_decide_eq_false_2 by done. simpl.
        intros [->%elem_of_singleton|Hv]%elem_of_union.
        + destruct (robots_denies cfg w url);
            rewrite list_elem_of_singleton; auto.
        + destruct (HI v Hv) as [?|[?|?]]; auto. }
    assert (Inv (init_state cfg w ck)) as Hinit by (intros v Hv; by left).
    pose proof (crawl_loop_exits cfg w parsed Inv Inv
                  (λ s url rest s' _ HI Hto Hit, Hstep s url rest (Next s') HI Hto Hit)
                  (λ s url rest s' _ HI Hto Hit, Hstep s url rest (Raised s') HI Hto Hit)
                  fuel _ e0 Hinit Hloop) as Hexit.
    destruct e0 as [s|s]; subst e; [|apply Hexit].
    destruct Hexit as (HI & _).
    destruct (finish_trace cfg w s) as (_ & -> & _ & _ & evs & -> & Hevs).
    rewrite page_gets_app, robots_skips_app, !elem_of_app. intros Hu.
    destruct (HI u Hu) as [?|[?|?]]; auto.
  - intros fuel ck e u. unfold crawl_site_to_markdown.
    destruct (urlparse (start_url cfg)) as [parsed|];
      [|intros [= <-] Hu; by apply elem_of_nil in Hu].
    destruct (_ && _); [|intros [= <-] Hu; by apply elem_of_nil in Hu].
    destruct (crawl_loop cfg w fuel parsed (init_state cfg w ck)) as [e0|] eqn:Hrun; [|done].
    assert (∀ u, u ∈ page_gets (trace (exit_state e0)) → robots_denies cfg w u = false) as HI.
    { eapply robots_invariant; [|exact Hrun].
      intros u0. unfold init_state.
      destruct (resume cfg); [destruct ck|]; simpl; intros Hu; by apply elem_of_nil in Hu. }
    destruct e0 as [s|s]; intros [= <-]; [|apply HI].
    destruct (finish_fields cfg w s) as (_ & _ & _ & ->). apply HI.
Qed.

(** C4, witness: a private page at the head of the frontier. *)
Lemma robots_denied_pages_are_never_fetched_witness :
  ∃ s', step (Scenario.plain Scenario.home 500 false)
          (Scenario.calm Scenario.no_private Scenario.small_site)
          Scenario.home_parsed Scenario.private_queued = Next s'
        ∧ visited s'
          = {["https://example.com/private/x"]} ∪ visited Scenario.private_queued
        ∧ to_visit s' = []
        ∧ trace s'
          = trace Scenario.private_queued
            ++ [EvRobotsSkip "https://example.com/private/x"].
Proof.
  destruct (robots_denied_pages_are_never_fetched
              (Scenario.plain Scenario.home 500 false)
              (Scenario.calm Scenario.no_private Scenario.small_site))
    as (Hdequeue & _).
  apply (Hdequeue Scenario.home_parsed Scenario.private_queued
           "https://example.com/private/x" []).
  - reflexivity.
  - apply not_elem_of_empty.
  - vm_compute. reflexivity.
Defined.

(** ** C5: a page document that cannot be written *)

(** C5.  The home page links to [/a.md], [/a.md/b] and [/c].  The page of
    [/a.md] is written to the file [a.md]; the page of [/a.md/b] belongs in
    [a.md/b.md], and [os.makedirs] fails on a directory named like that
    file.  The exception leaves [crawl_site_to_markdown]: [/c] stays in the
    frontier and is never fetched. *)
Lemma page_write_error_ends_the_run :
  ∃ s, crawl_site_to_markdown (Scenario.plain Scenario.home 500 false)
         Scenario.file_in_the_way 10 Absent
       = Some (Failed s)
     ∧ to_visit s = ["https://example.com/c"]
     ∧ page_gets (trace s)
       = ["https://example.com/"; "https://example.com/a.md";
          "https://example.com/a.md/b"]
     ∧ _safe_filename_from_url Scenario.home "https://example.com/a.md"
       = Some "a.md"
     ∧ _safe_filename_from_url Scenario.home "https://example.com/a.md/b"
       = Some "a.md/b.md".
Proof.
  eexists. split; [vm_compute; reflexivity|].
  repeat split; vm_compute; reflexivity.
Qed.

(** ** C6: the cap on path components *)

(** C6, counterexample.  A directory of 201 characters in the URL path is a
    directory of 201 characters in the local path.  Two different URLs
    whose final component is too long, and whose SHA-1 digests start with
    the same ten digits, get the same local path.  And so do a URL whose
    final component is too long and the URL that spells out the path
    derived from it, although their digests start differently. *)
Lemma directory_component_is_not_capped :
  (_safe_filename_from_url Scenario.home Scenario.long_dir_url
   = Some (repeat_char "a" 201 +:+ "/x.md")
   ∧ components (repeat_char "a" 201 +:+ "/x.md") = [repeat_char "a" 201; "x.md"]
   ∧ (200 < String.length (repeat_char "a" 201))%nat)
  ∧ (Scenario.twin_url_1 ≠ Scenario.twin_url_2
     ∧ _safe_filename_from_url Scenario.home Scenario.twin_url_1
       = Some (repeat_char "a" 184 +:+ "__937d96be4a.md")
     ∧ _safe_filename_from_url Scenario.home Scenario.twin_url_2
       = Some (repeat_char "a" 184 +:+ "__937d96be4a.md"))
  ∧ (Scenario.twin_url_1 ≠ Scenario.spelled_out_url
     ∧ _safe_filename_from_url Scenario.home Scenario.spelled_out_url
       = Some (repeat_char "a" 184 +:+ "__937d96be4a.md")
     ∧ str_take 10 (Sha1.hexdigest Scenario.twin_url_1) = "937d96be4a"
     ∧ str_take 10 (Sha1.hexdigest Scenario.spelled_out_url) = "f94ff4e655").
Proof.
  split; [repeat split; vm_compute; reflexivity|].
  split.
  - split; [|split; vm_compute; reflexivity].
    intros H. apply (f_equal String.length) in H. vm_compute in H. discriminate.
  - split; [|repeat split; vm_compute; reflexivity].
    intros H. apply (f_equal String.length) in H. vm_compute in H. discriminate.
Qed.

(** C6.  The final component of every page path has at most 200
    characters.  So has the final component of an asset path, when the
    extension of the asset's file name has at most 180.  When the final
    component derived from a URL has more than 200 characters,
    [_safe_filename_from_url] and [_safe_asset_path] keep the directory
    part and replace the final component by a prefix of its name (187
    characters less the length of the extension, and at least 16 for a
    page, 8 for an asset), two underscores, the first ten hexadecimal
    digits of the SHA-1 of that URL, and its extension.  Two URLs whose
    page paths are both cut in this way get different paths when their ten
    digits differ. *)
Theorem final_component_is_capped :
  (∀ base url p,
     _safe_filename_from_url base url = Some p →
     (String.length (OsPath.split p).2 ≤ 200)%nat)
  ∧ (∀ assets_dir base url u local_path,
       urlparse url = Some u →
       (String.length
          (OsPath.splitext (OsPath.split (asset_path_uncapped u)).2).2 ≤ 180)%nat →
       _safe_asset_path assets_dir base url = Some local_path →
       (String.length (OsPath.split local_path).2 ≤ 200)%nat)
  ∧ (∀ base url u p,
       urlparse url = Some u →
       _safe_filename_from_url base url = Some p →
       (200 < String.length (OsPath.split (page_path_uncapped u)).2)%nat →
       p = OsPath.join (OsPath.split (page_path_uncapped u)).1
             (str_take
                (Z.to_nat
                   (Z.max 16
                      (187 - Z.of_nat
                               (String.length
                                  (OsPath.splitext
                                     (OsPath.split (page_path_uncapped u)).2).2))))
                (OsPath.splitext (OsPath.split (page_path_uncapped u)).2).1
              +:+ "__" +:+ str_take 10 (Sha1.hexdigest url)
              +:+ (OsPath.splitext (OsPath.split (page_path_uncapped u)).2).2))
  ∧ (∀ assets_dir base url u local_path,
       urlparse url = Some u →
       _safe_asset_path assets_dir base url = Some local_path →
       (200 < String.length (OsPath.split (asset_path_uncapped u)).2)%nat →
       local_path
       = OsPath.join3 assets_dir (netloc u)
           (OsPath.join (OsPath.split (asset_path_uncapped u)).1
              (str_take
                 (Z.to_nat
                    (Z.max 8
                       (187 - Z.of_nat
                                (String.length
                                   (OsPath.splitext
                                      (OsPath.split (asset_path_uncapped u)).2).2))))
                 (OsPath.splitext (OsPath.split (asset_path_uncapped u)).2).1
               +:+ "__" +:+ str_take 10 (Sha1.hexdigest url)
               +:+ (OsPath.splitext (OsPath.split (asset_path_uncapped u)).2).2)))
  ∧ (∀ url, String.length (str_take 10 (Sha1.hexdigest url)) = 10%nat)
  ∧ (∀ base url1 url2 u1 u2 p1 p2,
       urlparse url1 = Some u1 → urlparse url2 = Some u2 →
       _safe_filename_from_url base url1 = Some p1 →
       _safe_filename_from_url base url2 = Some p2 →
       (200 < String.length (OsPath.split (page_path_uncapped u1)).2)%nat →
       (200 < String.length (OsPath.split (page_path_uncapped u2)).2)%nat →
       str_take 10 (Sha1.hexdigest url1) ≠ str_take 10 (Sha1.hexdigest url2) →
       p1 ≠ p2).
Proof.
  assert (∀ floor url p,
    (200 < String.length (OsPath.split p).2)%nat →
    cap_last_component floor url p
    = OsPath.join (OsPath.split p).1
        (str_take
           (Z.to_nat
              (Z.max floor
                 (187 - Z.of_nat
                          (String.length
                             (OsPath.splitext (OsPath.split p).2).2))))
           (OsPath.splitext (OsPath.split p).2).1
         +:+ "__" +:+ str_take 10 (Sha1.hexdigest url)
         +:+ (OsPath.splitext (OsPath.split p).2).2)) as Hcap.
  { intros floor url p Hlen. unfold cap_last_component, truncate_component.
    destruct (OsPath.split p) as [dirpart last]. cbn [fst snd] in *.
    apply Nat.ltb_lt in Hlen. unfold max_component_len. rewrite Hlen.
    destruct (OsPath.splitext last) as [name ext]. cbn [fst snd].
    rewrite hash_prefix_length. f_equal. f_equal. f_equal.
    destruct (_ <? floor)%Z eqn:Hlt;
      [apply Z.ltb_lt in Hlt | apply Z.ltb_ge in Hlt]; lia. }
  split; [|split; [|split; [|split; [|split]]]].
  - intros base url p. unfold _safe_filename_from_url.
    destruct (urlparse base); [|done]. destruct (urlparse url) as [u|]; [|done].
    intros [= <-]. apply cap_last_component_length; [lia|].
    intros _. pose proof (page_last_component_ext u). lia.
  - intros ad base url u lp Hu Hext. unfold _safe_asset_path. rewrite Hu.
    intros [= <-]. unfold OsPath.join3. rewrite split_snd_join.
    apply cap_last_component_length; [lia|]. intros _. lia.
  - intros base url u p Hu. unfold _safe_filename_from_url. rewrite Hu.
    destruct (urlparse base); [|done]. intros [= <-] Hlen. by apply Hcap.
  - intros ad base url u lp Hu. unfold _safe_asset_path. rewrite Hu.
    intros [= <-] Hlen. f_equal. by apply Hcap.
  - apply hash_prefix_length.
  - intros base url1 url2 u1 u2 p1 p2 Hu1 Hu2.
    unfold _safe_filename_from_url. rewrite Hu1, Hu2.
    destruct (urlparse base); [|done]. intros [= <-] [= <-] Hl1 Hl2 Hh.
    by apply capped_page_paths_differ.
Qed.

(** C6, witness: the page path of a URL whose last segment has 205
    characters. *)
Lemma final_component_is_capped_witness :
  (String.length (OsPath.split (repeat_char "a" 184 +:+ "__937d96be4a.md")).2
   ≤ 200)%nat
  ∧ repeat_char "a" 184 +:+ "__937d96be4a.md"
    = OsPath.join ""
        (str_take 184 (repeat_char "a" 200 +:+ "d9e76") +:+ "__"
         +:+ str_take 10 (Sha1.hexdigest Scenario.twin_url_1) +:+ ".md").
Proof.
  destruct final_component_is_capped as (Hpage & _ & Hshape & _).
  split.
  - apply (Hpage Scenario.home Scenario.twin_url_1). vm_compute. reflexivity.
  - apply (Hshape Scenario.home Scenario.twin_url_1
             (mkParseResult "https" "example.com"
                (String "/" (repeat_char "a" 200 +:+ "d9e76")) "" "" "")).
    + vm_compute. reflexivity.
    + vm_compute. reflexivity.
    + vm_compute. lia.
Defined.

(** ** C7: links that are not pages *)

(** A link that [_is_valid_href] rejects leaves the frontier as it was. *)
Lemma rejected_href_is_not_enqueued cfg w base_netloc base_scheme url seen
  frontier href :
  _is_valid_href (Some href) = false →
  consider_link cfg w base_netloc base_scheme url seen frontier href
  = Some frontier.
Proof. intros H. unfold consider_link. by rewrite H. Qed.

(** C7.  The link [/style.css?v=2] passes [_is_valid_href], although the
    path of its URL, [/style.css], matches [IGNORED_EXTENSIONS]: the pattern
    is applied to the text of the [href], which ends with the query.  Link
    discovery puts the URL on the frontier, and the run fetches it as a
    page. *)
Lemma stylesheet_with_query_is_enqueued :
  _is_valid_href (Some "/style.css?v=2") = true
  ∧ consider_link (Scenario.plain Scenario.home 500 false)
      (Scenario.calm Scenario.allow_all Scenario.small_site)
      "example.com" "https" Scenario.home ∅ [] "/style.css?v=2"
    = Some ["https://example.com/style.css?v=2"]
  ∧ option_map path (urlparse "https://example.com/style.css?v=2")
    = Some "/style.css"
  ∧ IGNORED_EXTENSIONS "/style.css" = true
  ∧ ∃ s, crawl_site_to_markdown (Scenario.plain Scenario.home 500 false)
           (Scenario.calm Scenario.allow_all Scenario.small_site) 10 Absent
         = Some (Returned s)
       ∧ "https://example.com/style.css?v=2" ∈ page_gets (trace s).
Proof.
  repeat split; try (vm_compute; reflexivity).
  eexists. split; [vm_compute; reflexivity|].
  eapply (bool_decide_eq_true_1 _). vm_compute. reflexivity.
Qed.

(** ** C8: canonical URLs *)

(** C8.  In a crawl started at [seed]: the canonical form of a URL with a
    network location parses to the URL's scheme (the seed's when it has
    none), its network location, its path (["/"] when it has none) and its
    query, with neither parameters nor fragment, and is its own canonical
    form; a URL without a path and a URL with the path ["/"], equal in
    scheme, network location and query, have the same canonical form; and so
    have a URL and the same URL followed by a fragment. *)
Theorem normalization_is_idempotent (seed : string) (b : ParseResult) :
  urlparse seed = Some b →
  (∀ u p c,
     urlparse u = Some p → netloc p ≠ EmptyString →
     canonical seed u = Some c →
     urlparse c
     = Some (mkParseResult (or_else (scheme p) (scheme b)) (netloc p)
               (or_else (path p) "/") "" (query p) "")
     ∧ canonical seed c = Some c)
  ∧ (∀ u1 u2 p1 p2,
       urlparse u1 = Some p1 → urlparse u2 = Some p2 →
       scheme p1 = scheme p2 → netloc p1 = netloc p2 → query p1 = query p2 →
       path p1 = EmptyString → path p2 = "/" →
       canonical seed u1 = canonical seed u2)
  ∧ (∀ u f,
       has_char "#" u = false →
       canonical seed (u +:+ String "#" f) = canonical seed u).
Proof.
  intros Hb. split; [|split; [|intros u f; apply canonical_ignores_fragment]].
  - intros u p c Hu HN. unfold canonical at 1. rewrite Hb, Hu. simpl.
    intros [= <-].
    pose proof (urlparse_ok _ _ Hb) as (Hbs & _).
    apply urlparse_ok in Hu as (Hps & Hok & Hpar).
    set (sch := or_else (scheme p) (scheme b)).
    set (pth := or_else (path p) "/").
    assert (scheme_ok sch) as HS.
    { unfold sch, or_else. revert Hps. destruct (scheme p); cbn [is_empty]; auto. }
    assert (startswith "/" pth = true) as HP.
    { unfold pth, or_else. destruct (path_rooted _ _ _ Hok HN) as [->|Hr]; [done|].
      by destruct (path p). }
    assert (split_ok (netloc p) pth (query p)) as Hok'.
    { unfold pth, or_else. destruct (path p); cbn [is_empty]; [|done].
      destruct Hok as [? ? ? ? ? ? _ ? ?]. split; try done. intros _. by right. }
    assert (in_list sch uses_params = true →
            has_char ";" pth = false ∨ _splitparams pth = (pth, EmptyString)) as Hpar'.
    { unfold sch, pth, or_else. destruct (path p) as [|p0 p'] eqn:Hpath; cbn [is_empty]; [by left|].
      destruct (scheme p) as [|s0 s'] eqn:Hsch; cbn [is_empty]; [|done].
      intros _. by apply Hpar. }
    unfold normalized_of. fold sch pth.
    pose proof (urlparse_canonical sch (netloc p) pth (query p) HS Hok' HN HP Hpar')
      as Hparse.
    split; [exact Hparse|].
    unfold canonical. rewrite Hb, Hparse. simpl. unfold normalized_of. simpl.
    f_equal. f_equal.
    + unfold sch, or_else. destruct (scheme p); [|done]. by destruct (scheme b).
    + unfold or_else. by destruct pth.
  - intros u1 u2 p1 p2 H1 H2 Hs Hn Hq Hp1 Hp2. unfold canonical.
    rewrite Hb, H1, H2. simpl. unfold normalized_of.
    by rewrite Hs, Hn, Hq, Hp1, Hp2.
Qed.

(** C8, witness: the canonical form of [HTTPS://example.com/about#team] in a
    crawl of [https://example.com/]. *)
Lemma normalization_is_idempotent_witness :
  urlparse "https://example.com/about"
  = Some (mkParseResult "https" "example.com" "/about" "" "" "")
  ∧ canonical Scenario.home "https://example.com/about"
    = Some "https://example.com/about".
Proof.
  destruct (normalization_is_idempotent Scenario.home Scenario.home_parsed)
    as (Hidem & _); [vm_compute; reflexivity|].
  apply (Hidem "HTTPS://example.com/about#team"
           (mkParseResult "https" "example.com" "/about" "" "" "team")).
  - vm_compute. reflexivity.
  - discriminate.
  - vm_compute. reflexivity.
Defined.

(** ** C9: the seed *)

(** C9.  In a run that does not resume, the first iteration leaves exactly
    the text of the seed in [visited]; its canonical form, when different,
    is not there.  And there is a run that fetches the seed and then its
    canonical form. *)
Theorem seed_is_visited_verbatim :
  (∀ cfg w ck parsed c,
     resume cfg = false →
     loop_cond cfg (init_state cfg w ck) = true →
     canonical (start_url cfg) (start_url cfg) = Some c →
     c ≠ start_url cfg →
     visited (state_of (step cfg w parsed (init_state cfg w ck)))
     = {[start_url cfg]}
     ∧ c ∉ visited (state_of (step cfg w parsed (init_state cfg w ck))))
  ∧ (∃ s,
       crawl_site_to_markdown (Scenario.plain "https://example.com" 500 false)
         (Scenario.calm Scenario.allow_all Scenario.bare_seed_site)
         10 Absent = Some (Returned s)
       ∧ canonical "https://example.com" "https://example.com"
         = Some "https://example.com/"
       ∧ page_gets (trace s) = ["https://example.com"; "https://example.com/"]).
Proof.
  split.
  - intros cfg w ck parsed c Hres _ _ Hne.
    assert (to_visit (init_state cfg w ck) = [start_url cfg]
            ∧ visited (init_state cfg w ck) = ∅) as (Hto & Hv).
    { unfold init_state. by rewrite Hres. }
    rewrite (step_visited cfg w parsed _ _ _ Hto), Hv.
    rewrite bool_decide_eq_false_2 by apply not_elem_of_empty.
    rewrite (right_id_L ∅ (∪)). split; [done|].
    intros Hin%elem_of_singleton. done.
  - eexists. split; [vm_compute; reflexivity|].
    split; vm_compute; reflexivity.
Qed.

(** C9, witness: the seed [https://example.com]. *)
Lemma seed_is_visited_verbatim_witness :
  visited (state_of (step (Scenario.plain "https://example.com" 500 false)
                       (Scenario.calm Scenario.allow_all Scenario.bare_seed_site)
                       Scenario.home_parsed
                       (init_state (Scenario.plain "https://example.com" 500 false)
                          (Scenario.calm Scenario.allow_all Scenario.bare_seed_site)
                          Absent)))
  = {["https://example.com"]}
  ∧ "https://example.com/"
    ∉ visited (state_of (step (Scenario.plain "https://example.com" 500 false)
                           (Scenario.calm Scenario.allow_all Scenario.bare_seed_site)
                           Scenario.home_parsed
                           (init_state
                              (Scenario.plain "https://example.com" 500 false)
                              (Scenario.calm Scenario.allow_all
                                 Scenario.bare_seed_site)
                              Absent))).
Proof.
  destruct seed_is_visited_verbatim as (Hfirst & _).
  apply (Hfirst (Scenario.plain "https://example.com" 500 false)
           (Scenario.calm Scenario.allow_all Scenario.bare_seed_site) Absent
           Scenario.home_parsed "https://example.com/").
  - reflexivity.
  - vm_compute. reflexivity.
  - vm_compute. reflexivity.
  - discriminate.
Defined.

(** ** C10: assets *)

(** C10.  In an iteration that fetches a page and reaches the end of the
    loop body, every [src] and [href] of the page that [_is_asset_link]
    accepts, and that does not resolve to a [data:] URI, is fetched at its
    resolved URL; when that fetch succeeds and the local file can be
    opened, the asset is written.  Neither the network location of the
    seed nor the robots policy is consulted. *)
Theorem assets_are_fetched_ungated (cfg : Config) (w : World)
  (parsed : ParseResult) (s s' : State) (url : string) (rest : list string)
  (page : Page) (ref abs : string) :
  to_visit s = url :: rest →
  url ∉ visited s →
  robots_denies cfg w url = false →
  http_get w (S (tick s)) url = Some page →
  ref ∈ imgs page ++ anchors page →
  _is_asset_link ref = true →
  urljoin url ref = Some abs →
  startswith "data:" abs = false →
  step cfg w parsed s = Next s' →
  EvGetAsset abs (bool_decide (is_Some (http_get w (S (tick s)) abs))) ∈ trace s'
  ∧ ∀ local_path,
      is_Some (http_get w (S (tick s)) abs) →
      _safe_asset_path (assets_dir cfg) url abs = Some local_path →
      open_ok w (S (tick s)) local_path = true →
      EvWriteAsset local_path ∈ trace s'.
Proof.
  intros Hto Hnin Hrob Hget Hmem Hasset Hjoin Hdata Hstep.
  assert (∃ evs hrefs, page_body cfg w (S (tick s)) url page = (evs, Some hrefs)
                       ∧ ∀ e, e ∈ evs → e ∈ trace s') as (evs & hrefs & Hbody & Hsub).
  { revert Hstep. unfold step. rewrite Hto, bool_decide_eq_false_2, Hrob, Hget by done.
    destruct (page_body cfg w (S (tick s)) url page) as [evs [hrefs|]]; [|done].
    destruct (discover_links _ _ _ _ _ _ _ _); [|done].
    destruct (save_every cfg =? 0)%Z; [done|].
    exists evs, hrefs. split; [done|]. revert Hstep.
    destruct (_ mod _ =? 0)%Z; intros [= <-]; intros e He.
    - unfold _save_state.
      destruct (checkpoint_write_ok _ _); [|destruct (checkpoint_open_ok _ _)];
        simpl; apply elem_of_app; left; apply elem_of_app; right;
        by apply list_elem_of_further.
    - simpl. apply elem_of_app; right. by apply list_elem_of_further. }
  unfold page_body in Hbody.
  apply bind_Some_inv in Hbody as (evs1 & out1 & evs' & Himgs & Hbody & ->).
  apply bind_Some_inv in Hbody as (evs2 & out2 & evs3 & Hancs & _ & ->).
  assert (∃ evs0 r, download_ref cfg w (bool_decide (ref ∈ imgs page)) (S (tick s)) url ref = (evs0, Some r)
                    ∧ ∀ e, e ∈ evs0 → e ∈ trace s') as (evs0 & r & Hd & Hsub0).
  { destruct (decide (ref ∈ imgs page)) as [Hi|Hi].
    - rewrite bool_decide_eq_true_2 by done.
      destruct (download_refs_events cfg w true _ _ _ _ _ _ Himgs ref Hi) as (evs0 & r & Hd & Hs).
      exists evs0, r. split; [done|]. intros e He. apply Hsub.
      apply elem_of_app; left. auto.
    - rewrite bool_decide_eq_false_2 by done.
      apply elem_of_app in Hmem as [?|Ha]; [done|].
      destruct (download_refs_events cfg w false _ _ _ _ _ _ Hancs ref Ha) as (evs0 & r & Hd & Hs).
      exists evs0, r. split; [done|]. intros e He. apply Hsub.
      apply elem_of_app; right. apply elem_of_app; left. auto. }
  apply download_ref_asset_events in Hd as (r' & Hd); [|done].
  destruct (download_asset_events cfg w _ _ _ _ _ _ Hjoin Hdata Hd) as (H1 & H2).
  split; [by apply Hsub0|]. intros lp ? ? ?. apply Hsub0. by apply H2.
Qed.

(** C10, witness: the logo of the home page lives on another host, and the
    robots policy denies it; it is fetched and written all the same. *)
Lemma assets_are_fetched_ungated_witness :
  robots_denies (Scenario.plain Scenario.home 500 false)
    (Scenario.calm Scenario.home_only Scenario.cdn_site) Scenario.logo_url = true
  ∧ option_map netloc (urlparse Scenario.logo_url) = Some "cdn.other.com"
  ∧ ∃ s',
      step (Scenario.plain Scenario.home 500 false)
        (Scenario.calm Scenario.home_only Scenario.cdn_site) Scenario.home_parsed
        (init_state (Scenario.plain Scenario.home 500 false)
           (Scenario.calm Scenario.home_only Scenario.cdn_site) Absent)
      = Next s'
      ∧ EvGetAsset Scenario.logo_url true ∈ trace s'
      ∧ EvWriteAsset "site_markdown/assets/cdn.other.com/secret/logo.png"
        ∈ trace s'.
Proof.
  split; [vm_compute; reflexivity|]. split; [vm_compute; reflexivity|].
  eexists. split; [vm_compute; reflexivity|].
  match goal with |- _ ∈ trace ?s' ∧ _ =>
    destruct (assets_are_fetched_ungated (Scenario.plain Scenario.home 500 false)
                (Scenario.calm Scenario.home_only Scenario.cdn_site)
                Scenario.home_parsed
                (init_state (Scenario.plain Scenario.home 500 false)
                   (Scenario.calm Scenario.home_only Scenario.cdn_site) Absent)
                s' Scenario.home [] (mkPage (Some "Home") [Scenario.logo_url] [])
                Scenario.logo_url Scenario.logo_url) as (Hget & Hwrite)
  end.
  - reflexivity.
  - apply not_elem_of_empty.
  - vm_compute. reflexivity.
  - vm_compute. reflexivity.
  - apply list_elem_of_here.
  - vm_compute. reflexivity.
  - vm_compute. reflexivity.
  - vm_compute. reflexivity.
  - vm_compute. reflexivity.
  - split; [exact Hget|]. apply Hwrite.
    + by eexists.
    + vm_compute. reflexivity.
    + reflexivity.
Defined.
(* ===================================================================== *)
(** * Further properties of the code *)
(* ===================================================================== *)

(** ** The frontier *)

Lemma urlparse_normalized seed b u p :
  urlparse seed = Some b → urlparse u = Some p → netloc p ≠ EmptyString →
  urlparse (normalized_of (scheme b) p)
  = Some (mkParseResult (or_else (scheme p) (scheme b)) (netloc p)
            (or_else (path p) "/") "" (query p) "")
  ∧ startswith "/" (or_else (path p) "/") = true.
Proof.
  intros Hb Hu HN.
  apply urlparse_ok in Hb as (Hbs & _).
  apply urlparse_ok in Hu as (Hps & Hok & Hpar).
  set (sch := or_else (scheme p) (scheme b)).
  set (pth := or_else (path p) "/").
  assert (scheme_ok sch) as HS.
  { unfold sch, or_else. revert Hps. destruct (scheme p); cbn [is_empty]; auto. }
  assert (startswith "/" pth = true) as HP.
  { unfold pth, or_else. destruct (path_rooted _ _ _ Hok HN) as [->|Hr]; [done|].
    by destruct (path p). }
  assert (split_ok (netloc p) pth (query p)) as Hok'.
  { unfold pth, or_else. destruct (path p); cbn [is_empty]; [|done].
    destruct Hok as [? ? ? ? ? ? _ ? ?]. split; try done. intros _. by right. }
  assert (in_list sch uses_params = true →
          has_char ";" pth = false ∨ _splitparams pth = (pth, EmptyString)) as Hpar'.
  { unfold sch, pth, or_else. destruct (path p) as [|p0 p'] eqn:Hpath; cbn [is_empty]; [by left|].
    destruct (scheme p) as [|s0 s'] eqn:Hsch; cbn [is_empty]; [|done].
    intros _. by apply Hpar. }
  split; [|done]. unfold normalized_of. fold sch pth.
  by apply urlparse_canonical.
Qed.

Lemma link_target_on_host cfg w seed parsed url hrefs u :
  urlparse seed = Some parsed → netloc parsed ≠ EmptyString →
  link_target cfg w (netloc parsed) (scheme parsed) url hrefs u →
  on_host seed (netloc parsed) u.
Proof.
  intros Hb HN (href & new_url & p & _ & _ & _ & Hp & Hn & -> & _).
  right. rewrite <- Hn in HN.
  destruct (urlparse_normalized seed parsed new_url p Hb Hp HN) as (Hparse & Hroot).
  rewrite Hn in Hparse. eauto.
Qed.

(** ** The crawl stays on the host of the seed *)

(** X1.  In a run that does not resume, started at a URL with a network
    location, every URL the main loop fetches as a page is the seed itself
    or a URL that [urlparse] splits into the network location of the seed,
    a rooted path, no parameters and no fragment. *)
Theorem fetched_pages_are_on_the_seed_host (cfg : Config) (w : World)
  (fuel : nat) (ck : CheckpointFile) (parsed : ParseResult) (e : Exit) :
  resume cfg = false →
  urlparse (start_url cfg) = Some parsed →
  netloc parsed ≠ EmptyString →
  crawl_site_to_markdown cfg w fuel ck = Some e →
  ∀ u, u ∈ page_gets (trace (exit_state e)) →
       on_host (start_url cfg) (netloc parsed) u.
Proof.
  intros Hres Hparsed HN Hrun.
  apply run_cases in Hrun as [->|(parsed' & e0 & Hp' & Hloop & He)].
  { intros u Hu. by apply elem_of_nil in Hu. }
  rewrite Hparsed in Hp'. injection Hp' as <-.
  pose (Inv := λ s : State,
    (∀ u, u ∈ to_visit s → on_host (start_url cfg) (netloc parsed) u)
    ∧ (∀ u, u ∈ page_gets (trace s) → on_host (start_url cfg) (netloc parsed) u)).
  assert (∀ s url rest r, Inv s → to_visit s = url :: rest →
            Iteration cfg w parsed s url rest r → Inv (state_of r)) as Hstep.
  { intros s url rest r (Hq & Hg) Hto Hit.
    destruct (iteration_frontier cfg w parsed s url rest r Hit)
      as (new & Hto' & _ & Hnew & _).
    split.
    - rewrite Hto'. intros u [Hu|Hu]%elem_of_app.
      + apply Hq. rewrite Hto. by apply list_elem_of_further.
      + destruct (Hnew u Hu) as (_ & _ & hrefs & Ht).
        by eapply link_target_on_host.
    - rewrite (iteration_page_gets cfg w parsed s url rest r Hit).
      intros u [Hu|Hu]%elem_of_app; [auto|].
      destruct (_ || _); [by apply elem_of_nil in Hu|].
      apply list_elem_of_singleton in Hu as ->. apply Hq. rewrite Hto.
      apply list_elem_of_here. }
  assert (Inv (init_state cfg w ck)) as Hinit.
  { destruct (fresh_init_state cfg w ck Hres) as (Hto & _ & _ & Htr).
    split; [rewrite Hto | rewrite Htr]; intros u Hu.
    - apply list_elem_of_singleton in Hu as ->. by left.
    - by apply elem_of_nil in Hu. }
  pose proof (crawl_loop_exits cfg w parsed Inv Inv
                (λ s url rest s' _ HI Hto Hit, Hstep s url rest (Next s') HI Hto Hit)
                (λ s url rest s' _ HI Hto Hit, Hstep s url rest (Raised s') HI Hto Hit)
                fuel _ e0 Hinit Hloop) as Hexit.
  destruct e0 as [s|s]; subst e.
  - destruct Hexit as ((_ & Hg) & _).
    destruct (finish_trace cfg w s) as (_ & _ & _ & _ & evs & -> & Hevs).
    rewrite page_gets_app, (page_gets_index_or_save evs Hevs), app_nil_r. exact Hg.
  - exact (proj2 Hexit).
Qed.

(** X1, witness: the crawl of the small site. *)
Lemma fetched_pages_are_on_the_seed_host_witness :
  on_host Scenario.home "example.com" "https://example.com/about".
Proof.
  eapply (fetched_pages_are_on_the_seed_host
            (Scenario.plain Scenario.home 500 false)
            (Scenario.calm Scenario.allow_all Scenario.small_site) 10 Absent
            Scenario.home_parsed).
  - reflexivity.
  - vm_compute. reflexivity.
  - discriminate.
  - vm_compute. reflexivity.
  - vm_compute. apply list_elem_of_further, list_elem_of_here.
Defined.

(** ** The frontier holds new URLs only *)

(** X2.  In a run that does not resume, the frontier never lists a URL
    twice and never lists a visited URL: this holds of the state in which
    the run ends. *)
Theorem frontier_holds_new_urls_only (cfg : Config) (w : World) (fuel : nat)
  (ck : CheckpointFile) (e : Exit) :
  resume cfg = false →
  crawl_site_to_markdown cfg w fuel ck = Some e →
  NoDup (to_visit (exit_state e))
  ∧ ∀ u, u ∈ to_visit (exit_state e) → u ∉ visited (exit_state e).
Proof.
  intros Hres Hrun.
  apply run_cases in Hrun as [->|(parsed & e0 & _ & Hloop & He)].
  { simpl. split; [apply NoDup_singleton|]. intros u _. apply not_elem_of_empty. }
  pose (Inv := λ s : State,
    NoDup (to_visit s) ∧ ∀ u, u ∈ to_visit s → u ∉ visited s).
  assert (∀ s url rest r, Inv s → to_visit s = url :: rest →
            Iteration cfg w parsed s url rest r → Inv (state_of r)) as Hstep.
  { intros s url rest r (Hnd & Hdis) Hto Hit.
    destruct (iteration_frontier cfg w parsed s url rest r Hit)
      as (new & Hto' & Hnew_nd & Hnew & _).
    rewrite Hto in Hnd, Hdis. apply NoDup_cons in Hnd as (Hurl & Hrest).
    unfold Inv. rewrite Hto', (iteration_visited cfg w parsed s url rest r Hit).
    split.
    - apply NoDup_app. split; [done|]. split; [|done].
      intros u Hu Hu'. by destruct (Hnew u Hu') as (_ & ? & _).
    - intros u [Hu|Hu]%elem_of_app.
      + assert (u ∉ visited s) by (by apply Hdis, list_elem_of_further).
        destruct (bool_decide _); [done|].
        intros [->%elem_of_singleton|?]%elem_of_union; done.
      + destruct (Hnew u Hu) as (Hseen & _).
        destruct (bool_decide _); [|done].
        intros Hv. apply Hseen. by apply elem_of_union_r. }
  assert (Inv (init_state cfg w ck)) as Hinit.
  { destruct (fresh_init_state cfg w ck Hres) as (Hto & Hv & _).
    unfold Inv. rewrite Hto, Hv. split; [apply NoDup_singleton|].
    intros u _. apply not_elem_of_empty. }
  pose proof (crawl_loop_exits cfg w parsed Inv Inv
                (λ s url rest s' _ HI Hto Hit, Hstep s url rest (Next s') HI Hto Hit)
                (λ s url rest s' _ HI Hto Hit, Hstep s url rest (Raised s') HI Hto Hit)
                fuel _ e0 Hinit Hloop) as Hexit.
  destruct e0 as [s|s]; subst e.
  - destruct Hexit as (HI & _).
    destruct (finish_trace cfg w s) as (-> & -> & _). exact HI.
  - exact Hexit.
Qed.

(** X2, witness: the crawl of the small site. *)
Lemma frontier_holds_new_urls_only_witness :
  ∃ e, crawl_site_to_markdown (Scenario.plain Scenario.home 1 false)
         (Scenario.calm Scenario.allow_all Scenario.small_site) 10 Absent
       = Some e
       ∧ NoDup (to_visit (exit_state e))
       ∧ ∀ u, u ∈ to_visit (exit_state e) → u ∉ visited (exit_state e).
Proof.
  eexists. split; [vm_compute; reflexivity|].
  eapply (frontier_holds_new_urls_only
            (Scenario.plain Scenario.home 1 false)
            (Scenario.calm Scenario.allow_all Scenario.small_site) 10 Absent).
  - reflexivity.
  - vm_compute. reflexivity.
Defined.

(** X3.  An iteration takes the first URL off the frontier and appends
    what it discovers: the URLs already queued keep their places, and the
    appended ones are new (not visited, not queued, pairwise distinct).
    Nothing is appended when the URL was visited before, is denied by the
    robots policy or cannot be fetched. *)
Theorem frontier_is_a_queue (cfg : Config) (w : World) (parsed : ParseResult)
  (s : State) (url : string) (rest : list string) :
  to_visit s = url :: rest →
  ∃ new,
    to_visit (state_of (step cfg w parsed s)) = rest ++ new
    ∧ NoDup new
    ∧ (∀ u, u ∈ new → u ≠ url ∧ (u ∉ visited s) ∧ (u ∉ rest))
    ∧ (url ∈ visited s ∨ robots_denies cfg w url = true
       ∨ http_get w (S (tick s)) url = None → new = []).
Proof.
  intros Hto. pose proof (step_iteration cfg w parsed s url rest Hto) as Hit.
  destruct (iteration_frontier cfg w parsed s url rest _ Hit)
    as (new & Hto' & Hnd & Hnew & Hget).
  exists new. split; [done|]. split; [done|]. split.
  - intros u Hu. destruct (Hnew u Hu) as (Hseen & Hrest & _).
    split; [|split; [|done]].
    + intros ->. apply Hseen. by apply elem_of_union_l, elem_of_singleton.
    + intros Hv. apply Hseen. by apply elem_of_union_r.
  - intros Hskip. destruct new as [|u new]; [done|]. exfalso.
    destruct Hget as (Hnv & Hr & page & Hpage); [done|].
    destruct Hskip as [?|[?|?]]; congruence.
Qed.

(** X3, witness: the first iteration of the crawl of the small site. *)
Lemma frontier_is_a_queue_witness :
  ∃ new,
    to_visit (state_of (step (Scenario.plain Scenario.home 500 false)
                          (Scenario.calm Scenario.allow_all Scenario.small_site)
                          Scenario.home_parsed Scenario.midway))
    = ["https://example.com/contact"] ++ new.
Proof.
  destruct (frontier_is_a_queue (Scenario.plain Scenario.home 500 false)
              (Scenario.calm Scenario.allow_all Scenario.small_site)
              Scenario.home_parsed Scenario.midway
              "https://example.com/about" ["https://example.com/contact"])
    as (new & Hnew & _); [reflexivity|].
  by exists new.
Defined.

(** ** The visited set and the title index *)

(** X4.  In a run that does not resume, the visited set is exactly the set
    of URLs the main loop fetched (with or without success) or skipped on
    account of the robots policy, and the title index has an entry exactly
    for the URLs whose fetch succeeded. *)
Theorem visited_is_fetched_or_skipped (cfg : Config) (w : World) (fuel : nat)
  (ck : CheckpointFile) (e : Exit) :
  resume cfg = false →
  crawl_site_to_markdown cfg w fuel ck = Some e →
  (∀ u, u ∈ visited (exit_state e)
        ↔ u ∈ page_gets (trace (exit_state e))
          ∨ u ∈ robots_skips (trace (exit_state e)))
  ∧ (∀ u, u ∈ dom (discovered_titles (exit_state e))
          ↔ u ∈ fetched_pages (trace (exit_state e))).
Proof.
  intros Hres Hrun.
  apply run_cases in Hrun as [->|(parsed & e0 & _ & Hloop & He)].
  { simpl. split; intros u; rewrite ?dom_empty_L; split.
    - intros Hu. by apply not_elem_of_empty in Hu.
    - intros [Hu|Hu]; by apply elem_of_nil in Hu.
    - intros Hu. by apply not_elem_of_empty in Hu.
    - intros Hu. by apply elem_of_nil in Hu. }
  pose (Inv := λ s : State,
    (∀ u, u ∈ visited s ↔ u ∈ page_gets (trace s) ∨ u ∈ robots_skips (trace s))
    ∧ (∀ u, u ∈ dom (discovered_titles s) ↔ u ∈ fetched_pages (trace s))).
  assert (∀ s url rest r, Inv s → to_visit s = url :: rest →
            Iteration cfg w parsed s url rest r → Inv (state_of r)) as Hstep.
  { intros s url rest r (Hv & Ht) Hto Hit. split; intros u.
    - rewrite (iteration_visited cfg w parsed s url rest r Hit),
        (iteration_page_gets cfg w parsed s url rest r Hit),
        (iteration_skips cfg w parsed s url rest r Hit).
      rewrite !elem_of_app.
      destruct (decide (url ∈ visited s)) as [Hin|Hnin].
      + rewrite !bool_decide_eq_true_2 by done. simpl. rewrite Hv.
        rewrite !elem_of_nil. tauto.
      + rewrite !bool_decide_eq_false_2 by done. simpl.
        rewrite elem_of_union, elem_of_singleton, Hv.
        destruct (robots_denies cfg w url);
          rewrite ?list_elem_of_singleton, ?elem_of_nil; tauto.
    - destruct (iteration_fetched cfg w parsed s url rest r Hit) as (l & _ & -> & ->).
      rewrite elem_of_union, elem_of_list_to_set, elem_of_app, Ht. tauto. }
  assert (Inv (init_state cfg w ck)) as Hinit.
  { destruct (fresh_init_state cfg w ck Hres) as (_ & Hv & Ht & Htr).
    unfold Inv. rewrite Hv, Ht, Htr. split; intros u; rewrite ?dom_empty_L; split.
    - intros Hu. by apply not_elem_of_empty in Hu.
    - intros [Hu|Hu]; by apply elem_of_nil in Hu.
    - intros Hu. by apply not_elem_of_empty in Hu.
    - intros Hu. by apply elem_of_nil in Hu. }
  pose proof (crawl_loop_exits cfg w parsed Inv Inv
                (λ s url rest s' _ HI Hto Hit, Hstep s url rest (Next s') HI Hto Hit)
                (λ s url rest s' _ HI Hto Hit, Hstep s url rest (Raised s') HI Hto Hit)
                fuel _ e0 Hinit Hloop) as Hexit.
  destruct e0 as [s|s]; subst e; [|exact Hexit].
  destruct Hexit as ((Hv & Ht) & _).
  destruct (finish_trace cfg w s) as (_ & -> & -> & _ & evs & -> & Hevs).
  assert (robots_skips evs = [] ∧ fetched_pages evs = []) as (Hs & Hf).
  { clear -Hevs. induction evs as [|ev evs IH]; [done|]. simpl in Hevs.
    apply andb_true_iff in Hevs as (Hev & Hevs). specialize (IH Hevs).
    by destruct ev. }
  rewrite page_gets_app, robots_skips_app, fetched_pages_app,
    (page_gets_index_or_save evs Hevs), Hs, Hf, !app_nil_r. done.
Qed.

(** X4, witness: the crawl of the small site under [Disallow: /private]. *)
Lemma visited_is_fetched_or_skipped_witness :
  ∃ e, crawl_site_to_markdown (Scenario.plain Scenario.home 500 false)
         (Scenario.calm Scenario.no_private Scenario.small_site) 10 Absent
       = Some e
       ∧ ("https://example.com/about" ∈ visited (exit_state e)
          ↔ "https://example.com/about" ∈ page_gets (trace (exit_state e))
            ∨ "https://example.com/about" ∈ robots_skips (trace (exit_state e))).
Proof.
  eexists. split; [vm_compute; reflexivity|].
  eapply (proj1 (visited_is_fetched_or_skipped
                   (Scenario.plain Scenario.home 500 false)
                   (Scenario.calm Scenario.no_private Scenario.small_site) 10
                   Absent _ _ _)).
  Unshelve.
  - reflexivity.
  - vm_compute. reflexivity.
Defined.

(** ** The index *)

Lemma index_rows_spec cfg s rows :
  index_rows cfg s = Some rows →
  row_urls rows = merge_sort String.le (elements (dom (discovered_titles s)))
  ∧ ∀ t u f, (t, u, f) ∈ rows →
      t = default EmptyString (discovered_titles s !! u)
      ∧ _safe_filename_from_url (start_url cfg) u = Some f.
Proof.
  unfold index_rows. intros H%mapM_Some_1.
  induction H as [|url row l k Hrow _ IH]; [split; [done|]|].
  { intros t u f Hin. by apply elem_of_nil in Hin. }
  destruct IH as (IH1 & IH2).
  destruct (_safe_filename_from_url (start_url cfg) url) as [fp|] eqn:Hfp; [|done].
  simpl in Hrow. injection Hrow as <-. split.
  - simpl. by rewrite IH1.
  - intros t u f [Heq|Hin]%elem_of_cons; [|by apply IH2].
    by injection Heq as -> -> ->.
Qed.

(** X5.  When the run returns, it has written the index, with one row for
    each URL of the title index: the rows are sorted by URL, no URL has two
    rows, and a row holds the title recorded for the URL and the path
    [_safe_filename_from_url] derives from it. *)
Theorem index_has_one_sorted_row_per_title (cfg : Config) (w : World)
  (fuel : nat) (ck : CheckpointFile) (s : State) :
  crawl_site_to_markdown cfg w fuel ck = Some (Returned s) →
  ∃ rows,
    EvWriteIndex rows ∈ trace s
    ∧ (∀ u, u ∈ row_urls rows ↔ u ∈ dom (discovered_titles s))
    ∧ NoDup (row_urls rows)
    ∧ Sorted String.le (row_urls rows)
    ∧ ∀ t u f, (t, u, f) ∈ rows →
        discovered_titles s !! u = Some t
        ∧ _safe_filename_from_url (start_url cfg) u = Some f.
Proof.
  intros Hrun.
  apply run_cases in Hrun as [?|(parsed & e0 & _ & Hloop & He)]; [done|].
  destruct e0 as [s0|s0]; [|done].
  unfold finish, write_index in He.
  destruct (open_ok _ _ _); [|done].
  destruct (index_rows cfg s0) as [rows|] eqn:Hrows; [|done].
  injection He as ->. exists rows.
  assert (EvWriteIndex rows ∈ trace (final_save w (log [EvWriteIndex rows] s0))
          ∧ discovered_titles (final_save w (log [EvWriteIndex rows] s0))
            = discovered_titles s0) as (Htr & ->).
  { unfold final_save, _save_state. simpl.
    destruct (checkpoint s0); simpl;
      try (destruct (checkpoint_write_ok _ _); [|destruct (checkpoint_open_ok _ _)]);
      simpl; (split; [|done]); rewrite !elem_of_app, !list_elem_of_singleton; auto. }
  apply index_rows_spec in Hrows as (Hurls & Hrow).
  assert (∀ u, u ∈ row_urls rows ↔ u ∈ dom (discovered_titles s0)) as Hdom.
  { intros u. by rewrite Hurls, merge_sort_Permutation, elem_of_elements. }
  split; [done|].
  split; [done|]. split.
  { rewrite Hurls, merge_sort_Permutation. apply NoDup_elements. }
  split.
  { rewrite Hurls. apply (Sorted_merge_sort _). }
  intros t u f Hin. destruct (Hrow t u f Hin) as (-> & Hf). split; [|done].
  assert (u ∈ row_urls rows) as Hu.
  { unfold row_urls. apply list_elem_of_In, in_map_iff. exists (default EmptyString (discovered_titles s0 !! u), u, f).
    split; [done|]. by apply list_elem_of_In. }
  apply Hdom, elem_of_dom in Hu as [t Ht]. by rewrite Ht.
Qed.

(** X5, witness: the index of the crawl of the small site. *)
Lemma index_has_one_sorted_row_per_title_witness :
  ∃ s rows,
    crawl_site_to_markdown (Scenario.plain Scenario.home 500 false)
      (Scenario.calm Scenario.allow_all Scenario.small_site) 10 Absent
    = Some (Returned s)
    ∧ EvWriteIndex rows ∈ trace s
    ∧ Sorted String.le (row_urls rows).
Proof.
  eexists.
  edestruct (index_has_one_sorted_row_per_title
               (Scenario.plain Scenario.home 500 false)
               (Scenario.calm Scenario.allow_all Scenario.small_site) 10 Absent)
    as (rows & Hin & _ & _ & Hsorted & _); [vm_compute; reflexivity|].
  exists rows. split; [vm_compute; reflexivity|]. done.
Defined.

(** ** Runs that do not enter the loop *)



(** ** Shutdown *)

(** X7.  When SIGINT is delivered during iteration [t] (or, for [t = 0],
    before the loop is reached), the loop is left at the end of that
    iteration at the latest: the run makes at most [t] iterations and
    fetches at most [t] pages. *)
Theorem sigint_ends_the_loop (cfg : Config) (w : World) (fuel : nat)
  (ck : CheckpointFile) (e : Exit) (t : nat) :
  sigint w t = true →
  crawl_site_to_markdown cfg w fuel ck = Some e →
  (tick (exit_state e) ≤ t)%nat
  ∧ (length (page_gets (trace (exit_state e))) ≤ t)%nat.
Proof.
  intros Hsig Hrun.
  apply run_cases in Hrun as [->|(parsed & e0 & _ & Hloop & He)].
  { simpl. lia. }
  pose (Post := λ s : State,
    (tick s ≤ t)%nat ∧ (length (page_gets (trace s)) ≤ tick s)%nat).
  pose (Inv := λ s : State, Post s ∧ (tick s = t → shutdown_flag s = true)).
  assert (∀ s url rest r, loop_cond cfg s = true → Inv s →
            to_visit s = url :: rest →
            Iteration cfg w parsed s url rest r → Inv (state_of r)) as Hstep.
  { intros s url rest r Hc ((Ht & Hg) & Hflag) Hto Hit.
    apply loop_cond_true in Hc as (_ & _ & Hf).
    assert (tick s ≠ t) by (intros Heq; rewrite (Hflag Heq) in Hf; done).
    destruct (iteration_clock cfg w parsed s url rest r Hit) as (Htick & Hsf).
    unfold Inv, Post.
    rewrite Htick, Hsf, (iteration_page_gets cfg w parsed s url rest r Hit),
      length_app.
    split; [split; [lia|]|].
    - destruct (bool_decide (url ∈ visited s) || robots_denies cfg w url);
        simpl; lia.
    - intros <-. by rewrite Hsig, orb_true_r. }
  assert (Inv (init_state cfg w ck)) as Hinit.
  { destruct (init_state_trace cfg w ck) as (Htr & _ & Htick & Hf).
    unfold Inv, Post. rewrite Htr, Htick, Hf. simpl.
    split; [lia|]. by intros <-. }
  pose proof (crawl_loop_exits cfg w parsed Inv Post
                (λ s url rest s' Hc HI Hto Hit,
                   Hstep s url rest (Next s') Hc HI Hto Hit)
                (λ s url rest s' Hc HI Hto Hit,
                   proj1 (Hstep s url rest (Raised s') Hc HI Hto Hit))
                fuel _ e0 Hinit Hloop) as Hexit.
  destruct e0 as [s|s]; subst e.
  - destruct Hexit as (((Ht & Hg) & _) & _).
    destruct (finish_trace cfg w s) as (_ & _ & _ & -> & evs & -> & Hevs).
    rewrite page_gets_app, (page_gets_index_or_save evs Hevs), app_nil_r. lia.
  - destruct Hexit. simpl. lia.
Qed.

(** X7, witness: SIGINT during the first iteration of the crawl of the
    small site. *)
Lemma sigint_ends_the_loop_witness :
  ∃ e, crawl_site_to_markdown (Scenario.plain Scenario.home 500 false)
         (Scenario.interrupted_at 1
            (Scenario.calm Scenario.allow_all Scenario.small_site)) 10 Absent
       = Some e
       ∧ (tick (exit_state e) ≤ 1)%nat
       ∧ (length (page_gets (trace (exit_state e))) ≤ 1)%nat.
Proof.
  eexists. split; [vm_compute; reflexivity|].
  eapply (sigint_ends_the_loop (Scenario.plain Scenario.home 500 false)
            (Scenario.interrupted_at 1
            (Scenario.calm Scenario.allow_all Scenario.small_site)) 10 Absent).
  - reflexivity.
  - vm_compute. reflexivity.
Defined.

(** ** Checkpoint saves *)

(** X8.  With [save_every = 0] the run cannot get past its first page: a
    run that returns has fetched no page successfully, and a run that ends
    with an exception has fetched at most one. *)
Theorem zero_save_every_ends_the_run (cfg : Config) (w : World) (fuel : nat)
  (ck : CheckpointFile) (e : Exit) :
  save_every cfg = 0%Z →
  crawl_site_to_markdown cfg w fuel ck = Some e →
  (length (fetched_pages (trace (exit_state e))) ≤ 1)%nat
  ∧ ∀ s, e = Returned s → fetched_pages (trace s) = [].
Proof.
  intros Hzero Hrun.
  apply run_cases in Hrun as [->|(parsed & e0 & _ & Hloop & He)].
  { simpl. split; [lia|done]. }
  pose proof (crawl_loop_exits cfg w parsed
                (λ s, fetched_pages (trace s) = [])
                (λ s, (length (fetched_pages (trace s)) ≤ 1)%nat)) as Hexit.
  specialize (Hexit) with (fuel := fuel) (s := init_state cfg w ck) (e := e0).
  destruct e0 as [s|s]; subst e.
  - destruct Hexit as (Hf & _); try done.
    + intros s0 url rest s' _ HI _ Hit.
      destruct (iteration_counters cfg w parsed s0 url rest s' Hit)
        as [(_ & _ & _ & ->)|(? & _)]; done.
    + intros s0 url rest s' _ HI _ Hit.
      destruct (iteration_fetched cfg w parsed s0 url rest _ Hit) as (l & Hl & Hf' & _).
      simpl in Hf'. rewrite Hf', HI. destruct Hl as [->| ->]; simpl; lia.
    + by destruct (init_state_trace cfg w ck) as (-> & _).
    + destruct (finish_trace cfg w s) as (_ & _ & _ & _ & evs & Htr & Hevs).
      assert (fetched_pages evs = []) as Hnone.
      { clear -Hevs. induction evs as [|ev evs IH]; [done|]. simpl in Hevs.
        apply andb_true_iff in Hevs as (Hev & Hevs). specialize (IH Hevs).
        by destruct ev. }
      assert (fetched_pages (trace (exit_state (finish cfg w s))) = []) as Hall.
      { by rewrite Htr, fetched_pages_app, Hf, Hnone. }
      rewrite Hall. split; [simpl; lia|]. intros s' Hs'. by rewrite Hs' in Hall.
  - simpl. split; [|done]. apply Hexit; try done.
    + intros s0 url rest s' _ HI _ Hit.
      destruct (iteration_counters cfg w parsed s0 url rest s' Hit)
        as [(_ & _ & _ & ->)|(? & _)]; done.
    + intros s0 url rest s' _ HI _ Hit.
      destruct (iteration_fetched cfg w parsed s0 url rest _ Hit) as (l & Hl & Hf' & _).
      simpl in Hf'. rewrite Hf', HI. destruct Hl as [->| ->]; simpl; lia.
    + by destruct (init_state_trace cfg w ck) as (-> & _).
Qed.

(** X8, witness: the crawl of the small site with [--save-every 0]. *)
Lemma zero_save_every_ends_the_run_witness :
  ∃ s, crawl_site_to_markdown
         (mkConfig Scenario.home "site_markdown" 500 true "web-crawling-bot/1.0"
            false 0)
         (Scenario.calm Scenario.allow_all Scenario.small_site) 10 Absent
       = Some (Failed s)
       ∧ (length (fetched_pages (trace s)) ≤ 1)%nat.
Proof.
  eexists. split; [vm_compute; reflexivity|].
  eapply (proj1 (zero_save_every_ends_the_run
            (mkConfig Scenario.home "site_markdown" 500 true
               "web-crawling-bot/1.0" false 0)
            (Scenario.calm Scenario.allow_all Scenario.small_site) 10 Absent
            (Failed _) eq_refl _)).
  Unshelve. vm_compute. reflexivity.
Defined.

(** X9.  With a positive [save_every], a run that returns has attempted one
    checkpoint save for every [save_every] page documents it wrote, and one
    more at the end when the checkpoint file exists then. *)
Theorem one_save_every_nth_page (cfg : Config) (w : World) (fuel : nat)
  (ck : CheckpointFile) (s : State) :
  (0 < save_every cfg)%Z →
  crawl_site_to_markdown cfg w fuel ck = Some (Returned s) →
  Z.of_nat (count_events is_save_event (trace s))
  = (Z.of_nat (count_events is_page_write (trace s)) / save_every cfg
     + match checkpoint s with Absent => 0 | _ => 1 end)%Z.
Proof.
  intros Hpos Hrun.
  apply run_cases in Hrun as [?|(parsed & e0 & _ & Hloop & He)]; [done|].
  destruct e0 as [s0|s0]; [|done].
  pose (Inv := λ s : State,
    pages_done s = Z.of_nat (count_events is_page_write (trace s))
    ∧ Z.of_nat (count_events is_save_event (trace s))
      = (pages_done s / save_every cfg)%Z).
  destruct (crawl_loop_exits cfg w parsed Inv (λ _, True)) with (fuel := fuel)
    (s := init_state cfg w ck) (e := Returned s0) as ((Hpd & Hsv) & _); try done.
  { intros s1 url rest s' _ (Hpd & Hsv) _ Hit. unfold Inv.
    destruct (iteration_counters cfg w parsed s1 url rest s' Hit)
      as [(-> & -> & -> & _)|(_ & -> & -> & ->)]; [done|].
    split; [lia|]. rewrite Nat2Z.inj_add, Hsv.
    assert (0 ≤ pages_done s1)%Z by lia.
    destruct (decide (((pages_done s1 + 1) mod save_every cfg)%Z = 0%Z)) as [Hm|Hm].
    - rewrite bool_decide_eq_true_2 by done.
      Z.div_mod_to_equations. nia.
    - rewrite bool_decide_eq_false_2 by done.
      Z.div_mod_to_equations. nia. }
  { destruct (init_state_trace cfg w ck) as (Htr & Hp & _).
    unfold Inv. rewrite Htr, Hp. done. }
  unfold finish, write_index in He.
  destruct (open_ok _ _ _); [|done].
  destruct (index_rows cfg s0) as [rows|]; [|done].
  injection He as ->. rewrite Hpd in Hsv. unfold final_save, _save_state. simpl.
  destruct (checkpoint s0) eqn:Hck; simpl;
    try (destruct (checkpoint_write_ok _ _); [|destruct (checkpoint_open_ok _ _)]);
    simpl; rewrite ?Hck, !count_events_app, !count_events_one; simpl;
    rewrite ?Nat.add_0_r; lia.
Qed.

(** X9, witness: the crawl of the small site with [--save-every 1]. *)
Lemma one_save_every_nth_page_witness :
  ∃ s, crawl_site_to_markdown
         (mkConfig Scenario.home "site_markdown" 500 true "web-crawling-bot/1.0"
            false 1)
         (Scenario.calm Scenario.allow_all Scenario.small_site) 10 Absent
       = Some (Returned s)
       ∧ Z.of_nat (count_events is_save_event (trace s))
         = (Z.of_nat (count_events is_page_write (trace s)) / 1
            + match checkpoint s with Absent => 0 | _ => 1 end)%Z.
Proof.
  eexists. split; [vm_compute; reflexivity|].
  eapply (one_save_every_nth_page
            (mkConfig Scenario.home "site_markdown" 500 true
               "web-crawling-bot/1.0" false 1)
            (Scenario.calm Scenario.allow_all Scenario.small_site) 10 Absent).
  - simpl. lia.
  - vm_compute. reflexivity.
Defined.

(** ** What does not depend on the checkpoint *)

#[local] Arguments crawl_events : simpl never.

Lemma crawl_events_app tr1 tr2 :
  crawl_events (tr1 ++ tr2) = crawl_events tr1 ++ crawl_events tr2.
Proof. apply List.filter_app. Qed.

Lemma same_crawl_refl s : same_crawl s s.
Proof. by repeat split. Qed.

Lemma same_crawl_save w1 w2 s1 s2 :
  same_crawl s1 s2 → same_crawl (_save_state w1 s1) (_save_state w2 s2).
Proof.
  intros (? & ? & ? & ? & ? & ? & Htr). unfold _save_state.
  destruct (checkpoint_write_ok w1 (tick s1)), (checkpoint_write_ok w2 (tick s2)),
    (checkpoint_open_ok w1 (tick s1)), (checkpoint_open_ok w2 (tick s2)); simpl;
    repeat split; simpl; try done; rewrite !crawl_events_app, Htr;
    unfold crawl_events; simpl; by rewrite !app_nil_r.
Qed.

Lemma same_crawl_save_l w s1 s2 :
  same_crawl s1 s2 → same_crawl (_save_state w s1) s2.
Proof.
  intros (? & ? & ? & ? & ? & ? & Htr). unfold _save_state.
  destruct (checkpoint_write_ok w (tick s1)), (checkpoint_open_ok w (tick s1)); simpl;
    repeat split; simpl; try done; rewrite !crawl_events_app, Htr;
    unfold crawl_events; simpl; by rewrite !app_nil_r.
Qed.

Lemma same_crawl_save_r w s1 s2 :
  same_crawl s1 s2 → same_crawl s1 (_save_state w s2).
Proof.
  intros (? & ? & ? & ? & ? & ? & Htr). unfold _save_state.
  destruct (checkpoint_write_ok w (tick s2)), (checkpoint_open_ok w (tick s2)); simpl;
    repeat split; simpl; try done; rewrite !crawl_events_app, <- Htr;
    unfold crawl_events; simpl; by rewrite !app_nil_r.
Qed.

Section SameCrawl.
Context (cfg : Config) (w : World) (f g : nat → bool) (parsed : ParseResult).

Lemma same_crawl_step s1 s2 :
  same_crawl s1 s2 →
  same_result (step cfg w parsed s1)
              (step cfg (with_checkpoint_write f g w) parsed s2).
Proof.
  intros Hs. pose proof Hs as (Hto & Hv & Ht & Hf & Hp & Hk & Htr). unfold step.
  rewrite <- Hto, <- Hv, <- Ht, <- Hp, <- Hk.
  change (robots_denies cfg (with_checkpoint_write f g w))
    with (robots_denies cfg w).
  change (http_get (with_checkpoint_write f g w)) with (http_get w).
  change (page_body cfg (with_checkpoint_write f g w)) with (page_body cfg w).
  change (discover_links cfg (with_checkpoint_write f g w))
    with (discover_links cfg w).
  assert (∀ fr seen titles done evs,
            same_crawl (end_iteration w (S (tick s1)) fr seen titles done evs s1)
              (end_iteration (with_checkpoint_write f g w) (S (tick s1)) fr seen
                 titles done evs s2)) as Hend.
  { intros. unfold end_iteration. repeat split; simpl; try done.
    - by rewrite Hf.
    - by rewrite !crawl_events_app, Htr. }
  destruct (to_visit s1) as [|url rest] eqn:Hto1; [exact Hs|].
  destruct (bool_decide (url ∈ visited s1)); [apply Hend|].
  destruct (robots_denies cfg w url); [apply Hend|].
  destruct (http_get w (S (tick s1)) url) as [page|]; [|apply Hend].
  destruct (page_body cfg w (S (tick s1)) url page) as [evs [hrefs|]];
    [|apply Hend].
  destruct (discover_links _ _ _ _ _ _ _ _) as [frontier|]; [|apply Hend].
  destruct (save_every cfg =? 0)%Z; [apply Hend|].
  destruct (_ =? 0)%Z; [|apply Hend].
  apply same_crawl_save, Hend.
Qed.

Lemma same_crawl_loop fuel :
  ∀ s1 s2, same_crawl s1 s2 →
    same_exit (crawl_loop cfg w fuel parsed s1)
              (crawl_loop cfg (with_checkpoint_write f g w) fuel parsed s2).
Proof.
  induction fuel as [|fuel IH]; intros s1 s2 Hs; simpl;
    (assert (loop_cond cfg s2 = loop_cond cfg s1) as ->;
     [destruct Hs as (Hto & Hv & _ & Hf & _); unfold loop_cond;
      by rewrite Hto, Hv, Hf|]);
    destruct (loop_cond cfg s1); try done.
  pose proof (same_crawl_step s1 s2 Hs) as Hstep.
  destruct (step cfg w parsed s1) as [s1'|s1'],
    (step cfg (with_checkpoint_write f g w) parsed s2) as [s2'|s2']; try done.
  by apply IH.
Qed.

Lemma same_crawl_finish s1 s2 :
  same_crawl s1 s2 →
  same_exit (Some (finish cfg w s1))
            (Some (finish cfg (with_checkpoint_write f g w) s2)).
Proof.
  intros Hs. pose proof Hs as (Hto & Hv & Ht & Hf & Hp & Hk & Htr).
  unfold finish, write_index, index_rows.
  change (open_ok (with_checkpoint_write f g w)) with (open_ok w).
  rewrite <- Hk, <- Ht.
  destruct (open_ok _ _ _); [|done].
  destruct (mapM _ _) as [rows|]; [|done]. simpl.
  assert (same_crawl (log [EvWriteIndex rows] s1) (log [EvWriteIndex rows] s2))
    as Hlog.
  { repeat split; simpl; try done. by rewrite !crawl_events_app, Htr. }
  unfold final_save. simpl.
  destruct (checkpoint s1), (checkpoint s2); try done;
    try (by apply same_crawl_save);
    try (by apply same_crawl_save_l); by apply same_crawl_save_r.
Qed.

End SameCrawl.

(** X10.  Whether the checkpoint file can be written has no influence on
    the crawl: two runs in environments that differ only in that end the
    same way (both return, or both fail, or both need more fuel), with the
    same frontier, visited set and title index, and with the same events
    apart from the checkpoint saves. *)
Theorem checkpoint_failures_do_not_change_the_crawl (cfg : Config)
  (w : World) (f g : nat → bool) (fuel : nat) (ck : CheckpointFile) :
  same_exit (crawl_site_to_markdown cfg w fuel ck)
            (crawl_site_to_markdown cfg (with_checkpoint_write f g w) fuel ck).
Proof.
  unfold crawl_site_to_markdown.
  destruct (urlparse (start_url cfg)) as [parsed|]; [|apply same_crawl_refl].
  change (makedirs_ok (with_checkpoint_write f g w)) with (makedirs_ok w).
  destruct (_ && _); [|apply same_crawl_refl].
  change (init_state cfg (with_checkpoint_write f g w) ck)
    with (init_state cfg w ck).
  pose proof (same_crawl_loop cfg w f g parsed fuel _ _
                (same_crawl_refl (init_state cfg w ck))) as Hloop.
  destruct (crawl_loop cfg w fuel parsed (init_state cfg w ck)) as [[s1|s1]|],
    (crawl_loop cfg (with_checkpoint_write f g w) fuel parsed (init_state cfg w ck))
    as [[s2|s2]|]; try done.
  by apply same_crawl_finish.
Qed.

(** ** An unreadable robots policy *)



(** ** Inline images *)

Lemma startswith_inv p s : startswith p s = true → ∃ r, s = p +:+ r.
Proof.
  revert s. induction p as [|a p IH]; intros s; simpl; [by exists s|].
  destruct s as [|b s]; [done|].
  intros [Ha Hp]%andb_true_iff. apply Ascii.eqb_eq in Ha as <-.
  destruct (IH s Hp) as [r ->]. by exists r.
Qed.

Lemma startswith_app p r : startswith p (p +:+ r) = true.
Proof. induction p as [|a p IH]; simpl; [done|]. by rewrite Ascii.eqb_refl. Qed.

Lemma urlparse_with_data r d :
  match urlparse_with ("data:" +:+ r) d with
  | Some u => scheme u = "data"
  | None => True
  end.
Proof.
  unfold urlparse_with, urlsplit.
  change (lstrip is_c0_or_space ("data:" +:+ r)) with ("data:" +:+ r).
  change (remove_chars is_unsafe ("data:" +:+ r))
    with ("data:" +:+ remove_chars is_unsafe r).
  match goal with |- context [split_scheme ?x ("data:" +:+ ?R)] =>
    change (split_scheme x ("data:" +:+ R)) with ("data", R) end.
  lazy beta iota zeta.
  match goal with |- context [if startswith "//" ?R then ?A else ?B] =>
    destruct (if startswith "//" R then A else B) as [n u'] end.
  destruct (xorb _ _); [done|].
  destruct (split_first is_hash u') as [u'' fr].
  destruct (split_first is_qmark u'') as [pth q]. by simpl.
Qed.

Lemma urljoin_data url r :
  match urljoin url ("data:" +:+ r) with
  | Some abs => abs = "data:" +:+ r
  | None => True
  end.
Proof.
  unfold urljoin. destruct (is_empty url); [done|].
  change (is_empty ("data:" +:+ r)) with false. cbv iota.
  destruct (urlparse_with url EmptyString) as [b|]; [|done].
  pose proof (urlparse_with_data r (scheme b)) as Hd.
  destruct (urlparse_with ("data:" +:+ r) (scheme b)) as [u|]; [|done].
  rewrite Hd. change (in_list "data" uses_relative) with false.
  by rewrite orb_true_r.
Qed.

(** X12.  An [<img>] whose [src] starts with [data:] is left as it is: on
    every page, nothing is fetched or written for it and its [src] is
    kept. *)
Theorem inline_images_are_left_alone (cfg : Config) (w : World) (t : nat)
  (url ref : string) :
  startswith "data:" ref = true →
  download_ref cfg w true t url ref = ([], Some ref).
Proof.
  intros Hd. pose proof Hd as [r ->]%startswith_inv.
  unfold download_ref. change (is_empty ("data:" +:+ r)) with false. cbv iota.
  rewrite Hd, orb_true_r. cbv iota.
  unfold _download_asset. pose proof (urljoin_data url r) as Hj.
  destruct (urljoin url ("data:" +:+ r)) as [abs|]; [|done].
  subst abs. by rewrite Hd.
Qed.

(** X12, witness: a one-pixel GIF. *)
Lemma inline_images_are_left_alone_witness :
  download_ref (Scenario.plain Scenario.home 500 false)
    (Scenario.calm Scenario.allow_all Scenario.small_site) true 1 Scenario.home
    "data:image/gif;base64,R0lGODlhAQABAAAAACw="
  = ([], Some "data:image/gif;base64,R0lGODlhAQABAAAAACw=").
Proof.
  apply (inline_images_are_left_alone (Scenario.plain Scenario.home 500 false)
           (Scenario.calm Scenario.allow_all Scenario.small_site) 1 Scenario.home
           "data:image/gif;base64,R0lGODlhAQABAAAAACw=").
  reflexivity.
Defined.

(** ** Local paths *)

Section RelativePaths.
Implicit Types (p s t : string).

Lemma lstrip_sep_relative s : startswith "/" (lstrip OsPath.is_sep s) = false.
Proof.
  induction s as [|a s IH]; [done|]. cbn [lstrip].
  destruct (OsPath.is_sep a) eqn:Ha; [done|]. cbn [startswith].
  unfold OsPath.is_sep in Ha. by rewrite Ascii.eqb_sym, Ha.
Qed.

Lemma startswith_sep_app s t :
  s ≠ EmptyString → startswith "/" (s +:+ t) = startswith "/" s.
Proof. by destruct s. Qed.

Lemma app_nonempty s t : s ≠ EmptyString → s +:+ t ≠ EmptyString.
Proof. by destruct s. Qed.

Lemma rstrip_prefix (P : ascii → bool) s : ∃ r, s = rstrip P s +:+ r.
Proof.
  induction s as [|a s [r IH]]; [by exists EmptyString|]. simpl.
  destruct (rstrip P s) as [|b s'] eqn:Hs.
  - destruct (P a); [by eexists|]. exists s. done.
  - exists r. simpl in *. congruence.
Qed.

Lemma split_fst_prefix p : ∃ r, p = (OsPath.split p).1 +:+ r.
Proof.
  unfold OsPath.split. destruct (rsplit_at "/" p) as [[h t]|] eqn:Hp; [|by exists p].
  apply rsplit_at_eq in Hp as ->.
  destruct (str_all OsPath.is_sep h); simpl; [by exists t|].
  destruct (rstrip_prefix OsPath.is_sep h) as [r Hr]. exists (r +:+ t).
  by rewrite <- app_assoc_str, <- Hr.
Qed.

Lemma str_take_head n a s : str_take (S n) (String a s) = String a (str_take n s).
Proof. reflexivity. Qed.

Lemma truncate_component_relative floor url last :
  startswith "/" last = false →
  truncate_component floor url last ≠ EmptyString
  ∧ startswith "/" (truncate_component floor url last) = false.
Proof.
  intros Hl. unfold truncate_component.
  pose proof (splitext_eq last) as Heq.
  destruct (OsPath.splitext last) as [name ext]. simpl in Heq.
  match goal with |- context [str_take ?k name] => generalize k end. intros k.
  generalize (str_take 10 (Sha1.hexdigest url)). intros h.
  destruct k as [|k]; [by destruct name|].
  destruct name as [|a name]; [done|]. subst last.
  cbn [str_take String.append]. split; [done|].
  cbn [String.append startswith] in *. done.
Qed.

Lemma join_relative a b :
  startswith "/" b = false →
  OsPath.join a b
  = a +:+ (if is_empty a || endswith "/" a then EmptyString else "/") +:+ b.
Proof.
  intros Hb. unfold OsPath.join. rewrite Hb.
  by destruct (is_empty a || endswith "/" a).
Qed.

Lemma cap_last_component_relative floor url p :
  p ≠ EmptyString → startswith "/" p = false →
  cap_last_component floor url p ≠ EmptyString
  ∧ startswith "/" (cap_last_component floor url p) = false.
Proof.
  intros Hne Hp. unfold cap_last_component.
  pose proof (split_fst_prefix p) as [r Hpre].
  pose proof (split_snd_free p) as Hfree.
  destruct (OsPath.split p) as [dirpart last]. cbn [fst snd] in *.
  destruct (_ <? _)%nat; [|done].
  assert (startswith "/" last = false) as Hlast.
  { destruct (startswith "/" last) eqn:Hs; [|done].
    apply startswith_slash_has in Hs. congruence. }
  destruct (truncate_component_relative floor url last Hlast) as (Htne & Ht).
  rewrite (join_relative _ _ Ht).
  generalize dependent (truncate_component floor url last). intros t Htne Ht.
  destruct dirpart as [|a d]; [done|]. split; [done|].
  rewrite Hpre in Hp. exact Hp.
Qed.

Lemma page_path_relative u :
  page_path_uncapped u ≠ EmptyString
  ∧ startswith "/" (page_path_uncapped u) = false.
Proof.
  unfold page_path_uncapped.
  set (path0 := if endswith "/" (or_else (path u) "/")
                then or_else (path u) "/" +:+ "index" else or_else (path u) "/").
  set (sp := if is_empty (lstrip OsPath.is_sep path0) then "index"
             else lstrip OsPath.is_sep path0).
  assert (sp ≠ EmptyString ∧ startswith "/" sp = false) as (Hne & Hrel).
  { unfold sp. pose proof (lstrip_sep_relative path0).
    destruct (lstrip OsPath.is_sep path0); [done|]. by split. }
  set (sq := if is_empty (query u) then sp
             else sp +:+ "__" +:+ Re.sub_non_word (query u)).
  assert (sq ≠ EmptyString ∧ startswith "/" sq = false) as (Hne' & Hrel').
  { unfold sq. destruct (is_empty (query u)); [done|].
    split; [by apply app_nonempty|]. by rewrite startswith_sep_app. }
  destruct (endswith ".md" sq); [done|].
  split; [by apply app_nonempty|]. by rewrite startswith_sep_app.
Qed.

Lemma asset_path_relative u :
  asset_path_uncapped u ≠ EmptyString
  ∧ startswith "/" (asset_path_uncapped u) = false.
Proof.
  unfold asset_path_uncapped.
  set (ap := or_else (lstrip OsPath.is_sep (path u)) "root").
  assert (ap ≠ EmptyString ∧ startswith "/" ap = false) as (Hne & Hrel).
  { unfold ap, or_else. pose proof (lstrip_sep_relative (path u)).
    destruct (lstrip OsPath.is_sep (path u)); [done|]. by split. }
  set (aq := if is_empty (query u) then ap
             else ap +:+ "__" +:+ Re.sub_non_word (query u)).
  assert (aq ≠ EmptyString ∧ startswith "/" aq = false) as (Hne' & Hrel').
  { unfold aq. destruct (is_empty (query u)); [done|].
    split; [by apply app_nonempty|]. by rewrite startswith_sep_app. }
  destruct (is_empty (OsPath.splitext aq).2); [|done].
  split; [by apply app_nonempty|]. by rewrite startswith_sep_app.
Qed.

End RelativePaths.

(** X13.  The path derived for a page is never empty and never absolute,
    so that [os.path.join(output_dir, path)] is [output_dir], a separator
    where [output_dir] lacks one, and the path: the page document is named
    under the output directory, whatever the URL. *)
Theorem page_paths_extend_the_output_directory (base url p out : string) :
  _safe_filename_from_url base url = Some p →
  p ≠ EmptyString
  ∧ startswith "/" p = false
  ∧ OsPath.join out p
    = out +:+ (if is_empty out || endswith "/" out then EmptyString else "/")
      +:+ p.
Proof.
  unfold _safe_filename_from_url.
  destruct (urlparse base); [|done]. destruct (urlparse url) as [u|]; [|done].
  intros [= <-]. destruct (page_path_relative u) as (Hne & Hrel).
  destruct (cap_last_component_relative 16 url _ Hne Hrel) as (Hne' & Hrel').
  split; [done|]. split; [done|]. by apply join_relative.
Qed.

(** X13, witness: the page of [https://example.com//etc/passwd]. *)
Lemma page_paths_extend_the_output_directory_witness :
  OsPath.join "site_markdown" "etc/passwd.md" = "site_markdown/etc/passwd.md".
Proof.
  destruct (page_paths_extend_the_output_directory Scenario.home
              "https://example.com//etc/passwd" "etc/passwd.md" "site_markdown")
    as (_ & _ & ->); [vm_compute; reflexivity|]. reflexivity.
Defined.

(** X14.  An asset is stored under the assets directory, in the directory
    named after the network location of its URL: its local path is
    [assets_dir], the network location and the path derived from the URL,
    with a separator where one is missing. *)
Theorem assets_are_stored_by_host (assets_dir base url local_path : string)
  (u : ParseResult) :
  urlparse url = Some u →
  _safe_asset_path assets_dir base url = Some local_path →
  ∃ sep1 sep2,
    (sep1 = EmptyString ∨ sep1 = "/") ∧ (sep2 = EmptyString ∨ sep2 = "/")
    ∧ local_path
      = assets_dir +:+ sep1 +:+ netloc u +:+ sep2
        +:+ cap_last_component 8 url (asset_path_uncapped u)
    ∧ startswith "/" (cap_last_component 8 url (asset_path_uncapped u)) = false.
Proof.
  intros Hu. unfold _safe_asset_path. rewrite Hu. intros [= <-].
  destruct (asset_path_relative u) as (Hne & Hrel).
  destruct (cap_last_component_relative 8 url _ Hne Hrel) as (Hne' & Hrel').
  assert (startswith "/" (netloc u) = false) as Hn.
  { apply urlparse_ok in Hu as (_ & [Hfree _ _ _ _ _ _ _ _] & _).
    unfold free_of in Hfree. destruct (netloc u) as [|a n]; [done|].
    cbn [str_all] in Hfree. apply andb_true_iff in Hfree as (Ha & _).
    cbn [startswith]. unfold is_netloc_delim in Ha.
    rewrite !negb_orb in Ha. apply andb_true_iff in Ha as ((Ha & _)%andb_true_iff & _).
    apply negb_true_iff in Ha. by rewrite Ascii.eqb_sym, Ha. }
  generalize dependent (cap_last_component 8 url (asset_path_uncapped u)).
  intros a _ Hrel'.
  unfold OsPath.join3. rewrite (join_relative _ a Hrel'), (join_relative _ _ Hn).
  set (sep1 := if is_empty assets_dir || endswith "/" assets_dir
               then EmptyString else "/").
  set (sep2 := if is_empty (assets_dir +:+ sep1 +:+ netloc u)
                  || endswith "/" (assets_dir +:+ sep1 +:+ netloc u)
               then EmptyString else "/").
  exists sep1, sep2. split; [|split; [|split; [|done]]].
  - unfold sep1. destruct (is_empty assets_dir || _); auto.
  - unfold sep2. destruct (is_empty (assets_dir +:+ sep1 +:+ netloc u) || _); auto.
  - by rewrite !app_assoc_str.
Qed.

(** X14, witness: the logo kept on another host. *)
Lemma assets_are_stored_by_host_witness :
  ∃ sep1 sep2,
    "site_markdown/assets/cdn.other.com/secret/logo.png"
    = "site_markdown/assets" +:+ sep1 +:+ "cdn.other.com" +:+ sep2
      +:+ "secret/logo.png".
Proof.
  destruct (assets_are_stored_by_host "site_markdown/assets" Scenario.home
              Scenario.logo_url
              "site_markdown/assets/cdn.other.com/secret/logo.png"
              (mkParseResult "https" "cdn.other.com" "/secret/logo.png" "" "" ""))
    as (sep1 & sep2 & _ & _ & Heq & _); [vm_compute; reflexivity..|].
  by exists sep1, sep2.
Defined.

(** ** Resuming *)

(** X15.  A URL that the start-up finds in the visited set of the checkpoint
    is not fetched as a page by the run. *)
Theorem resumed_pages_are_not_fetched_again (cfg : Config) (w : World)
  (fuel : nat) (ck : CheckpointFile) (e : Exit) (u : string) :
  crawl_site_to_markdown cfg w fuel ck = Some e →
  u ∈ visited (init_state cfg w ck) →
  u ∉ page_gets (trace (exit_state e)).
Proof.
  intros Hrun Hu.
  apply run_cases in Hrun as [->|(parsed & e0 & _ & Hloop & He)].
  { apply not_elem_of_nil. }
  pose (Inv := λ s : State,
    (u ∈ visited s) ∧ (u ∉ page_gets (trace s))).
  assert (∀ s url rest r, Inv s → to_visit s = url :: rest →
            Iteration cfg w parsed s url rest r → Inv (state_of r)) as Hstep.
  { intros s url rest r (Hv & Hg) Hto Hit. unfold Inv.
    rewrite (iteration_visited cfg w parsed s url rest r Hit),
      (iteration_page_gets cfg w parsed s url rest r Hit).
    destruct (decide (url ∈ visited s)) as [Hin|Hnin].
    - rewrite !bool_decide_eq_true_2 by done. simpl. by rewrite app_nil_r.
    - rewrite !bool_decide_eq_false_2 by done. simpl.
      split; [by apply elem_of_union_r|].
      intros [?|Hin]%elem_of_app; [done|].
      destruct (robots_denies cfg w url); [by apply elem_of_nil in Hin|].
      apply list_elem_of_singleton in Hin as ->. done. }
  assert (Inv (init_state cfg w ck)) as Hinit.
  { split; [done|]. destruct (init_state_trace cfg w ck) as (-> & _).
    apply not_elem_of_nil. }
  pose proof (crawl_loop_exits cfg w parsed Inv Inv
                (λ s url rest s' _ HI Hto Hit, Hstep s url rest (Next s') HI Hto Hit)
                (λ s url rest s' _ HI Hto Hit, Hstep s url rest (Raised s') HI Hto Hit)
                fuel _ e0 Hinit Hloop) as Hexit.
  destruct e0 as [s|s]; subst e; [|apply Hexit].
  destruct Hexit as ((_ & Hg) & _).
  destruct (finish_trace cfg w s) as (_ & _ & _ & _ & evs & -> & Hevs).
  by rewrite page_gets_app, (page_gets_index_or_save evs Hevs), app_nil_r.
Qed.

(** X15, witness: a run resumed with [/a] visited and the home page, which
    links to [/a], queued. *)
Lemma resumed_pages_are_not_fetched_again_witness :
  ∃ e, crawl_site_to_markdown (Scenario.plain Scenario.home 500 true)
         (Scenario.calm Scenario.allow_all Scenario.nested_site) 10
         Scenario.a_visited = Some e
       ∧ "https://example.com/a.md" ∉ page_gets (trace (exit_state e)).
Proof.
  eexists. split; [vm_compute; reflexivity|].
  eapply (resumed_pages_are_not_fetched_again
            (Scenario.plain Scenario.home 500 true)
            (Scenario.calm Scenario.allow_all Scenario.nested_site) 10
            Scenario.a_visited).
  - vm_compute. reflexivity.
  - eapply (bool_decide_eq_true_1 _). vm_compute. reflexivity.
Defined.

(** ** The shape of page paths *)

Section PageNames.
Implicit Types (s t y : string).

Lemma endswith_app suf s : endswith suf (s +:+ suf) = true.
Proof.
  induction s as [|a s IH].
  - simpl. destruct suf; [done|]. cbn [endswith]. by rewrite String.eqb_refl.
  - change (String a s +:+ suf) with (String a (s +:+ suf)).
    rewrite endswith_cons, IH. by destruct (String.eqb _ _).
Qed.

Lemma endswith_join suf a b :
  endswith suf b = true → endswith suf (OsPath.join a b) = true.
Proof.
  intros [pre ->]%endswith_inv. unfold OsPath.join.
  destruct (startswith "/" _); [apply endswith_app|].
  destruct (_ || _); rewrite <- ?app_assoc_str; apply endswith_app.
Qed.

Lemma sub_non_word_word q : str_all Re.is_word_char (Re.sub_non_word q) = true.
Proof.
  induction q as [|a q IH]; [done|]. unfold Re.sub_non_word in *.
  cbn [map_chars str_all]. rewrite IH, andb_true_r.
  by destruct (Re.is_word_char a) eqn:Ha.
Qed.

Lemma sub_non_word_length q :
  String.length (Re.sub_non_word q) = String.length q.
Proof.
  induction q as [|a q IH]; [done|]. unfold Re.sub_non_word in *. simpl.
  by rewrite IH.
Qed.

Lemma sub_non_word_id q :
  str_all Re.is_word_char q = true → Re.sub_non_word q = q.
Proof.
  induction q as [|a q IH]; [done|]. unfold Re.sub_non_word in *.
  cbn [map_chars str_all]. intros [Ha Hq]%andb_true_iff. by rewrite Ha, IH.
Qed.

(** A text that ends with two underscores and word characters does not end
    with [.md]. *)
Lemma word_suffix_not_md s q :
  q ≠ EmptyString → str_all Re.is_word_char q = true →
  endswith ".md" (s +:+ "__" +:+ q) = false.
Proof.
  intros Hne Hq. destruct (endswith ".md" (s +:+ "__" +:+ q)) eqn:He; [|done].
  apply endswith_inv in He as [pre He].
  assert (String.length ".md" ≤ String.length ("__" +:+ q))%nat as Hlen
    by (destruct q; [done|simpl; lia]).
  assert (∃ z, "__" +:+ q = z +:+ ".md") as [z Hz].
  { clear Hq. revert pre He Hlen. generalize ("__" +:+ q). intros t.
    induction s as [|a s IH]; intros pre He Hlen; [by exists pre|].
    destruct pre as [|b pre].
    - exfalso. apply (f_equal String.length) in He. simpl in He.
      rewrite length_app_str in He. simpl in Hlen. lia.
    - injection He as _ He. by apply (IH pre). }
  assert (str_all Re.is_word_char ("__" +:+ q) = true) as Hall by (by simpl).
  rewrite Hz, str_all_app in Hall. apply andb_true_iff in Hall as (_ & Hall).
  discriminate Hall.
Qed.

End PageNames.

(** X16.  The query of a URL enters the page path after two underscores, with
    every character other than a letter, a digit, [-] and [_] replaced by
    [_], and is followed by [.md]: for a URL with a query whose path is not
    cut, the page path is a stem, [__], the replaced query and [.md].  The
    replaced query has the length of the query, and a query of letters,
    digits, [-] and [_] is kept as it is. *)
Theorem queries_enter_page_paths_sanitised (base url p : string)
  (u : ParseResult) :
  urlparse url = Some u →
  query u ≠ EmptyString →
  _safe_filename_from_url base url = Some p →
  (String.length (OsPath.split (page_path_uncapped u)).2 ≤ 200)%nat →
  (∃ stem, stem ≠ EmptyString
           ∧ p = stem +:+ "__" +:+ Re.sub_non_word (query u) +:+ ".md")
  ∧ str_all Re.is_word_char (Re.sub_non_word (query u)) = true
  ∧ String.length (Re.sub_non_word (query u)) = String.length (query u)
  ∧ (str_all Re.is_word_char (query u) = true →
     Re.sub_non_word (query u) = query u).
Proof.
  intros Hu Hq. unfold _safe_filename_from_url. rewrite Hu.
  destruct (urlparse base); [|done]. intros [= <-] Hlen.
  split; [|split; [apply sub_non_word_word|split;
                   [apply sub_non_word_length|apply sub_non_word_id]]].
  unfold cap_last_component.
  destruct (OsPath.split (page_path_uncapped u)) as [d l] eqn:Hsplit.
  cbn [snd] in Hlen. unfold max_component_len.
  apply Nat.ltb_ge in Hlen. rewrite Hlen.
  unfold page_path_uncapped.
  destruct (is_empty (query u)) eqn:Hqe; [by destruct (query u)|].
  assert (Re.sub_non_word (query u) ≠ EmptyString) as Hne.
  { intros H0. apply Hq. pose proof (sub_non_word_length (query u)) as Hl.
    rewrite H0 in Hl. by destruct (query u). }
  match goal with |- context [endswith ".md" (?sp +:+ "__" +:+ ?q)] =>
    rewrite (word_suffix_not_md sp q Hne) by apply sub_non_word_word;
    exists sp; split; [|by rewrite !app_assoc_str]
  end.
  match goal with |- context [is_empty ?x] => by destruct x end.
Qed.

(** X16, witness: the URL of the last example in the docstring of
    [_safe_filename_from_url]. *)
Lemma queries_enter_page_paths_sanitised_witness :
  ∃ stem, "index__q_query.md" = stem +:+ "__" +:+ "q_query" +:+ ".md".
Proof.
  destruct (queries_enter_page_paths_sanitised Scenario.home
              "https://example.com/?q=query" "index__q_query.md"
              (mkParseResult "https" "example.com" "/" "" "q=query" ""))
    as ((stem & _ & Hstem) & _).
  - vm_compute. reflexivity.
  - discriminate.
  - vm_compute. reflexivity.
  - vm_compute. lia.
  - by exists stem.
Defined.

(** The final component of a page path before the cap: a name followed by
    [.md], which is its extension unless the name consists of dots. *)
Lemma page_last_component u :
  ∃ y, (OsPath.split (page_path_uncapped u)).2 = y +:+ ".md"
       ∧ OsPath.splitext (y +:+ ".md")
         = if str_all OsPath.is_dot y then (y +:+ ".md", EmptyString)
           else (y, ".md").
Proof.
  destruct (page_path_md u) as [x ->].
  exists (OsPath.split x).2. split.
  { rewrite !split_snd, rsplit_at_app. simpl.
    by destruct (rsplit_at "/" x) as [[h t]|]. }
  pose proof (split_snd_free x) as Hfree.
  generalize dependent ((OsPath.split x).2). intros y Hy.
  unfold OsPath.splitext.
  assert (rsplit_at "/" (y +:+ ".md") = None) as ->.
  { apply rsplit_at_None. by rewrite has_char_app, Hy. }
  rewrite rsplit_at_app. simpl. rewrite str_take_app_dot.
  by destruct (str_all OsPath.is_dot y).
Qed.

(** X17.  A page path ends with [.md], with one exception: when the final
    component derived from the URL has more than 200 characters and
    consists of dots followed by [.md], the cap takes [.md] for a part of
    the name and cuts it off.  The URL whose path is 198 dots and [.md] is
    a case of it. *)
Theorem page_paths_end_with_md :
  (∀ base url u p,
     urlparse url = Some u →
     _safe_filename_from_url base url = Some p →
     endswith ".md" p = true
     ∨ ∃ y, (OsPath.split (page_path_uncapped u)).2 = y +:+ ".md"
            ∧ str_all OsPath.is_dot y = true
            ∧ (197 < String.length y)%nat)
  ∧ (∃ p, _safe_filename_from_url Scenario.home
            (Scenario.home +:+ repeat_char "." 198 +:+ ".md") = Some p
          ∧ endswith ".md" p = false).
Proof.
  split.
  - intros base url u p Hu. unfold _safe_filename_from_url. rewrite Hu.
    destruct (urlparse base); [|done]. intros [= <-].
    unfold cap_last_component.
    destruct (page_last_component u) as (y & Hlast & Hext).
    destruct (page_path_md u) as [x Hx].
    destruct (OsPath.split (page_path_uncapped u)) as [d l]. cbn [snd] in Hlast.
    subst l. unfold max_component_len.
    destruct (200 <? _)%nat eqn:Hlen;
      [|left; rewrite Hx; apply endswith_app].
    apply Nat.ltb_lt in Hlen. rewrite length_app_str in Hlen. simpl in Hlen.
    unfold truncate_component. rewrite Hext.
    destruct (str_all OsPath.is_dot y) eqn:Hdots.
    + right. exists y. split; [done|]. split; [done|]. lia.
    + left. apply endswith_join.
      rewrite <- !app_assoc_str. apply endswith_app.
  - eexists. split; [vm_compute; reflexivity|]. vm_compute. reflexivity.
Qed.

(** X17, witness: the page of [https://example.com/docs/intro]. *)
Lemma page_paths_end_with_md_witness :
  endswith ".md" "docs/intro.md" = true
  ∨ ∃ y, (OsPath.split
            (page_path_uncapped
               (mkParseResult "https" "example.com" "/docs/intro" "" "" ""))).2
         = y +:+ ".md"
         ∧ str_all OsPath.is_dot y = true ∧ (197 < String.length y)%nat.
Proof.
  destruct page_paths_end_with_md as (Hmd & _).
  apply (Hmd Scenario.home "https://example.com/docs/intro").
  - vm_compute. reflexivity.
  - vm_compute. reflexivity.
Defined.

(** ** The page document *)

Section FrontMatter.
Implicit Types (s t : string).

Lemma split_on_sep c s t :
  has_char c s = false →
  split_on c (s +:+ String c t) = s :: split_on c t.
Proof.
  intros Hs. apply has_char_false in Hs.
  induction s as [|a s IH]; cbn [String.append split_on].
  - by rewrite Ascii.eqb_refl.
  - cbn [str_all] in Hs. apply andb_true_iff in Hs as (Ha & Hs).
    apply negb_true_iff in Ha. rewrite Ha, (IH Hs). done.
Qed.

Lemma escape_printable a : str_all (in_range 32 126) (Json.escape a) = true.
Proof. destruct a as [[] [] [] [] [] [] [] []]; vm_compute; reflexivity. Qed.

Lemma dumps_printable s : str_all (in_range 32 126) (Json.dumps s) = true.
Proof.
  unfold Json.dumps. cbn [str_all]. rewrite str_all_app.
  assert (str_all (in_range 32 126) (Json.escape_all s) = true) as ->.
  { induction s as [|a s IH]; [done|]. cbn [Json.escape_all].
    by rewrite str_all_app, escape_printable, IH. }
  reflexivity.
Qed.

Lemma printable_one_line s :
  str_all (in_range 32 126) s = true → has_char Re.newline s = false.
Proof.
  intros Hs. apply has_char_false. eapply str_all_impl; [|exact Hs].
  intros a. destruct a as [[] [] [] [] [] [] [] []]; vm_compute; congruence.
Qed.

End FrontMatter.

(** X18.  Whatever the title, the URL and the time stamp are, [json.dumps]
    writes each of them with printable ASCII characters only, hence on one
    line: a page document with front matter begins with exactly the five
    lines [---], [title: ..], [url: ..], [crawled_at: ..], [---] and an
    empty line, and the markdown of the page follows. *)
Theorem front_matter_is_five_lines (title_text url crawled_at markdown_text : string) :
  split_on Re.newline (page_document true title_text url crawled_at markdown_text)
  = ["---"; "title: " +:+ Json.dumps title_text; "url: " +:+ Json.dumps url;
     "crawled_at: " +:+ Json.dumps crawled_at; "---"; EmptyString]
    ++ split_on Re.newline markdown_text
  ∧ str_all (in_range 32 126) (Json.dumps title_text) = true
  ∧ str_all (in_range 32 126) (Json.dumps url) = true
  ∧ str_all (in_range 32 126) (Json.dumps crawled_at) = true.
Proof.
  split; [|by rewrite !dumps_printable].
  assert (∀ k s, str_all (in_range 32 126) k = true →
            has_char Re.newline (k +:+ Json.dumps s) = false) as Hline.
  { intros k s Hk. apply printable_one_line.
    by rewrite str_all_app, Hk, dumps_printable. }
  assert (page_document true title_text url crawled_at markdown_text
          = "---" +:+ String Re.newline
              (("title: " +:+ Json.dumps title_text) +:+ String Re.newline
                 (("url: " +:+ Json.dumps url) +:+ String Re.newline
                    (("crawled_at: " +:+ Json.dumps crawled_at)
                     +:+ String Re.newline
                       ("---" +:+ String Re.newline
                          (EmptyString +:+ String Re.newline markdown_text))))))
    as ->.
  { unfold page_document, line_end. by rewrite !app_assoc_str. }
  rewrite (split_on_sep Re.newline "---") by done.
  rewrite (split_on_sep Re.newline ("title: " +:+ _)) by by apply Hline.
  rewrite (split_on_sep Re.newline ("url: " +:+ _)) by by apply Hline.
  rewrite (split_on_sep Re.newline ("crawled_at: " +:+ _)) by by apply Hline.
  rewrite (split_on_sep Re.newline "---") by done.
  by rewrite (split_on_sep Re.newline EmptyString).
Qed.

(** ** The link filters *)

Section Filters.
Implicit Types (s t x e : string).

Lemma lower_app s t : lower (s +:+ t) = lower s +:+ lower t.
Proof. unfold lower. induction s as [|a s IH]; simpl; [done|]. by rewrite IH. Qed.

Lemma lower_keeps (P : ascii → bool) x :
  (∀ a, P (lower_char a) = P a) → str_all P (lower x) = str_all P x.
Proof.
  intros HP. unfold lower. induction x as [|a x IH]; [done|].
  cbn [map_chars str_all]. by rewrite HP, IH.
Qed.

Lemma lstrip_id (P : ascii → bool) s : free_of P s → lstrip P s = s.
Proof.
  unfold free_of. destruct s as [|a s]; [done|]. cbn [str_all lstrip].
  intros [Ha _]%andb_true_iff. apply negb_true_iff in Ha. by rewrite Ha.
Qed.

Lemma rstrip_id (P : ascii → bool) s : free_of P s → rstrip P s = s.
Proof.
  unfold free_of. induction s as [|a s IH]; [done|]. cbn [str_all rstrip].
  intros [Ha Hs]%andb_true_iff. apply negb_true_iff in Ha.
  rewrite (IH Hs), Ha. by destruct s.
Qed.

Lemma lstrip_all_true (P : ascii → bool) s :
  str_all P s = true → lstrip P s = EmptyString.
Proof.
  induction s as [|a s IH]; [done|]. cbn [str_all lstrip].
  intros [Ha Hs]%andb_true_iff. rewrite Ha. auto.
Qed.

Lemma no_newline_no_end s :
  free_of (λ a, Ascii.eqb a Re.newline) s →
  endswith (String Re.newline EmptyString) s = false.
Proof.
  intros Hs. destruct (endswith _ s) eqn:He; [|done].
  apply endswith_inv in He as [pre ->]. unfold free_of in Hs.
  rewrite str_all_app in Hs. apply andb_true_iff in Hs as (_ & Hs).
  discriminate Hs.
Qed.

(** A text without a newline that ends with a dot and one of the
    extensions, in whatever case, matches the expression. *)
Lemma ext_match_suffix exts s x :
  forallb (λ e, str_all (λ a, negb (Ascii.eqb a Re.newline)) e) exts = true →
  In (lower x) exts →
  free_of (λ a, Ascii.eqb a Re.newline) s →
  Re.ext_match exts (s +:+ "." +:+ x) = true.
Proof.
  intros Hexts Hin Hs.
  assert (free_of (λ a, Ascii.eqb a Re.newline) (s +:+ "." +:+ x)) as Hall.
  { unfold free_of in *. rewrite !str_all_app, Hs. cbn [str_all andb].
    rewrite <- (lower_keeps (λ a, negb (Ascii.eqb a Re.newline)) x).
    - rewrite forallb_forall in Hexts. rewrite (Hexts _ Hin). done.
    - intros a. destruct a as [[] [] [] [] [] [] [] []]; vm_compute; reflexivity. }
  unfold Re.ext_match. rewrite (no_newline_no_end _ Hall).
  unfold free_of in Hall. rewrite Hall. cbn [andb].
  apply existsb_exists. exists (lower x). split; [done|].
  rewrite lower_app. change (lower ("." +:+ x)) with ("." +:+ lower x).
  apply endswith_app.
Qed.

End Filters.

(** X19.  The two extension filters do not depend on the case of the
    extension.  A link without white space that ends with a dot and one of
    the ignored extensions, in whatever case, is not a valid link; a
    reference without a newline that ends with a dot and one of the asset
    extensions, in whatever case, is an asset link. *)
Theorem extension_filters_ignore_case :
  (∀ s x,
     In (lower x) ["css"; "js"; "json"; "zip"; "rar"; "exe"; "tar"; "gz"; "mp3";
                   "mp4"; "avi"; "mov"] →
     free_of is_space s →
     _is_valid_href (Some (s +:+ "." +:+ x)) = false)
  ∧ (∀ s x,
       In (lower x) ["jpg"; "jpeg"; "png"; "gif"; "svg"; "webp"; "bmp"; "pdf";
                     "doc"; "docx"; "xls"; "xlsx"; "ppt"; "pptx"] →
       free_of (λ a, Ascii.eqb a Re.newline) s →
       _is_asset_link (s +:+ "." +:+ x) = true).
Proof.
  split.
  - intros s x Hin Hs. unfold _is_valid_href.
    assert (is_empty (s +:+ "." +:+ x) = false) as -> by (by destruct s).
    assert (free_of is_space (s +:+ "." +:+ x)) as Hfree.
    { unfold free_of in *. rewrite !str_all_app, Hs. cbn [str_all andb].
      change (negb (is_space ".")) with true. cbn [andb].
      rewrite <- (lower_keeps (λ a, negb (is_space a)) x).
      - clear -Hin. simpl in Hin.
        repeat (destruct Hin as [<-|Hin]; [reflexivity|]). done.
      - intros a. destruct a as [[] [] [] [] [] [] [] []]; vm_compute; reflexivity. }
    unfold strip. rewrite (lstrip_id _ _ Hfree), (rstrip_id _ _ Hfree).
    destruct (startswith "#" _); [done|].
    destruct (startswith "javascript:" _); [done|].
    destruct (_ || _); [done|].
    unfold IGNORED_EXTENSIONS. rewrite ext_match_suffix; [done|done|done|].
    unfold free_of in *. eapply str_all_impl; [|exact Hs].
    intros a. destruct a as [[] [] [] [] [] [] [] []]; vm_compute; congruence.
  - intros s x Hin Hs. unfold _is_asset_link.
    assert (is_empty (s +:+ "." +:+ x) = false) as -> by (by destruct s).
    unfold ASSET_EXTENSIONS. by apply ext_match_suffix.
Qed.

(** X19, witness: a stylesheet and an image with upper-case extensions. *)
Lemma extension_filters_ignore_case_witness :
  _is_valid_href (Some "/Style.CSS") = false
  ∧ _is_asset_link "/My Logo.PNG" = true.
Proof.
  destruct extension_filters_ignore_case as (Hhref & Hasset). split.
  - apply (Hhref "/Style" "CSS"); [vm_compute; auto 20|reflexivity].
  - apply (Hasset "/My Logo" "PNG"); [vm_compute; auto 20|reflexivity].
Defined.

(** X20.  [_is_valid_href] rejects a missing and an empty [href], but it
    accepts an [href] that consists of white space: the test for emptiness
    comes before [strip], and none of the later tests rejects the empty
    text. *)
Theorem blank_href_is_valid (href : string) :
  href ≠ EmptyString → str_all is_space href = true →
  _is_valid_href (Some href) = true
  ∧ _is_valid_href (Some EmptyString) = false
  ∧ _is_valid_href None = false.
Proof.
  intros Hne Hblank. split; [|done]. unfold _is_valid_href.
  assert (is_empty href = false) as -> by (by destruct href).
  unfold strip. rewrite (lstrip_all_true _ _ Hblank). reflexivity.
Qed.

(** X20, witness: an [href] of two spaces. *)
Lemma blank_href_is_valid_witness :
  _is_valid_href (Some "  ") = true.
Proof. apply (blank_href_is_valid "  "); [discriminate|reflexivity]. Defined.

